(** * CLAI: agents, workflow engine and sandboxed file store

    A shallow embedding of the Python sources
    [agents/base.py], [agents/factory.py], [roles/base.py],
    [orchestrator.py] and [mcp_filesystem.py], and the properties of the
    specification proved (or refuted) against it.

    Conventions of the embedding:
    - a Python [str] is a [string]; text is ASCII (one [ascii] per
      character), so [len] is [String.length];
    - a Python function that may raise returns [Exception + A]
      ([inl] is the raised exception, [inr] the returned value);
    - an insertion-ordered [dict] whose order matters is an association
      list; the two registries of the orchestrator are [gmap]s;
    - paths follow [pathlib.PurePosixPath]; the filesystem has no
      symbolic links, so [Path.resolve] is the lexical normalisation that
      [os.path.realpath] performs on such a filesystem. *)

From Stdlib Require Import String Ascii List ZArith QArith Lia Permutation
  Sorted.
From stdpp Require Import base gmap strings list pretty.
Import ListNotations.

Local Open Scope nat_scope.

(** ** Exceptions *)

Inductive ExcClass :=
| ValueError
| PermissionError
| FileNotFoundError
| FileExistsError
| NotADirectoryError
| IsADirectoryError
| UnicodeDecodeError
| OtherError (name : string).

(** An exception object: its class and [str(e)]. Only subclasses of
    [Exception] are modelled (what [except Exception] catches). *)
Record Exception := mkExc { exc_class : ExcClass; exc_str : string }.

Definition result (A : Type) : Type := (Exception + A)%type.

(** ** Insertion-ordered dictionaries with string keys *)

(** [d.get(k)] *)
Fixpoint assoc {A} (k : string) (l : list (string * A)) : option A :=
  match l with
  | [] => None
  | (k', v) :: l' => if String.eqb k k' then Some v else assoc k l'
  end.

(** [d[k] = v]: an existing key keeps its position, a new key goes last. *)
Fixpoint set_entry {A} (k : string) (v : A) (l : list (string * A))
  : list (string * A) :=
  match l with
  | [] => [(k, v)]
  | (k', v') :: l' =>
      if String.eqb k k' then (k, v) :: l' else (k', v') :: set_entry k v l'
  end.

Definition del_entry {A} (k : string) (l : list (string * A))
  : list (string * A) :=
  List.filter (fun kv => negb (String.eqb k (fst kv))) l.

(** ** Python string primitives *)

Module PyStr.

(** [s.lstrip(c)] for a one-character set [c]. *)
Fixpoint lstrip (c : ascii) (s : string) : string :=
  match s with
  | String a s' => if Ascii.eqb a c then lstrip c s' else s
  | EmptyString => EmptyString
  end.

(** [s.startswith(c)] for one character. *)
Definition startswith (c : ascii) (s : string) : bool :=
  match s with
  | String a _ => Ascii.eqb a c
  | EmptyString => false
  end.

(** [s.split(sep)] for a one-character separator: empty fields are kept. *)
Fixpoint split (sep : ascii) (s : string) : list string :=
  match s with
  | EmptyString => [EmptyString]
  | String a s' =>
      if Ascii.eqb a sep then EmptyString :: split sep s'
      else match split sep s' with
           | [] => [String a EmptyString]
           | w :: ws => String a w :: ws
           end
  end.


(** [sep.join(l)] *)
Fixpoint join (sep : string) (l : list string) : string :=
  match l with
  | [] => EmptyString
  | [x] => x
  | x :: rest => x +:+ sep +:+ join sep rest
  end.

(** [needle in hay] on strings. *)
Fixpoint contains (needle hay : string) : bool :=
  String.prefix needle hay
  || match hay with
     | EmptyString => false
     | String _ hay' => contains needle hay'
     end.

Definition is_upper (a : ascii) : bool :=
  (65 <=? nat_of_ascii a) && (nat_of_ascii a <=? 90).

Definition lower_char (a : ascii) : ascii :=
  if is_upper a then ascii_of_nat (nat_of_ascii a + 32) else a.

(** [s.lower()] on ASCII text. *)
Fixpoint lower (s : string) : string :=
  match s with
  | EmptyString => EmptyString
  | String a s' => String (lower_char a) (lower s')
  end.

(** [c.isspace()] on ASCII: TAB, LF, VT, FF, CR, FS, GS, RS, US, SPACE. *)
Definition is_space (a : ascii) : bool :=
  let n := nat_of_ascii a in
  ((9 <=? n) && (n <=? 13)) || ((28 <=? n) && (n <=? 32)).

Fixpoint lstrip_ws (s : string) : string :=
  match s with
  | String a s' => if is_space a then lstrip_ws s' else s
  | EmptyString => EmptyString
  end.

Fixpoint rstrip_ws (s : string) : string :=
  match s with
  | EmptyString => EmptyString
  | String a s' =>
      match rstrip_ws s' with
      | EmptyString => if is_space a then EmptyString else String a EmptyString
      | t => String a t
      end
  end.

(** [s.strip()] *)
Definition strip (s : string) : string := rstrip_ws (lstrip_ws s).

(** [s.replace(old, new)]: left to right, non-overlapping, the inserted
    text is not scanned again. [skip] counts the characters of a matched
    occurrence of [old] that are still to be dropped. An empty [old]
    matches before every character and at the end, as in Python. *)
Fixpoint replace_from (old new : string) (skip : nat) (s : string) : string :=
  match s with
  | EmptyString =>
      match old with EmptyString => new | _ => EmptyString end
  | String a s' =>
      match skip with
      | S k => replace_from old new k s'
      | O =>
          if String.prefix old s then
            match old with
            | EmptyString => new +:+ String a (replace_from old new 0 s')
            | _ => new +:+ replace_from old new (String.length old - 1) s'
            end
          else String a (replace_from old new 0 s')
      end
  end.

Definition replace (s old new : string) : string := replace_from old new 0 s.

End PyStr.

(** ** Paths ([pathlib], POSIX flavour) *)

Module PyPath.

(** A parsed [PurePosixPath]: whether it has a root, and its components
    after the root. A resolved absolute path is given by its components
    alone. The root [//] (exactly two slashes) is identified with [/], as
    [Path.resolve] does. *)
Record PurePath := mkPath { is_absolute : bool; parts : list string }.

Definition keep_part (x : string) : bool :=
  negb (String.eqb x "") && negb (String.eqb x ".").

(** [PurePosixPath(s)]: empty and [.] components are dropped, [..] is
    kept. *)
Definition parse (s : string) : PurePath :=
  {| is_absolute := PyStr.startswith "/" s;
     parts := List.filter keep_part (PyStr.split "/" s) |}.

(** [root / other] for an absolute [root]: an absolute right operand
    replaces the left one. *)
Definition joinpath (root : list string) (other : PurePath) : PurePath :=
  if is_absolute other then other
  else {| is_absolute := true; parts := root ++ parts other |}.

(** One step of [realpath] on a filesystem without symbolic links. *)
Definition resolve_step (acc : list string) (part : string) : list string :=
  if String.eqb part ".." then removelast acc else acc ++ [part].

(** [p.resolve()] for an absolute [p]; the parent of [/] is [/]. *)
Definition resolve (p : PurePath) : list string :=
  fold_left resolve_step (parts p) [].

(** [full.relative_to(root)]: the remaining components, or [ValueError]
    (here [None]; the caller replaces the exception by its own). *)
Fixpoint relative_to (full root : list string) {struct root}
  : option (list string) :=
  match root, full with
  | [], _ => Some full
  | r :: root', f :: full' =>
      if String.eqb r f then relative_to full' root' else None
  | _ :: _, [] => None
  end.

(** [str(p)] for an absolute resolved path. *)
Definition str_abs (p : list string) : string :=
  "/" +:+ PyStr.join "/" p.

(** [str(p)] for a relative path; the empty relative path is [.]. *)
Definition str_rel (p : list string) : string :=
  match p with
  | [] => "."
  | _ => PyStr.join "/" p
  end.

End PyPath.


(** ** The filesystem the file store runs on

    A tree of directories and regular files, rooted at [/]. There are no
    symbolic links; the only permission modelled is read permission
    (of a file's bytes, of a directory's listing). The order of a
    directory's entries is the order in which the operating system lists
    them. *)

Module FS.

Record file := mkFile {
  f_data : string;      (* the bytes *)
  f_utf8 : bool;        (* do the bytes decode as UTF-8 *)
  f_readable : bool
}.

#[warning="-register-all"]
Inductive node :=
| File (f : file)
| Dir (readable : bool) (entries : list (string * node)).

Definition path := list string.

Fixpoint lookup (n : node) (p : path) : option node :=
  match p with
  | [] => Some n
  | x :: p' =>
      match n with
      | File _ => None
      | Dir _ es =>
          match assoc x es with
          | Some c => lookup c p'
          | None => None
          end
      end
  end.

(** *** Error messages of the operating system *)

Definition hex_digit (n : nat) : ascii :=
  if n <? 10 then ascii_of_nat (48 + n) else ascii_of_nat (87 + n).

Definition has_char (c : ascii) (s : string) : bool :=
  existsb (Ascii.eqb c) (list_ascii_of_string s).

Definition dquote : ascii := ascii_of_nat 34.
Definition squote : ascii := ascii_of_nat 39.
Definition backslash : ascii := ascii_of_nat 92.

Definition repr_char (q a : ascii) : string :=
  let n := nat_of_ascii a in
  if Ascii.eqb a backslash || Ascii.eqb a q then String backslash (String a "")
  else if n =? 9 then String backslash "t"
  else if n =? 10 then String backslash "n"
  else if n =? 13 then String backslash "r"
  else if (n <? 32) || (n =? 127) then
    String backslash (String "x" (String (hex_digit (n / 16))
                                   (String (hex_digit (n mod 16)) "")))
  else String a "".

(** [repr(s)] for ASCII text. *)
Definition repr (s : string) : string :=
  let q := if has_char squote s && negb (has_char dquote s)
           then dquote else squote in
  String q (String.concat "" (List.map (repr_char q) (list_ascii_of_string s)))
  +:+ String q "".

Definition os_error (c : ExcClass) (p : path) : Exception :=
  let text :=
    match c with
    | PermissionError => "[Errno 13] Permission denied: "
    | FileNotFoundError => "[Errno 2] No such file or directory: "
    | FileExistsError => "[Errno 17] File exists: "
    | NotADirectoryError => "[Errno 20] Not a directory: "
    | IsADirectoryError => "[Errno 21] Is a directory: "
    | _ => ""
    end in
  mkExc c (text +:+ repr (PyPath.str_abs p)).

(** *** Tree updates *)

(** [at_path full p upd n]: rebuild [n] with [upd] applied to what sits at
    [p] ([None] when nothing does, and for the result: no entry). Missing
    or non-directory ancestors raise, reporting the full path [full]. *)
Fixpoint at_path (full p : path)
    (upd : option node -> result (option node)) (n : node) : result node :=
  match p with
  | [] =>
      match upd (Some n) with
      | inl e => inl e
      | inr (Some n') => inr n'
      | inr None => inl (os_error PermissionError full)
      end
  | [x] =>
      match n with
      | File _ => inl (os_error NotADirectoryError full)
      | Dir r es =>
          match upd (assoc x es) with
          | inl e => inl e
          | inr (Some c) => inr (Dir r (set_entry x c es))
          | inr None => inr (Dir r (del_entry x es))
          end
      end
  | x :: p' =>
      match n with
      | File _ => inl (os_error NotADirectoryError full)
      | Dir r es =>
          match assoc x es with
          | None => inl (os_error FileNotFoundError full)
          | Some c =>
              match at_path full p' upd c with
              | inl e => inl e
              | inr c' => inr (Dir r (set_entry x c' es))
              end
          end
      end
  end.

(** [p.mkdir(parents=True, exist_ok=True)] on the tree. *)
Fixpoint mkdir_node (full p : path) (n : node) : result node :=
  match n with
  | File _ =>
      inl (os_error (match p with
                     | [] => FileExistsError
                     | _ => NotADirectoryError
                     end) full)
  | Dir r es =>
      match p with
      | [] => inr n
      | x :: p' =>
          match mkdir_node full p'
                  (match assoc x es with
                   | Some c => c
                   | None => Dir true []
                   end) with
          | inl e => inl e
          | inr c' => inr (Dir r (set_entry x c' es))
          end
      end
  end.

(** *** The state-and-exception monad of filesystem actions *)

Definition IO (A : Type) : Type := node -> node * result A.

Definition ret {A} (a : A) : IO A := fun fs => (fs, inr a).
Definition raise {A} (e : Exception) : IO A := fun fs => (fs, inl e).
Definition lift {A} (r : result A) : IO A := fun fs => (fs, r).

Definition bind {A B} (m : IO A) (k : A -> IO B) : IO B :=
  fun fs =>
    match m fs with
    | (fs', inl e) => (fs', inl e)
    | (fs', inr a) => k a fs'
    end.

(** [try: body  except Exception as e: return handler(e)] *)
Definition try_except {A} (body : IO A) (handler : Exception -> A)
  : node -> node * A :=
  fun fs =>
    match body fs with
    | (fs', inl e) => (fs', handler e)
    | (fs', inr a) => (fs', a)
    end.

(** An action that only reads the filesystem. *)
Definition reading {A} (f : node -> result A) : IO A := fun fs => (fs, f fs).

(** An action that replaces the filesystem, unless it raises. *)
Definition writing (f : node -> result node) : IO unit :=
  fun fs =>
    match f fs with
    | inl e => (fs, inl e)
    | inr fs' => (fs', inr tt)
    end.

(** *** System calls *)

Definition is_dir_node (n : node) : bool :=
  match n with Dir _ _ => true | File _ => false end.

Definition exists_ (p : path) : IO bool :=
  reading (fun fs => inr (bool_decide (is_Some (lookup fs p)))).

Definition is_dir (p : path) : IO bool :=
  reading (fun fs =>
    inr (match lookup fs p with Some (Dir _ _) => true | _ => false end)).

Definition is_file (p : path) : IO bool :=
  reading (fun fs =>
    inr (match lookup fs p with Some (File _) => true | _ => false end)).

(** [p.stat().st_size if p.is_file() else 0] *)
Definition file_size (p : path) : IO nat :=
  reading (fun fs =>
    inr (match lookup fs p with
         | Some (File f) => String.length (f_data f)
         | _ => 0
         end)).

Definition CR : ascii := ascii_of_nat 13.
Definition LF : ascii := ascii_of_nat 10.

(** Universal newlines: CR LF and a lone CR are read as LF. *)
Fixpoint translate_newlines (s : string) : string :=
  match s with
  | EmptyString => EmptyString
  | String a s' =>
      if Ascii.eqb a CR then
        match s' with
        | String b _ =>
            if Ascii.eqb b LF then translate_newlines s'
            else String LF (translate_newlines s')
        | EmptyString => String LF EmptyString
        end
      else String a (translate_newlines s')
  end.

(** The lines a text file yields when iterated, each with its LF. *)
Fixpoint lines_keepends (s : string) : list string :=
  match s with
  | EmptyString => []
  | String a s' =>
      if Ascii.eqb a LF then String a EmptyString :: lines_keepends s'
      else match lines_keepends s' with
           | [] => [String a EmptyString]
           | l :: ls => String a l :: ls
           end
  end.

(** Opening [p] for reading in text mode and decoding all of it. A file
    whose bytes are not UTF-8 fails before any text is produced. *)
Definition open_read (p : path) (fs : node) : result string :=
  match lookup fs p with
  | None => inl (os_error FileNotFoundError p)
  | Some (Dir _ _) => inl (os_error IsADirectoryError p)
  | Some (File f) =>
      if negb (f_readable f) then inl (os_error PermissionError p)
      else if negb (f_utf8 f) then
        (* the message names the offending byte; no operation shows it *)
        inl (mkExc UnicodeDecodeError "'utf-8' codec can't decode byte")
      else inr (translate_newlines (f_data f))
  end.

(** [p.read_text(encoding="utf-8")] *)
Definition read_text (p : path) : IO string := reading (open_read p).

(** [open(p, mode)] followed by [write(content)], for mode [w]
    ([append = false]) or [a] ([append = true]). *)
Definition open_write (append : bool) (p : path) (content : string)
  : IO unit :=
  writing (at_path p p (fun old =>
    match old with
    | Some (Dir _ _) => inl (os_error IsADirectoryError p)
    | Some (File f) =>
        inr (Some (File {| f_data := if append then f_data f +:+ content
                                     else content;
                           f_utf8 := if append then f_utf8 f else true;
                           f_readable := f_readable f |}))
    | None =>
        inr (Some (File {| f_data := content; f_utf8 := true;
                           f_readable := true |}))
    end)).

(** [p.write_text(content, encoding="utf-8")] *)
Definition write_text (p : path) (content : string) : IO unit :=
  open_write false p content.

(** [p.unlink()] *)
Definition unlink (p : path) : IO unit :=
  writing (at_path p p (fun old =>
    match old with
    | Some (File _) => inr None
    | Some (Dir _ _) => inl (os_error IsADirectoryError p)
    | None => inl (os_error FileNotFoundError p)
    end)).

(** [p.mkdir(parents=True, exist_ok=True)] *)
Definition mkdir_parents (p : path) : IO unit :=
  writing (mkdir_node p p).

(** [p.iterdir()]: the names of the entries, in directory order. *)
Definition iterdir (p : path) : IO (list string) :=
  reading (fun fs =>
    match lookup fs p with
    | None => inl (os_error FileNotFoundError p)
    | Some (File _) => inl (os_error NotADirectoryError p)
    | Some (Dir r es) =>
        if r then inr (List.map fst es)
        else inl (os_error PermissionError p)
    end).

(** [os.walk(top)] where the caller prunes, in place, the directory names
    that start with a dot: the triples [(root, dirs, files)] in the order
    they are produced, [dirs] after pruning. Errors of the directory scan
    are ignored by [os.walk]; a [top] that is not a directory yields
    nothing. *)
Definition hidden (name : string) : bool := PyStr.startswith "." name.

Fixpoint walk_node (root : path) (n : node)
  : list (path * list string * list string) :=
  match n with
  | File _ => []
  | Dir r es =>
      if r then
        (root,
         List.map fst (List.filter (fun e => is_dir_node (snd e)
                                             && negb (hidden (fst e))) es),
         List.map fst (List.filter (fun e => negb (is_dir_node (snd e))) es))
        :: flat_map (fun e =>
                       if is_dir_node (snd e) && negb (hidden (fst e))
                       then walk_node (root ++ [fst e]) (snd e) else [])
                    es
      else []
  end.

Definition os_walk_pruned (top : path) (fs : node)
  : list (path * list string * list string) :=
  match lookup fs top with
  | Some n => walk_node top n
  | None => []
  end.

End FS.

(** ** The sandboxed file store ([mcp_filesystem.py])

    The operations on files and directories and the three listing
    operations are embedded here, [create_project] and [list_projects]
    further down in [ProjectTools]. [delete_project] and [get_tree] have
    the same shape (a [try] block that first resolves the path, then a
    body, and a handler for every exception); their bodies (recursive
    deletion, tree drawing) are not embedded. *)

Module FileSystemTools.

Import FS.

Notation "x <- m ;; k" := (bind m (fun x => k))
  (at level 100, m at next level, right associativity).

Record FileInfo := mkFileInfo {
  info_path : string;
  info_name : string;
  info_is_dir : bool;
  info_size : nat
}.

Record OperationResult := mkOperationResult {
  success : bool;
  message : string;
  data : option string
}.

(** [sorted] on strings (by code point). *)
Fixpoint insert_sorted (x : string) (l : list string) : list string :=
  match l with
  | [] => [x]
  | y :: l' => if String.ltb x y then x :: l else y :: insert_sorted x l'
  end.

Definition sorted (l : list string) : list string :=
  fold_right insert_sorted [] l.

(** [for x in l: acc = body(x, acc)] where the body may raise. *)
Fixpoint for_each {A B} (l : list A) (acc : B) (body : A -> B -> IO B)
  : IO B :=
  match l with
  | [] => ret acc
  | x :: l' => acc' <- body x acc ;; for_each l' acc' body
  end.

Section Store.

(** [self.workspace_root]: absolute and resolved. *)
Variable workspace_root : path.

(** [fnmatch.fnmatch(filename, pattern)] of the standard library. *)
Variable fnmatch : string -> string -> bool.

Definition escape_error (relative_path : string) : Exception :=
  mkExc ValueError
        ("Path '" +:+ relative_path +:+ "' escapes workspace sandbox").

Definition _resolve_path (relative_path : string) : result path :=
  let clean_path := PyStr.lstrip "\" (PyStr.lstrip "/" relative_path) in
  let full_path :=
    PyPath.resolve (PyPath.joinpath workspace_root (PyPath.parse clean_path)) in
  match PyPath.relative_to full_path workspace_root with
  | Some _ => inr full_path
  | None => inl (escape_error relative_path)
  end.

(** [str(p.relative_to(self.workspace_root))] *)
Definition rel_str (p : path) : result string :=
  match PyPath.relative_to p workspace_root with
  | Some rel => inr (PyPath.str_rel rel)
  | None =>
      inl (mkExc ValueError
             (repr (PyPath.str_abs p) +:+ " is not in the subpath of "
              +:+ repr (PyPath.str_abs workspace_root)
              +:+ " OR one path is relative and the other is absolute."))
  end.

Definition failed (msg : string) : OperationResult :=
  mkOperationResult false msg None.

Definition read_file (file_path : string) : node -> node * OperationResult :=
  try_except
    (full_path <- lift (_resolve_path file_path) ;;
     ex <- exists_ full_path ;;
     if negb ex then ret (failed ("File not found: " +:+ file_path)) else
     isf <- is_file full_path ;;
     if negb isf then ret (failed ("Not a file: " +:+ file_path)) else
     content <- read_text full_path ;;
     ret (mkOperationResult true
            ("Read " +:+ pretty (String.length content) +:+ " bytes from "
             +:+ file_path)
            (Some content)))
    (fun e =>
       match exc_class e with
       | UnicodeDecodeError =>
           failed ("Cannot read binary file: " +:+ file_path)
       | _ => failed (exc_str e)
       end).

Definition write_file (file_path content : string)
  : node -> node * OperationResult :=
  try_except
    (full_path <- lift (_resolve_path file_path) ;;
     _ <- mkdir_parents (removelast full_path) ;;
     _ <- write_text full_path content ;;
     ret (mkOperationResult true
            ("Wrote " +:+ pretty (String.length content) +:+ " bytes to "
             +:+ file_path)
            (Some (PyPath.str_abs full_path))))
    (fun e => failed (exc_str e)).

Definition append_file (file_path content : string)
  : node -> node * OperationResult :=
  try_except
    (full_path <- lift (_resolve_path file_path) ;;
     _ <- open_write true full_path content ;;
     ret (mkOperationResult true
            ("Appended " +:+ pretty (String.length content) +:+ " bytes to "
             +:+ file_path)
            None))
    (fun e => failed (exc_str e)).

Definition delete_file (file_path : string)
  : node -> node * OperationResult :=
  try_except
    (full_path <- lift (_resolve_path file_path) ;;
     ex <- exists_ full_path ;;
     if negb ex then ret (failed ("File not found: " +:+ file_path)) else
     isd <- is_dir full_path ;;
     if isd then
       ret (failed ("Use delete_project for directories: " +:+ file_path))
     else
     _ <- unlink full_path ;;
     ret (mkOperationResult true ("Deleted " +:+ file_path) None))
    (fun e => failed (exc_str e)).

Definition create_directory (dir_path : string)
  : node -> node * OperationResult :=
  try_except
    (full_path <- lift (_resolve_path dir_path) ;;
     _ <- mkdir_parents full_path ;;
     ret (mkOperationResult true ("Created directory: " +:+ dir_path) None))
    (fun e => failed (exc_str e)).

Definition list_directory (dir_path : string)
  : node -> node * list FileInfo :=
  try_except
    (full_path <- lift (_resolve_path dir_path) ;;
     ex <- exists_ full_path ;;
     if negb ex then ret [] else
     isd <- is_dir full_path ;;
     if negb isd then ret [] else
     names <- iterdir full_path ;;
     for_each (sorted names) []
       (fun name items =>
          let item := full_path ++ [name] in
          rel <- lift (rel_str item) ;;
          d <- is_dir item ;;
          sz <- file_size item ;;
          ret (items ++ [mkFileInfo rel name d sz])))
    (fun _ => []).

(** The parameter [include_content] is not read by the code. *)
Definition search_files (pattern dir_path : string)
  : node -> node * list string :=
  try_except
    (full_path <- lift (_resolve_path dir_path) ;;
     walk <- reading (fun fs => inr (os_walk_pruned full_path fs)) ;;
     matches <-
       for_each walk []
         (fun '(root, _, files) matches =>
            for_each files matches
              (fun filename matches =>
                 if fnmatch filename pattern then
                   rel_path <- lift (rel_str (root ++ [filename])) ;;
                   ret (matches ++ [rel_path])
                 else ret matches)) ;;
     ret (sorted matches))
    (fun _ => []).

(** [search_term.lower() in line.lower()] *)
Definition line_hit (search_term line : string) : bool :=
  PyStr.contains (PyStr.lower search_term) (PyStr.lower line).

(** The loop [for line_num, line in enumerate(f, line_num)] of [grep] over
    the lines of one file. *)
Fixpoint grep_lines (search_term : string) (file_path : path)
    (line_num : nat) (lines : list string) (matches : list string)
  : result (list string) :=
  match lines with
  | [] => inr matches
  | line :: rest =>
      if line_hit search_term line then
        match rel_str file_path with
        | inl e => inl e
        | inr rel_path =>
            grep_lines search_term file_path (S line_num) rest
              (matches ++ [rel_path +:+ ":" +:+ pretty line_num +:+ ":"
                           +:+ PyStr.strip line])
        end
      else grep_lines search_term file_path (S line_num) rest matches
  end.

(** The body of the loop over file names, with its inner
    [try ... except (UnicodeDecodeError, PermissionError): continue]. *)
Definition grep_file (search_term : string) (file_path : path)
    (matches : list string) : IO (list string) :=
  reading (fun fs =>
    match open_read file_path fs with
    | inr text =>
        grep_lines search_term file_path 1 (lines_keepends text) matches
    | inl e =>
        match exc_class e with
        | UnicodeDecodeError | PermissionError => inr matches
        | _ => inl e
        end
    end).

(** The body of the outer [try] block of [grep]. *)
Definition grep_body (search_term dir_path file_pattern : string)
  : IO (list string) :=
  full_path <- lift (_resolve_path dir_path) ;;
  walk <- reading (fun fs => inr (os_walk_pruned full_path fs)) ;;
  for_each walk []
    (fun '(root, _, files) matches =>
       for_each files matches
         (fun filename matches =>
            if negb (fnmatch filename file_pattern) then ret matches
            else grep_file search_term (root ++ [filename]) matches)).

Definition grep (search_term dir_path file_pattern : string)
  : node -> node * list string :=
  try_except (grep_body search_term dir_path file_pattern) (fun _ => []).

End Store.

End FileSystemTools.

(** ** The canonical message model and the agent ([agents/base.py]) *)

Inductive MessageRole := SYSTEM | USER | ASSISTANT.

Module Message.
Record t := mk {
  role : MessageRole;
  content : string;
  metadata : list (string * string)
}.
End Message.

(** [Message(role=r, content=c)]: the metadata defaults to an empty dict. *)
Definition new_message (r : MessageRole) (c : string) : Message.t :=
  Message.mk r c [].

(** The opaque [raw_response] and the [timestamp] are left out. *)
Module AgentResponse.
Record t := mk {
  content : string;
  model : string;
  provider : string;
  usage : list (string * Z);
  finish_reason : option string
}.

Definition total_tokens (r : t) : Z := default 0%Z (assoc "total_tokens" (usage r)).
End AgentResponse.

Inductive Provider := ANTHROPIC | OPENAI | GOOGLE.

(** The handle stored in [_client] once the provider SDK is set up. *)
Inductive Client := SdkClient (p : Provider).

(** The concrete subclass is given by [agent_class]. *)
Record BaseAgent := mkAgent {
  agent_class : Provider;
  model : string;
  system_prompt : string;
  max_tokens : Z;
  temperature : Q;
  conversation_history : list Message.t;
  _client : option Client
}.

(** [BaseAgent.__init__] *)
Definition new_agent (cls : Provider) (model system_prompt : string)
    (max_tokens : Z) (temperature : Q) : BaseAgent :=
  mkAgent cls model system_prompt max_tokens temperature [] None.

Definition with_history (a : BaseAgent) (h : list Message.t) : BaseAgent :=
  mkAgent (agent_class a) (model a) (system_prompt a) (max_tokens a)
          (temperature a) h (_client a).

Definition with_client (a : BaseAgent) (c : option Client) : BaseAgent :=
  mkAgent (agent_class a) (model a) (system_prompt a) (max_tokens a)
          (temperature a) (conversation_history a) c.

(** A call to the provider SDK, with the agent as it was at the call. *)
Inductive Call :=
| InitializeClient (a : BaseAgent)
| SendRequest (a : BaseAgent) (messages : list Message.t).

(** What has happened outside the process so far: the calls to the
    provider SDKs, in order, and the number of readings of the clock. *)
Record World := mkWorld { calls : list Call; clock_reads : nat }.

(** The two abstract methods of [BaseAgent] together with the provider
    behind them, and the clock: each answer may depend on everything that
    was called before. *)
Record Backend := mkBackend {
  _initialize_client : list Call -> BaseAgent -> result Client;
  _send_request : list Call -> BaseAgent -> list Message.t
                  -> result AgentResponse.t;
  now : nat -> Z      (* microseconds, at the n-th reading of the clock *)
}.

Definition log_call (c : Call) (w : World) : World :=
  mkWorld (calls w ++ [c]) (clock_reads w).

Section Agent.

Variable B : Backend.

Definition chat (self : BaseAgent) (user_message : string)
    (include_history : bool) (w : World)
  : BaseAgent * World * result AgentResponse.t :=
  (* Initialize client if needed *)
  let init :=
    match _client self with
    | Some _ => (self, w, None)
    | None =>
        match _initialize_client B (calls w) self with
        | inr c => (with_client self (Some c),
                    log_call (InitializeClient self) w, None)
        | inl e => (self, log_call (InitializeClient self) w, Some e)
        end
    end in
  match init with
  | (self, w, Some e) => (self, w, inl e)
  | (self, w, None) =>
      (* Build message list *)
      let messages := if include_history then conversation_history self
                      else [] in
      let user_msg := new_message USER user_message in
      let messages := messages ++ [user_msg] in
      (* Send request *)
      match _send_request B (calls w) self messages with
      | inl e => (self, log_call (SendRequest self messages) w, inl e)
      | inr response =>
          (* Update conversation history *)
          (with_history self
             (conversation_history self
              ++ [user_msg;
                  new_message ASSISTANT (AgentResponse.content response)]),
           log_call (SendRequest self messages) w,
           inr response)
      end
  end.

Definition clear_history (self : BaseAgent) : BaseAgent :=
  with_history self [].

Definition set_system_prompt (self : BaseAgent) (prompt : string)
  : BaseAgent :=
  mkAgent (agent_class self) (model self) prompt (max_tokens self)
          (temperature self) (conversation_history self) (_client self).

Definition get_context_length (self : BaseAgent) : nat :=
  length (conversation_history self).

End Agent.

(** ** Roles ([roles/]) and settings ([config/settings.py]) *)

Inductive Role := SENIOR_DEV | CODER | CODER_2 | QA | BA | REVIEWER.

(** [role.value] *)
Definition role_value (r : Role) : string :=
  match r with
  | SENIOR_DEV => "senior_dev"
  | CODER => "coder"
  | CODER_2 => "coder_2"
  | QA => "qa"
  | BA => "ba"
  | REVIEWER => "reviewer"
  end.

(** [list(Role)] *)
Definition all_roles : list Role :=
  [SENIOR_DEV; CODER; CODER_2; QA; BA; REVIEWER].

#[global] Instance Role_eq_dec : EqDecision Role.
Proof. solve_decision. Defined.

#[global] Instance Role_countable : Countable Role.
Proof.
  refine (inj_countable' (fun r => match r with
                                   | SENIOR_DEV => 0 | CODER => 1
                                   | CODER_2 => 2 | QA => 3 | BA => 4
                                   | REVIEWER => 5 end)
                         (fun n => match n with
                                   | 0 => SENIOR_DEV | 1 => CODER
                                   | 2 => CODER_2 | 3 => QA | 4 => BA
                                   | _ => REVIEWER end) _).
  intros []; reflexivity.
Defined.

Module RoleConfig.
Record t := mk {
  name : string;
  description : string;
  system_prompt : string;
  max_tokens : Z;
  temperature : Q;
  capabilities : list string
}.
End RoleConfig.

Definition SENIOR_DEV_PROMPT : string :=
"You are a Senior Software Developer with 15+ years of experience across multiple languages and paradigms. You are part of an AI development team.

## Your Role
You are the technical leader responsible for:
- Architecture decisions and system design
- Complex problem solving and algorithm design
- Code review and quality assurance
- Mentoring and guiding implementation decisions
- Breaking down complex requirements into actionable tasks

## Your Approach
1. **Think Before Coding**: Always analyze requirements thoroughly before proposing solutions
2. **Architecture First**: Consider scalability, maintainability, and best practices
3. **Clean Code**: Write readable, well-documented, and testable code
4. **Design Patterns**: Apply appropriate patterns where they add value
5. **Security Minded**: Consider security implications in all decisions

## Communication Style
- Be thorough but concise
- Explain your reasoning for architectural decisions
- Provide code examples when helpful
- Flag potential issues or edge cases proactively
- Suggest alternatives when appropriate

## Code Standards
- Follow language-specific conventions and idioms
- Include type hints/annotations where applicable
- Write self-documenting code with clear naming
- Add comments for complex logic only
- Consider error handling and edge cases

When asked to code, provide production-ready implementations with proper error handling, logging considerations, and documentation.".

Definition SENIOR_DEV_CONFIG : RoleConfig.t :=
  {| RoleConfig.name := "Senior Developer";
     RoleConfig.description := "Technical leader for architecture, complex coding, and code review";
     RoleConfig.system_prompt := SENIOR_DEV_PROMPT;
     RoleConfig.max_tokens := 8192;
     RoleConfig.temperature := (1 # 2);
     RoleConfig.capabilities := ["architecture_design"; "complex_coding"; "code_review"; "technical_decisions"; "problem_solving"; "mentoring"] |}.

Definition CODER_PROMPT : string :=
"You are an Expert Coder specializing in rapid, high-quality implementation. You are part of an AI development team.

## Your Role
You are the implementation specialist responsible for:
- Writing clean, efficient code quickly
- Implementing features based on specifications
- Creating utility functions and helpers
- Fixing bugs and implementing improvements
- Converting pseudocode or designs into working code

## Your Approach
1. **Speed with Quality**: Write code quickly without sacrificing quality
2. **Follow Specs**: Implement exactly what's requested, ask if unclear
3. **Practical Solutions**: Choose pragmatic approaches over over-engineering
4. **Test-Ready**: Write code that's easy to test
5. **Iterative**: Provide working code first, then refine if needed

## Communication Style
- Lead with code, explain after
- Keep explanations brief and focused
- Highlight any assumptions you made
- Note any edge cases you've handled
- Suggest improvements only if significant

## Code Standards
- Write idiomatic code for the target language
- Include necessary imports/dependencies
- Handle common error cases
- Use meaningful variable and function names
- Keep functions focused and single-purpose

## Output Format
When coding:
1. Provide the complete, runnable code
2. Brief explanation of key decisions (if non-obvious)
3. Usage example if helpful
4. Note any dependencies or requirements

Focus on delivering working code that solves the problem efficiently.".

Definition CODER_CONFIG : RoleConfig.t :=
  {| RoleConfig.name := "Coder";
     RoleConfig.description := "Implementation specialist for rapid, high-quality coding";
     RoleConfig.system_prompt := CODER_PROMPT;
     RoleConfig.max_tokens := 4096;
     RoleConfig.temperature := (3 # 5);
     RoleConfig.capabilities := ["implementation"; "feature_development"; "bug_fixing"; "utility_creation"; "code_conversion"] |}.

Definition CODER_2_PROMPT : string :=
"You are an Expert Coder specializing in rapid, high-quality implementation with massive context handling. You are part of an AI development team as the secondary coder.

## Your Role
You are the secondary implementation specialist responsible for:
- Writing clean, efficient code with large context awareness
- Implementing features that span multiple files
- Providing alternative implementations when needed
- Handling tasks that require understanding large codebases
- Converting designs into working code across many files

## Your Strengths
- **Massive Context**: You can process very large codebases at once
- **Cross-File Awareness**: Understand relationships across many files
- **Alternative Perspectives**: Offer different approaches than the primary coder
- **Speed with Scale**: Fast even with large inputs

## Your Approach
1. **Context First**: Leverage your large context window to understand the full picture
2. **Follow Specs**: Implement exactly what's requested
3. **Practical Solutions**: Choose pragmatic approaches
4. **Complement Team**: Work alongside the primary coder (Claude Sonnet)

## Communication Style
- Lead with code, explain after
- Keep explanations brief and focused
- Highlight any assumptions you made
- Note any edge cases you've handled

## Code Standards
- Write idiomatic code for the target language
- Include necessary imports/dependencies
- Handle common error cases
- Use meaningful variable and function names
- Keep functions focused and single-purpose

## Output Format
When coding:
1. Provide the complete, runnable code
2. Brief explanation of key decisions (if non-obvious)
3. Usage example if helpful
4. Note any dependencies or requirements

Focus on delivering working code that leverages your large context capabilities.".

Definition CODER_2_CONFIG : RoleConfig.t :=
  {| RoleConfig.name := "Coder 2 (Gemini)";
     RoleConfig.description := "Secondary coder with massive context for large codebases";
     RoleConfig.system_prompt := CODER_2_PROMPT;
     RoleConfig.max_tokens := 8192;
     RoleConfig.temperature := (3 # 5);
     RoleConfig.capabilities := ["implementation"; "large_context"; "multi_file"; "alternative_solutions"; "code_conversion"] |}.

Definition QA_PROMPT : string :=
"You are an Expert QA Engineer with a keen eye for bugs, edge cases, and quality issues. You are part of an AI development team.

## Your Role
You are the quality guardian responsible for:
- Reviewing code for bugs and potential issues
- Identifying edge cases and boundary conditions
- Writing comprehensive test cases
- Suggesting improvements for robustness
- Validating implementations against requirements

## Your Approach
1. **Skeptical Mindset**: Assume code has bugs until proven otherwise
2. **Edge Case Hunter**: Think about what could go wrong
3. **Systematic Testing**: Cover happy path, error cases, and boundaries
4. **User Perspective**: Consider how real users might break things
5. **Clear Reporting**: Document issues clearly and reproducibly

## What You Look For
- **Logic Errors**: Incorrect conditionals, off-by-one errors
- **Edge Cases**: Empty inputs, null values, extreme values
- **Error Handling**: Missing try/catch, unchecked returns
- **Security Issues**: Injection, validation, authentication gaps
- **Performance**: Inefficient algorithms, memory leaks
- **Race Conditions**: Concurrency issues, state management
- **Type Issues**: Type mismatches, unsafe casts

## Communication Style
- Be specific about issues found
- Provide steps to reproduce
- Suggest fixes when possible
- Prioritize issues by severity
- Be constructive, not critical

## Output Format
When reviewing code:
1. **Summary**: Overall assessment
2. **Critical Issues**: Must-fix problems
3. **Warnings**: Should-fix problems
4. **Suggestions**: Nice-to-have improvements
5. **Test Cases**: Recommended tests to add

When writing tests:
1. Test name that describes the scenario
2. Setup/Arrange section
3. Action/Act section
4. Assertion/Assert section
5. Cover positive, negative, and edge cases

Your goal is to prevent bugs from reaching production.".

Definition QA_CONFIG : RoleConfig.t :=
  {| RoleConfig.name := "QA Engineer";
     RoleConfig.description := "Quality guardian for testing, bug finding, and validation";
     RoleConfig.system_prompt := QA_PROMPT;
     RoleConfig.max_tokens := 4096;
     RoleConfig.temperature := (2 # 5);
     RoleConfig.capabilities := ["code_review"; "bug_finding"; "test_writing"; "edge_case_analysis"; "security_review"; "requirement_validation"] |}.

Definition BA_PROMPT : string :=
"You are an Expert Business Analyst with deep experience in software requirements and stakeholder communication. You are part of an AI development team.

## Your Role
You are the requirements specialist responsible for:
- Gathering and clarifying requirements
- Writing clear specifications and user stories
- Identifying business needs and constraints
- Creating acceptance criteria
- Facilitating communication between stakeholders and developers

## Your Approach
1. **Clarify First**: Ask questions to understand the real need
2. **User-Centric**: Focus on user value and outcomes
3. **Complete Coverage**: Consider all stakeholders and use cases
4. **Clear Documentation**: Write unambiguous, testable requirements
5. **Prioritize**: Help identify what's most important

## What You Deliver
- **User Stories**: As a [user], I want [feature], so that [benefit]
- **Acceptance Criteria**: Given/When/Then format
- **Requirements Documents**: Clear, structured specifications
- **Use Cases**: Actor-based interaction flows
- **Process Flows**: Step-by-step workflows
- **Data Requirements**: What data is needed and how it flows

## Communication Style
- Ask clarifying questions
- Use simple, non-technical language when possible
- Provide structured, organized outputs
- Highlight assumptions and dependencies
- Note risks and open questions

## Output Format
When gathering requirements:
1. **Summary**: High-level overview
2. **User Stories**: Detailed stories with acceptance criteria
3. **Functional Requirements**: What the system must do
4. **Non-Functional Requirements**: Performance, security, etc.
5. **Assumptions**: What you're assuming to be true
6. **Questions**: What needs clarification
7. **Risks**: Potential issues to consider

## Example User Story Format
```
**Story**: [Title]
**As a** [type of user]
**I want** [feature/capability]
**So that** [benefit/value]

**Acceptance Criteria**:
- Given [context], when [action], then [expected result]
- Given [context], when [action], then [expected result]

**Notes**: [Additional context]
**Priority**: [High/Medium/Low]
**Estimate**: [Story points or T-shirt size]
```

Your goal is to ensure the development team builds the right thing.".

Definition BA_CONFIG : RoleConfig.t :=
  {| RoleConfig.name := "Business Analyst";
     RoleConfig.description := "Requirements specialist for specifications and business analysis";
     RoleConfig.system_prompt := BA_PROMPT;
     RoleConfig.max_tokens := 4096;
     RoleConfig.temperature := (7 # 10);
     RoleConfig.capabilities := ["requirements_gathering"; "specification_writing"; "user_story_creation"; "stakeholder_communication"; "process_analysis"; "acceptance_criteria"] |}.

Definition REVIEWER_PROMPT : string :=
"You are an Expert Code Reviewer with a focus on providing fast, actionable feedback. You are part of an AI development team.

## Your Role
You are the review specialist responsible for:
- Quick code reviews with actionable feedback
- Identifying code smells and anti-patterns
- Suggesting refactoring opportunities
- Ensuring code follows best practices
- Checking for consistency and standards

## Your Approach
1. **Fast Feedback**: Provide quick, focused reviews
2. **Actionable**: Every comment should be actionable
3. **Constructive**: Be helpful, not harsh
4. **Prioritized**: Focus on what matters most
5. **Educational**: Explain why, not just what

## Review Categories
- **Must Fix**: Bugs, security issues, breaking changes
- **Should Fix**: Code smells, performance issues, maintainability
- **Consider**: Style improvements, alternative approaches
- **Praise**: Good patterns worth highlighting

## What You Check
- **Correctness**: Does the code do what it should?
- **Clarity**: Is the code easy to understand?
- **Consistency**: Does it follow project conventions?
- **Completeness**: Are edge cases handled?
- **Complexity**: Is it as simple as possible?

## Communication Style
- Use inline comments format: `Line X: [comment]`
- Be specific about locations and issues
- Provide concrete suggestions or examples
- Keep comments concise
- Balance criticism with recognition

## Output Format
```
## Review Summary
[Overall assessment in 1-2 sentences]

## Must Fix
- Line X: [Issue and suggestion]
- Line Y: [Issue and suggestion]

## Should Fix  
- Line X: [Issue and suggestion]

## Consider
- Line X: [Suggestion]

## What's Good
- [Positive observation]

## Questions
- [Any clarifying questions]
```

Your goal is to help improve code quality efficiently.".

Definition REVIEWER_CONFIG : RoleConfig.t :=
  {| RoleConfig.name := "Code Reviewer";
     RoleConfig.description := "Review specialist for fast, actionable code feedback";
     RoleConfig.system_prompt := REVIEWER_PROMPT;
     RoleConfig.max_tokens := 2048;
     RoleConfig.temperature := (1 # 2);
     RoleConfig.capabilities := ["code_review"; "refactoring_suggestions"; "best_practices"; "pattern_identification"; "quick_feedback"] |}.

(** [_ROLE_CONFIGS] once the role modules have registered themselves. *)
Definition _ROLE_CONFIGS : list (string * RoleConfig.t) :=
  [("senior_dev", SENIOR_DEV_CONFIG);
   ("coder", CODER_CONFIG);
   ("coder_2", CODER_2_CONFIG);
   ("qa", QA_CONFIG);
   ("ba", BA_CONFIG);
   ("reviewer", REVIEWER_CONFIG)].

(** The fields of [Settings] that the core reads; the values come from the
    environment. *)
Record Settings := mkSettings {
  senior_dev_model : string;
  coder_model : string;
  coder_model_2 : string;
  qa_model : string;
  ba_model : string;
  reviewer_model : string;
  default_max_tokens : Z;
  default_temperature : Q
}.

(** The settings when the environment overrides nothing. *)
Definition default_settings : Settings :=
  {| senior_dev_model := "claude-sonnet-4-20250514";
     coder_model := "claude-sonnet-4-5-20250514";
     coder_model_2 := "gemini-2.0-flash";
     qa_model := "gpt-4o";
     ba_model := "gemini-1.5-pro";
     reviewer_model := "claude-sonnet-4-20250514";
     default_max_tokens := 8192;
     default_temperature := 7 # 10 |}.

(** ** The agent factory ([agents/factory.py]) *)

Module AgentFactory.

Section Factory.

(** [get_settings()] and the role registry. *)
Variable settings : Settings.
Variable role_configs : list (string * RoleConfig.t).

(** [get_role_config(role)] of [roles/base.py], for a [Role]. *)
Definition get_role_config (role : Role) : result RoleConfig.t :=
  let role_key := role_value role in
  match assoc role_key role_configs with
  | Some config => inr config
  | None => inl (mkExc ValueError ("Unknown role: " +:+ role_key))
  end.

(** [PROVIDER_AGENTS.get(provider)]: the agent class of a provider. *)
Definition PROVIDER_AGENTS (provider : Provider) : option Provider :=
  match provider with
  | ANTHROPIC => Some ANTHROPIC   (* ClaudeAgent *)
  | OPENAI => Some OPENAI         (* GPTAgent *)
  | GOOGLE => Some GOOGLE         (* GeminiAgent *)
  end.

(** [ROLE_PROVIDERS.get(role)] *)
Definition ROLE_PROVIDERS (role : Role) : option Provider :=
  match role with
  | SENIOR_DEV => Some ANTHROPIC
  | CODER => Some ANTHROPIC
  | CODER_2 => Some GOOGLE
  | QA => Some OPENAI
  | BA => Some GOOGLE
  | REVIEWER => Some ANTHROPIC
  end.

(** [str(provider)] and [str(role)] of the enumerations. *)
Definition provider_str (p : Provider) : string :=
  match p with
  | ANTHROPIC => "Provider.ANTHROPIC"
  | OPENAI => "Provider.OPENAI"
  | GOOGLE => "Provider.GOOGLE"
  end.

Definition role_str (r : Role) : string :=
  match r with
  | SENIOR_DEV => "Role.SENIOR_DEV"
  | CODER => "Role.CODER"
  | CODER_2 => "Role.CODER_2"
  | QA => "Role.QA"
  | BA => "Role.BA"
  | REVIEWER => "Role.REVIEWER"
  end.

(** [x or d] for an optional integer: [None] and [0] are falsy. *)
Definition int_or (x : option Z) (d : Z) : Z :=
  match x with
  | Some v => if Z.eqb v 0 then d else v
  | None => d
  end.

(** [x or d] for an optional string: [None] and the empty string are
    falsy. *)
Definition str_or (x : option string) (d : string) : string :=
  match x with
  | Some v => if String.eqb v "" then d else v
  | None => d
  end.

(** [x if x is not None else d] *)
Definition if_not_none {A} (x : option A) (d : A) : A :=
  match x with
  | Some v => v
  | None => d
  end.

Definition create_by_provider (provider : Provider) (model : string)
    (system_prompt : string) (max_tokens : option Z)
    (temperature : option Q) : result BaseAgent :=
  match PROVIDER_AGENTS provider with
  | None =>
      inl (mkExc ValueError
                 ("Unsupported provider: " +:+ provider_str provider))
  | Some agent_class =>
      inr (new_agent agent_class model system_prompt
             (int_or max_tokens (default_max_tokens settings))
             (if_not_none temperature (default_temperature settings)))
  end.

(** [model_map.get(role)] *)
Definition model_map (role : Role) : option string :=
  Some (match role with
        | SENIOR_DEV => senior_dev_model settings
        | CODER => coder_model settings
        | CODER_2 => coder_model_2 settings
        | QA => qa_model settings
        | BA => ba_model settings
        | REVIEWER => reviewer_model settings
        end).

Definition create_by_role (role : Role) (system_prompt : option string)
    (max_tokens : option Z) (temperature : option Q) : result BaseAgent :=
  match get_role_config role with
  | inl e => inl e
  | inr role_config =>
      match ROLE_PROVIDERS role with
      | None =>
          inl (mkExc ValueError ("Unsupported role: " +:+ role_str role))
      | Some provider =>
          match model_map role with
          | None | Some EmptyString =>
              inl (mkExc ValueError
                         ("No model configured for role: " +:+ role_str role))
          | Some model =>
              create_by_provider provider model
                (str_or system_prompt (RoleConfig.system_prompt role_config))
                (Some (int_or max_tokens (RoleConfig.max_tokens role_config)))
                (Some (if_not_none temperature
                         (RoleConfig.temperature role_config)))
          end
      end
  end.

End Factory.

End AgentFactory.

(** ** The orchestrator and its workflow engine ([orchestrator.py])

    Printing under [verbose] is not modelled, nor are the two thin file
    wrappers [write_file] and [read_file] of the orchestrator. *)

Module Orchestrator.

Inductive WorkflowStatus := PENDING | RUNNING | COMPLETED | FAILED.

(** [status.value] *)
Definition status_value (s : WorkflowStatus) : string :=
  match s with
  | PENDING => "pending"
  | RUNNING => "running"
  | COMPLETED => "completed"
  | FAILED => "failed"
  end.

Record WorkflowStep := mkStep {
  role : Role;
  instruction : string;
  depends_on : list string;
  transform : option (list (string * string) -> result string)
}.

Record WorkflowResult := mkWorkflowResult {
  status : WorkflowStatus;
  steps_completed : nat;
  outputs : list (string * AgentResponse.t);
  errors : list string;
  duration : Q
}.

Definition final_output (r : WorkflowResult) : option string :=
  match last (outputs r) with
  | Some (_, response) => Some (AgentResponse.content response)
  | None => None
  end.

Record t := mk {
  verbose : bool;
  _agents : gmap Role BaseAgent;
  _workflows : gmap string (list WorkflowStep)
}.

Definition with_agents (self : t) (agents : gmap Role BaseAgent) : t :=
  mk (verbose self) agents (_workflows self).

Definition nl : string := String (ascii_of_nat 10) EmptyString.

(** [f"step_{i}_{step.role.value}"] *)
Definition step_name (i : nat) (step : WorkflowStep) : string :=
  "step_" +:+ pretty i +:+ "_" +:+ role_value (role step).

(** [f"{{{key}}}"] *)
Definition placeholder (key : string) : string := "{" +:+ key +:+ "}".

(** [for key, value in context.items(): prompt = prompt.replace(...)] *)
Definition substitute (context : list (string * string)) (prompt : string)
  : string :=
  fold_left (fun prompt kv =>
               PyStr.replace prompt (placeholder (fst kv)) (snd kv))
            context prompt.

(** The text built in [dep_context] by the loop over [step.depends_on]. *)
Definition dep_context (depends_on : list string)
    (outputs : list (string * AgentResponse.t)) : string :=
  fold_left
    (fun dep_context dep =>
       match assoc dep outputs with
       | Some response =>
           dep_context +:+ nl +:+ "[" +:+ dep +:+ "]:" +:+ nl
           +:+ AgentResponse.content response +:+ nl
       | None => dep_context
       end)
    depends_on
    (nl +:+ nl +:+ "---" +:+ nl +:+ "Previous outputs:" +:+ nl).

(** The prompt of a step before [transform] is applied. *)
Definition build_prompt (step : WorkflowStep)
    (context : list (string * string))
    (outputs : list (string * AgentResponse.t)) : string :=
  let prompt := instruction step in
  let prompt := substitute context prompt in
  match depends_on step with
  | [] => prompt
  | _ => prompt +:+ dep_context (depends_on step) outputs
  end.

(** [{"prompt": prompt, **context}] *)
Definition transform_input (prompt : string)
    (context : list (string * string)) : list (string * string) :=
  fold_left (fun d kv => set_entry (fst kv) (snd kv) d) context
            [("prompt", prompt)].

(** [datetime.now()] *)
Definition read_clock (B : Backend) (w : World) : Z * World :=
  (now B (clock_reads w), mkWorld (calls w) (S (clock_reads w))).

(** [(t1 - t0).total_seconds()] for readings in microseconds. *)
Definition total_seconds (t0 t1 : Z) : Q := Qmake (t1 - t0) 1000000.

Section Engine.

Variable B : Backend.
Variable settings : Settings.
Variable role_configs : list (string * RoleConfig.t).

Definition _get_agent (self : t) (role : Role) : result (t * BaseAgent) :=
  match _agents self !! role with
  | Some agent => inr (self, agent)
  | None =>
      match AgentFactory.create_by_role settings role_configs role
              None None None with
      | inl e => inl e
      | inr agent => inr (with_agents self (<[role := agent]> (_agents self)),
                          agent)
      end
  end.

Definition ask (self : t) (role : Role) (prompt : string)
    (include_history : bool) (w : World)
  : t * World * result AgentResponse.t :=
  match _get_agent self role with
  | inl e => (self, w, inl e)
  | inr (self, agent) =>
      let '(agent, w, response) := chat B agent prompt include_history w in
      (with_agents self (<[role := agent]> (_agents self)), w, response)
  end.

(** The loop of [consult_team] over [roles]; [None] stands for all roles.
    The first exception ends it. *)
Fixpoint consult_loop (self : t) (prompt : string) (roles : list Role)
    (results : list (Role * AgentResponse.t)) (w : World)
  : t * World * result (list (Role * AgentResponse.t)) :=
  match roles with
  | [] => (self, w, inr results)
  | role :: rest =>
      match ask self role prompt false w with
      | (self, w, inl e) => (self, w, inl e)
      | (self, w, inr response) =>
          consult_loop self prompt rest
            (match list_find (fun kv => bool_decide (fst kv = role)) results with
             | Some (i, _) => <[i := (role, response)]> results
             | None => results ++ [(role, response)]
             end) w
      end
  end.

Definition consult_team (self : t) (prompt : string)
    (roles : option (list Role)) (w : World)
  : t * World * result (list (Role * AgentResponse.t)) :=
  consult_loop self prompt (default all_roles roles) [] w.

Definition register_workflow (self : t) (name : string)
    (steps : list WorkflowStep) : t :=
  mk (verbose self) (_agents self) (<[name := steps]> (_workflows self)).

(** The body of the [try] block of [run_workflow] up to and including the
    call of [ask]. *)
Definition run_step (self : t) (w : World) (step : WorkflowStep)
    (context : list (string * string))
    (outputs : list (string * AgentResponse.t))
  : t * World * result AgentResponse.t :=
  let prompt := build_prompt step context outputs in
  match transform step with
  | Some f =>
      match f (transform_input prompt context) with
      | inl e => (self, w, inl e)
      | inr prompt => ask self (role step) prompt false w
      end
  | None => ask self (role step) prompt false w
  end.

(** The loop [for i, step in enumerate(steps)], from index [i] on. It ends
    with the outputs collected and, when a step raised, the index and name
    of that step and the exception. *)
Fixpoint run_steps (i : nat) (steps : list WorkflowStep)
    (context : list (string * string)) (self : t) (w : World)
    (outputs : list (string * AgentResponse.t))
  : t * World * list (string * AgentResponse.t)
    * option (nat * string * Exception) :=
  match steps with
  | [] => (self, w, outputs, None)
  | step :: rest =>
      match run_step self w step context outputs with
      | (self, w, inl e) => (self, w, outputs, Some (i, step_name i step, e))
      | (self, w, inr response) =>
          run_steps (S i) rest context self w
                    (set_entry (step_name i step) response outputs)
      end
  end.

Definition run_workflow (self : t) (workflow_name : string)
    (context : list (string * string)) (w : World)
  : t * World * WorkflowResult :=
  match _workflows self !! workflow_name with
  | None =>
      (self, w,
       mkWorkflowResult FAILED 0 []
         ["Unknown workflow: " +:+ workflow_name] 0)
  | Some steps =>
      let '(start_time, w) := read_clock B w in
      match run_steps 0 steps context self w [] with
      | (self, w, outputs, Some (i, step_name, e)) =>
          let '(end_time, w) := read_clock B w in
          (self, w,
           mkWorkflowResult FAILED i outputs
             ["Step " +:+ step_name +:+ " failed: " +:+ exc_str e]
             (total_seconds start_time end_time))
      | (self, w, outputs, None) =>
          let '(end_time, w) := read_clock B w in
          (self, w,
           mkWorkflowResult COMPLETED (length steps) outputs []
             (total_seconds start_time end_time))
      end
  end.

Definition clear_context (self : t) (role : option Role) : t :=
  match role with
  | Some role =>
      match _agents self !! role with
      | Some agent =>
          with_agents self (<[role := clear_history agent]> (_agents self))
      | None => self
      end
  | None => with_agents self (clear_history <$> _agents self)
  end.

Definition list_workflows (self : t) : list string :=
  (map_to_list (_workflows self)).*1.

End Engine.

(** The built-in workflows. *)
Definition feature_workflow : list WorkflowStep :=
  [ mkStep BA
      ("Analyze this feature request and create user stories with acceptance criteria:"
       +:+ nl +:+ nl +:+ "{requirement}") [] None;
    mkStep SENIOR_DEV
      "Based on the requirements below, design the architecture and create a technical plan for implementation."
      ["step_0_ba"] None;
    mkStep CODER
      "Implement the feature based on the architecture and requirements provided."
      ["step_0_ba"; "step_1_senior_dev"] None;
    mkStep QA
      "Review the implementation for bugs, edge cases, and suggest test cases."
      ["step_2_coder"] None ].

Definition review_workflow : list WorkflowStep :=
  [ mkStep REVIEWER
      ("Review this code for issues, bugs, and improvements:"
       +:+ nl +:+ nl +:+ "{code}") [] None;
    mkStep SENIOR_DEV
      "Based on the review feedback, suggest how to refactor and improve this code."
      ["step_0_reviewer"] None ].

Definition bugfix_workflow : list WorkflowStep :=
  [ mkStep QA
      ("Analyze this bug report and identify the root cause:"
       +:+ nl +:+ nl +:+ "{bug_description}" +:+ nl +:+ nl +:+ "Code:"
       +:+ nl +:+ "{code}") [] None;
    mkStep SENIOR_DEV
      "Based on the QA analysis, plan the fix approach."
      ["step_0_qa"] None;
    mkStep CODER
      "Implement the bug fix based on the analysis and plan."
      ["step_0_qa"; "step_1_senior_dev"] None ].

Definition architecture_workflow : list WorkflowStep :=
  [ mkStep BA
      ("List the business requirements and constraints for:"
       +:+ nl +:+ nl +:+ "{project_description}") [] None;
    mkStep SENIOR_DEV
      "Design a comprehensive architecture considering the business requirements."
      ["step_0_ba"] None;
    mkStep QA
      "Review the architecture for potential issues, scalability concerns, and security gaps."
      ["step_1_senior_dev"] None ].

(** [Orchestrator(verbose)]: no agents yet, the built-in workflows
    registered. *)
Definition new (verbose : bool) : t :=
  let self := mk verbose ∅ ∅ in
  let self := register_workflow self "feature" feature_workflow in
  let self := register_workflow self "review" review_workflow in
  let self := register_workflow self "bugfix" bugfix_workflow in
  register_workflow self "architecture" architecture_workflow.

End Orchestrator.

(** * Vocabulary of the specification *)

(** ** Sandbox *)

(** [full] is the workspace root or lies below it. *)
Definition inside_or_equal (root full : FS.path) : Prop :=
  exists rest, full = root ++ rest.



(** The path begins with a root marker. *)
Definition has_root_marker (p : string) : bool :=
  PyStr.startswith "/" p || PyStr.startswith "\" p.

(** Where the text [q], read as a path relative to [root], leads. *)
Definition relative_location (root : FS.path) (q : string) : FS.path :=
  fold_left PyPath.resolve_step (PyPath.parts (PyPath.parse q)) root.



(** ** Line search *)

(** [enumerate(l, n)] *)
Fixpoint enumerate {A} (n : nat) (l : list A) : list (nat * A) :=
  match l with
  | [] => []
  | x :: l' => (n, x) :: enumerate (S n) l'
  end.

(** [needle] occurs in [hay] as a substring. *)
Definition occurs_in (needle hay : string) : Prop :=
  exists pre post, hay = pre +:+ needle +:+ post.






(** ** Template substitution as the specification words it

    Follows the specification's words, not the code: one pass over the
    template, left to right; where a placeholder [{key}] of a context key
    begins, the key's value is emitted and the scan resumes after the
    placeholder, so text that comes from a value is never looked at. When
    several placeholders begin at the same place, the key that comes first
    in the context is taken. *)
Fixpoint single_pass_from (context : list (string * string)) (skip : nat)
    (s : string) : string :=
  match s with
  | EmptyString => EmptyString
  | String a s' =>
      match skip with
      | S k => single_pass_from context k s'
      | O =>
          match List.find (fun kv =>
                             String.prefix (Orchestrator.placeholder (fst kv)) s)
                          context with
          | Some (key, value) =>
              value +:+ single_pass_from context
                          (String.length (Orchestrator.placeholder key) - 1) s'
          | None => String a (single_pass_from context 0 s')
          end
      end
  end.

Definition single_pass_substitute (context : list (string * string))
    (template : string) : string :=
  single_pass_from context 0 template.


(** ** Sequences of calls on one agent *)

Inductive AgentEvent :=
| ChatCall (user_message : string) (include_history : bool)
| ClearCall.

(** What a call gave back: the result of a [chat], nothing for a clear. *)
Definition Outcome : Type := option (result AgentResponse.t).

Fixpoint run_agent (B : Backend) (events : list AgentEvent)
    (self : BaseAgent) (w : World) : BaseAgent * World * list Outcome :=
  match events with
  | [] => (self, w, [])
  | ChatCall user_message include_history :: rest =>
      let '(self, w, r) := chat B self user_message include_history w in
      let '(self, w, trace) := run_agent B rest self w in
      (self, w, Some r :: trace)
  | ClearCall :: rest =>
      let '(self, w, trace) := run_agent B rest (clear_history self) w in
      (self, w, None :: trace)
  end.

(** The number of successful chats after the last clear, counting on from
    [n]. *)
Definition successes_since_clear (n : nat) (trace : list Outcome) : nat :=
  fold_left (fun n o =>
               match o with
               | None => 0
               | Some (inr _) => S n
               | Some (inl _) => n
               end) trace n.

(** [n] turns: user, assistant, user, assistant, ... *)
Fixpoint turns (n : nat) : list MessageRole :=
  match n with
  | O => []
  | S k => USER :: ASSISTANT :: turns k
  end.

(** The messages a chat sends to the provider. *)
Definition outgoing (self : BaseAgent) (user_message : string)
    (include_history : bool) : list Message.t :=
  (if include_history then conversation_history self else [])
  ++ [new_message USER user_message].

(** The number of requests sent to a provider. *)
Definition sends (l : list Call) : nat :=
  length (List.filter (fun c => match c with
                                | SendRequest _ _ => true
                                | InitializeClient _ => false
                                end) l).

(** ** Decimal digits *)

Definition is_digit (c : ascii) : bool :=
  (48 <=? nat_of_ascii c) && (nat_of_ascii c <=? 57).

Fixpoint all_digits (s : string) : bool :=
  match s with
  | EmptyString => true
  | String c s' => is_digit c && all_digits s'
  end.

(** ** Workflow runs *)

(** The names under which the steps [steps], numbered from [i], are
    recorded. *)
Definition step_names (i : nat) (steps : list Orchestrator.WorkflowStep)
  : list string :=
  List.map (fun ns => Orchestrator.step_name (fst ns) (snd ns))
           (enumerate i steps).

(** The outputs that hold exactly the responses [responses] of the steps
    [steps], numbered from [i], in step order. *)
Definition recorded (i : nat) (steps : list Orchestrator.WorkflowStep)
    (responses : list AgentResponse.t) : list (string * AgentResponse.t) :=
  combine (step_names i steps) responses.

(** Running the steps [steps], numbered from [i], one after the other
    from the orchestrator [self], the world [w] and the outputs [outputs]:
    every one of them succeeds, they answer [responses], and they leave
    the orchestrator [self'] and the world [w']. *)
Inductive steps_succeed (B : Backend) (settings : Settings)
    (configs : list (string * RoleConfig.t))
    (context : list (string * string))
  : nat -> list Orchestrator.WorkflowStep ->
    Orchestrator.t -> World -> list (string * AgentResponse.t) ->
    Orchestrator.t -> World -> list AgentResponse.t -> Prop :=
| succeed_nil i self w outputs :
    steps_succeed B settings configs context i [] self w outputs self w []
| succeed_cons i step rest self w outputs self1 w1 response
               self2 w2 responses :
    Orchestrator.run_step B settings configs self w step context outputs
    = (self1, w1, inr response) ->
    steps_succeed B settings configs context (S i) rest self1 w1
      (set_entry (Orchestrator.step_name i step) response outputs)
      self2 w2 responses ->
    steps_succeed B settings configs context i (step :: rest) self w outputs
      self2 w2 (response :: responses).

(** The block that the dependency [dep] contributes to the dependency
    context: labelled with the identifier, carrying the content of the
    response recorded under it; nothing when no response is recorded. *)
Definition dep_block (outputs : list (string * AgentResponse.t))
    (dep : string) : string :=
  match assoc dep outputs with
  | Some response =>
      Orchestrator.nl +:+ "[" +:+ dep +:+ "]:" +:+ Orchestrator.nl
      +:+ AgentResponse.content response +:+ Orchestrator.nl
  | None => ""
  end.

(** The line that opens the dependency context. *)
Definition dep_header : string :=
  Orchestrator.nl +:+ Orchestrator.nl +:+ "---" +:+ Orchestrator.nl
  +:+ "Previous outputs:" +:+ Orchestrator.nl.

(** The concatenation of a list of texts. *)
Fixpoint concat_all (l : list string) : string :=
  match l with
  | [] => EmptyString
  | x :: l' => x +:+ concat_all l'
  end.

(** ** Well-formed filesystems *)

(** No directory lists a name twice. *)
#[warning="-register-all"]
Inductive well_formed : FS.node -> Prop :=
| wf_file f : well_formed (FS.File f)
| wf_dir r es :
    List.NoDup (List.map fst es) ->
    Forall (fun e => well_formed (snd e)) es ->
    well_formed (FS.Dir r es).

(** ** Sample data *)

(** A workspace [/srv/ws] with a text file, a hidden directory and a
    subdirectory that holds a text file and a binary file. *)
Definition sample_fs : FS.node :=
  FS.Dir true
    [("srv",
      FS.Dir true
        [("ws",
          FS.Dir true
            [("notes.txt",
              FS.File (FS.mkFile ("Hello World" +:+ String FS.LF "  say HELLO again ")
                                 true true));
             (".git",
              FS.Dir true
                [("config", FS.File (FS.mkFile "hello" true true))]);
             ("src",
              FS.Dir true
                [("main.py", FS.File (FS.mkFile "print(1)" true true));
                 ("logo.png", FS.File (FS.mkFile "hello" false true))])])])].

(** A pattern matcher that accepts every file name, as the pattern [*]
    does. *)
Definition match_all (filename pattern : string) : bool := true.

Definition sample_response (text : string) : AgentResponse.t :=
  AgentResponse.mk text "sample-model" "sample"
                   [("input_tokens", 1%Z); ("output_tokens", 2%Z);
                    ("total_tokens", 3%Z)]
                   (Some "stop").

(** A provider that answers until [failing_from] calls have been made and
    fails from then on; the clock advances one second per reading. *)
Definition sample_backend (failing_from : nat) : Backend :=
  mkBackend
    (fun _ a => inr (SdkClient (agent_class a)))
    (fun log _ _ =>
       if length log <? failing_from
       then inr (sample_response ("answer " +:+ pretty (length log)))
       else inl (mkExc (OtherError "APIError") "connection reset"))
    (fun n => (Z.of_nat n * 1000000)%Z).

Definition sample_agent : BaseAgent :=
  new_agent OPENAI "gpt-4o" "You are helpful." 4096 (7 # 10).

Definition empty_world : World := mkWorld [] 0.



(** * Further vocabulary *)

(** The number of times a provider client was set up. *)
Definition inits (l : list Call) : nat :=
  length (List.filter (fun c => match c with
                                | InitializeClient _ => true
                                | SendRequest _ _ => false
                                end) l).

(** A request is a conversation of user and assistant turns followed by
    the new user message. *)
Definition conversation_request (messages : list Message.t) : Prop :=
  exists k, List.map Message.role messages = turns k ++ [USER].

(** Every request among the calls is such a conversation. *)
Definition requests_are_conversations (l : list Call) : Prop :=
  Forall (fun c => match c with
                   | SendRequest _ messages => conversation_request messages
                   | InitializeClient _ => True
                   end) l.

(** Every request among the calls is one user message and nothing else. *)
Definition requests_are_single_prompts (l : list Call) : Prop :=
  Forall (fun c => match c with
                   | SendRequest _ messages =>
                       exists prompt, messages = [new_message USER prompt]
                   | InitializeClient _ => True
                   end) l.

(** Two agents differ at most in their history and their client handle. *)
Definition same_configuration (a b : BaseAgent) : Prop :=
  agent_class a = agent_class b
  /\ model a = model b
  /\ system_prompt a = system_prompt b
  /\ max_tokens a = max_tokens b
  /\ temperature a = temperature b.


(** * Further embedded code *)

(** ** The role registry ([roles/base.py]) *)

Module Roles.

(** [register_role(role_key, config)] on the registry [_ROLE_CONFIGS]. *)
Definition register_role (role_key : string) (config : RoleConfig.t)
    (registry : list (string * RoleConfig.t)) : list (string * RoleConfig.t) :=
  set_entry role_key config registry.

(** [get_role_config(role)] for a role given as a string key. The lazy
    import of the role modules does nothing here: importing [roles.base]
    runs the package's [__init__], which has imported every role module
    already. A [RoleConfig] is never falsy. *)
Definition get_role_config (registry : list (string * RoleConfig.t))
    (role_key : string) : result RoleConfig.t :=
  match assoc role_key registry with
  | Some config => inr config
  | None => inl (mkExc ValueError ("Unknown role: " +:+ role_key))
  end.

End Roles.


(** ** Vocabulary for the effects of the file store *)

(** Two paths part ways: at some depth they name different entries, so
    neither is the other or one of its ancestors. *)
Fixpoint diverges (q p : FS.path) : bool :=
  match q, p with
  | x :: q', y :: p' => if String.eqb x y then diverges q' p' else true
  | _, _ => false
  end.

(** A text without carriage returns. *)
Definition no_carriage_return (s : string) : Prop :=
  FS.has_char FS.CR s = false.


(** What opening a file for writing ([append = false]) or appending does
    to the entry at its path: [FS.open_write] is this update applied at
    the path. *)
Definition write_update (append : bool) (p : FS.path) (content : string)
    (old : option FS.node) : result (option FS.node) :=
  match old with
  | Some (FS.Dir _ _) => inl (FS.os_error IsADirectoryError p)
  | Some (FS.File f) =>
      inr (Some (FS.File {| FS.f_data := if append
                                         then FS.f_data f +:+ content
                                         else content;
                            FS.f_utf8 := if append then FS.f_utf8 f else true;
                            FS.f_readable := FS.f_readable f |}))
  | None =>
      inr (Some (FS.File {| FS.f_data := content; FS.f_utf8 := true;
                            FS.f_readable := true |}))
  end.


(** ** Vocabulary for the listings *)

(** [a] does not come after [b] in the order of [sorted] (code points,
    then length). *)
Definition not_after (a b : string) : Prop := String.ltb b a = false.

(** The pruned walk that starts at [n] reaches the directory at [rest]
    below it: every directory on the way, [n] and the directory itself
    included, can be listed, and no name on the way starts with a dot. *)
Fixpoint walked (n : FS.node) (rest : FS.path) : bool :=
  match n with
  | FS.Dir true es =>
      match rest with
      | [] => true
      | x :: rest' =>
          negb (FS.hidden x)
          && match assoc x es with
             | Some c => walked c rest'
             | None => false
             end
      end
  | _ => false
  end.

(** The entry that [list_directory] reports for the node [c] found under
    the name [name] in the directory at [rest] below the workspace root. *)
Definition entry_info (rest : FS.path) (name : string) (c : FS.node)
  : FileSystemTools.FileInfo :=
  FileSystemTools.mkFileInfo
    (PyPath.str_rel (rest ++ [name])) name (FS.is_dir_node c)
    (match c with
     | FS.File f => String.length (FS.f_data f)
     | FS.Dir _ _ => 0
     end).


(** ** Projects ([mcp_filesystem.py], project operations)

    [create_project] with its three templates and [list_projects].
    [delete_project] removes a tree with [shutil.rmtree], whose partial
    effect when it fails half-way is not modelled, and [get_tree] draws
    with characters outside ASCII; both are left out. *)

Module ProjectTools.

Import FS FileSystemTools.

(** [p.mkdir(parents=True)] and [p.mkdir()]: an entry at [p] is an error,
    whatever it is. Without [parents] the parent must exist. *)
Definition mkdir_new (parents : bool) (p : path) : IO unit :=
  writing (fun fs =>
    if parents then
      match lookup fs p with
      | Some _ => inl (os_error FileExistsError p)
      | None => mkdir_node p p fs
      end
    else
      at_path p p (fun old =>
        match old with
        | Some _ => inl (os_error FileExistsError p)
        | None => inr (Some (Dir true []))
        end) fs).

Definition dq : string := String dquote EmptyString.
Definition bs : string := String backslash EmptyString.

Section Store.

Variable workspace_root : path.

Definition _apply_basic_template (path : path) (name : string) : IO unit :=
  _ <- write_text (path ++ ["README.md"])
         ("# " +:+ name +:+ "

Project created by CLAI.
") ;;
  write_text (path ++ [".gitignore"])
    "# Created by CLAI
*.pyc
__pycache__/
.env
".

Definition _apply_python_template (path : path) (name : string) : IO unit :=
  _ <- _apply_basic_template path name ;;
  let src_dir := path ++ ["src"] in
  _ <- mkdir_new false src_dir ;;
  _ <- write_text (src_dir ++ ["__init__.py"])
         (dq +:+ dq +:+ dq +:+ name +:+ " package." +:+ dq +:+ dq +:+ dq +:+ "
") ;;
  _ <- write_text (src_dir ++ ["main.py"])
         (dq +:+ dq +:+ dq +:+ "Main entry point." +:+ dq +:+ dq +:+ dq +:+ "


def main():
    print(" +:+ dq +:+ "Hello from CLAI!" +:+ dq +:+ ")


if __name__ == " +:+ dq +:+ "__main__" +:+ dq +:+ ":
    main()
") ;;
  let tests_dir := path ++ ["tests"] in
  _ <- mkdir_new false tests_dir ;;
  _ <- write_text (tests_dir ++ ["__init__.py"]) EmptyString ;;
  _ <- write_text (tests_dir ++ ["test_main.py"])
         (dq +:+ dq +:+ dq +:+ "Tests for main module." +:+ dq +:+ dq +:+ dq +:+ "


def test_placeholder():
    assert True
") ;;
  _ <- write_text (path ++ ["requirements.txt"]) "# Dependencies
" ;;
  write_text (path ++ [".gitignore"])
    "# Python
*.pyc
__pycache__/
*.egg-info/
dist/
build/
.eggs/

# Virtual env
venv/
.venv/
env/

# IDE
.idea/
.vscode/
*.swp

# Environment
.env
.env.local
".

Definition _apply_node_template (path : path) (name : string) : IO unit :=
  _ <- _apply_basic_template path name ;;
  let package_json :=
    "{
  " +:+ dq +:+ "name" +:+ dq +:+ ": " +:+ dq +:+ name +:+ dq +:+ ",
  " +:+ dq +:+ "version" +:+ dq +:+ ": " +:+ dq +:+ "1.0.0" +:+ dq +:+ ",
  " +:+ dq +:+ "description" +:+ dq +:+ ": " +:+ dq +:+ "Created by CLAI" +:+ dq +:+ ",
  " +:+ dq +:+ "main" +:+ dq +:+ ": " +:+ dq +:+ "src/index.js" +:+ dq +:+ ",
  " +:+ dq +:+ "scripts" +:+ dq +:+ ": {
    " +:+ dq +:+ "start" +:+ dq +:+ ": " +:+ dq +:+ "node src/index.js" +:+ dq +:+ ",
    " +:+ dq +:+ "test" +:+ dq +:+ ": " +:+ dq +:+ "echo " +:+ bs +:+ dq +:+ "No tests yet" +:+ bs +:+ dq +:+ dq +:+ "
  }
}
" in
  _ <- write_text (path ++ ["package.json"]) package_json ;;
  let src_dir := path ++ ["src"] in
  _ <- mkdir_new false src_dir ;;
  _ <- write_text (src_dir ++ ["index.js"])
         ("console.log(" +:+ dq +:+ "Hello from CLAI!" +:+ dq +:+ ");
") ;;
  write_text (path ++ [".gitignore"])
    "# Node
node_modules/
*.log

# Build
dist/
build/

# Environment
.env
.env.local
".

(** The default of [template] is ["basic"]; a template name that is none
    of the three creates the directory alone. *)
Definition create_project (project_name template : string)
  : node -> node * OperationResult :=
  try_except
    (project_path <- lift (_resolve_path workspace_root project_name) ;;
     ex <- exists_ project_path ;;
     if ex then
       ret (failed ("Project '" +:+ project_name +:+ "' already exists"))
     else
     _ <- mkdir_new true project_path ;;
     _ <- (if String.eqb template "python" then
             _apply_python_template project_path project_name
           else if String.eqb template "node" then
             _apply_node_template project_path project_name
           else if String.eqb template "basic" then
             _apply_basic_template project_path project_name
           else ret tt) ;;
     ret (mkOperationResult true
            ("Created project '" +:+ project_name +:+ "' at "
             +:+ PyPath.str_abs project_path)
            (Some (PyPath.str_abs project_path))))
    (fun e => failed (exc_str e)).

(** [list_projects()]: there is no [try] around it, an exception of the
    directory scan reaches the caller. *)
Definition list_projects : IO (list string) :=
  names <- iterdir workspace_root ;;
  projects <-
    for_each names []
      (fun name projects =>
         d <- is_dir (workspace_root ++ [name]) ;;
         if d && negb (PyStr.startswith "." name)
         then ret (projects ++ [name]) else ret projects) ;;
  ret (sorted projects).

End Store.

End ProjectTools.


(** ** Vocabulary for the project operations *)

(** The tree [n] with the node at [p] replaced by [d]; [n] itself when
    nothing sits at [p]. *)
Fixpoint plug (n : FS.node) (p : FS.path) (d : FS.node) : FS.node :=
  match p with
  | [] => d
  | x :: p' =>
      match n with
      | FS.File _ => n
      | FS.Dir r es =>
          match assoc x es with
          | Some c => FS.Dir r (set_entry x (plug c p' d) es)
          | None => n
          end
      end
  end.

(** A regular file as [write_text] creates it. *)
Definition text_file (content : string) : FS.node :=
  FS.File (FS.mkFile content true true).


(** ** The provider adapters ([agents/claude_agent.py],
    [agents/gpt_agent.py], [agents/gemini_agent.py])

    Each [_send_request] builds the arguments of one SDK call from the
    agent and the canonical messages, makes the call, and normalises the
    answer. The SDK call is a parameter; what it raises is raised by
    [_send_request]. The Gemini client receives the model name, the
    token limit, the temperature and the system prompt when it is set up
    by [_initialize_client], which is not embedded. *)

(** [role.value] of a [MessageRole] *)
Definition message_role_value (r : MessageRole) : string :=
  match r with
  | SYSTEM => "system"
  | USER => "user"
  | ASSISTANT => "assistant"
  end.

Definition is_system (msg : Message.t) : bool :=
  match Message.role msg with SYSTEM => true | _ => false end.

(** [s.endswith(suffix)] *)
Fixpoint endswith (suffix s : string) : bool :=
  String.eqb s suffix
  || match s with
     | String _ s' => endswith suffix s'
     | EmptyString => false
     end.

(** Truthiness of a string. *)
Definition nonempty (s : string) : bool := negb (String.eqb s "").

Module ClaudeAgent.

(** The keyword arguments of [messages.create]; a key that the code
    leaves out is [None]. *)
Record Request := mkRequest {
  req_model : string;
  req_max_tokens : Z;
  req_messages : list (string * string);      (* role, content *)
  req_temperature : option Q;
  req_system : option string
}.

Record Block := mkBlock { block_type : string; block_text : string }.

Record Response := mkResponse {
  resp_content : list Block;
  resp_model : string;
  input_tokens : Z;
  output_tokens : Z;
  stop_reason : option string
}.

Definition provider_name : string := "anthropic".

Definition request_params (self : BaseAgent) (messages : list Message.t)
  : Request :=
  let anthropic_messages :=
    List.map (fun msg => (message_role_value (Message.role msg),
                          Message.content msg))
             (List.filter (fun msg => negb (is_system msg)) messages) in
  mkRequest (model self) (max_tokens self) anthropic_messages
            (if negb (endswith "-thinking" (model self))
             then Some (temperature self) else None)
            (if nonempty (system_prompt self)
             then Some (system_prompt self) else None).

(** The loop [for block in response.content] *)
Definition text_of (blocks : list Block) : string :=
  fold_left (fun content block =>
               if String.eqb (block_type block) "text"
               then content +:+ block_text block else content)
            blocks EmptyString.

Definition _send_request (messages_create : Request -> result Response)
    (self : BaseAgent) (messages : list Message.t)
  : result AgentResponse.t :=
  match messages_create (request_params self messages) with
  | inl e => inl e
  | inr response =>
      inr (AgentResponse.mk
             (text_of (resp_content response))
             (resp_model response)
             provider_name
             [("input_tokens", input_tokens response);
              ("output_tokens", output_tokens response);
              ("total_tokens",
               (input_tokens response + output_tokens response)%Z)]
             (stop_reason response))
  end.

End ClaudeAgent.

Module GPTAgent.

Record Request := mkRequest {
  req_model : string;
  req_max_completion_tokens : Z;
  req_temperature : Q;
  req_messages : list (string * string)
}.

Record Choice := mkChoice {
  message_content : option string;
  choice_finish_reason : option string
}.

Record Usage := mkUsage {
  prompt_tokens : Z;
  completion_tokens : Z;
  usage_total_tokens : Z
}.

Record Response := mkResponse {
  choices : list Choice;
  resp_model : string;
  resp_usage : option Usage
}.

Definition provider_name : string := "openai".

Definition request_params (self : BaseAgent) (messages : list Message.t)
  : Request :=
  let openai_messages :=
    (if nonempty (system_prompt self)
     then [("system", system_prompt self)] else [])
    ++ List.map (fun msg => (message_role_value (Message.role msg),
                             Message.content msg))
                (List.filter (fun msg => negb (is_system msg)) messages) in
  mkRequest (model self) (max_tokens self) (temperature self)
            openai_messages.

Definition _send_request (completions_create : Request -> result Response)
    (self : BaseAgent) (messages : list Message.t)
  : result AgentResponse.t :=
  match completions_create (request_params self messages) with
  | inl e => inl e
  | inr response =>
      match choices response with
      | [] => inl (mkExc (OtherError "IndexError") "list index out of range")
      | choice :: _ =>
          (* [choice.message.content or ""] *)
          let content :=
            match message_content choice with
            | Some text => text
            | None => EmptyString
            end in
          let usage :=
            match resp_usage response with
            | Some u => [("input_tokens", prompt_tokens u);
                         ("output_tokens", completion_tokens u);
                         ("total_tokens", usage_total_tokens u)]
            | None => []
            end in
          inr (AgentResponse.mk content (resp_model response) provider_name
                                usage (choice_finish_reason choice))
      end
  end.

End GPTAgent.

Module GeminiAgent.

(** The arguments of [start_chat] and of [send_message]. An entry of the
    history is a role and its list of parts. *)
Record Request := mkRequest {
  req_history : list (string * list string);
  req_last_message : string
}.

(** [usage_metadata]: a count that the object does not carry reads as 0. *)
Record UsageMetadata := mkUsageMetadata {
  prompt_token_count : option Z;
  candidates_token_count : option Z;
  total_token_count : option Z
}.

(** [response.text] is read after the call; what reading it raises is
    part of what the call raises here. *)
Record Response := mkResponse {
  resp_text : string;
  usage_metadata : option UsageMetadata
}.

Definition provider_name : string := "google".

Definition request_params (messages : list Message.t) : Request :=
  let gemini_history :=
    List.map (fun msg =>
                (match Message.role msg with
                 | USER => "user"
                 | _ => "model"
                 end,
                 [Message.content msg]))
             (removelast messages) in
  mkRequest gemini_history
            (match last messages with
             | Some msg => Message.content msg
             | None => EmptyString
             end).

Definition _send_request (send : Request -> result Response)
    (self : BaseAgent) (messages : list Message.t)
  : result AgentResponse.t :=
  match send (request_params messages) with
  | inl e => inl e
  | inr response =>
      let usage :=
        match usage_metadata response with
        | Some u => [("input_tokens", default 0%Z (prompt_token_count u));
                     ("output_tokens",
                      default 0%Z (candidates_token_count u));
                     ("total_tokens", default 0%Z (total_token_count u))]
        | None => []
        end in
      inr (AgentResponse.mk (resp_text response) (model self) provider_name
                            usage (Some "stop"))
  end.

End GeminiAgent.


(** ** Mentions of the interactive shell ([shell.py])

    The parsing and routing of [handle_mention] and the team query. What
    is printed is left out, and the loader of the file named after [<] is
    a parameter. Text is ASCII, so that matching with [re.IGNORECASE] is
    matching of the lowercased text. *)

Module Shell.

Definition MENTION_ALIASES : list (string * Role) :=
  [("@senior", SENIOR_DEV);
   ("@seniordev", SENIOR_DEV);
   ("@architect", SENIOR_DEV);
   ("@lead", SENIOR_DEV);
   ("@tech", SENIOR_DEV);
   ("@dev", CODER);
   ("@coder", CODER);
   ("@dev1", CODER);
   ("@developer", CODER);
   ("@code", CODER);
   ("@dev2", CODER_2);
   ("@coder2", CODER_2);
   ("@gemini", CODER_2);
   ("@qa", QA);
   ("@test", QA);
   ("@tester", QA);
   ("@quality", QA);
   ("@bug", QA);
   ("@ba", BA);
   ("@analyst", BA);
   ("@specs", BA);
   ("@reqs", BA);
   ("@reviewer", REVIEWER);
   ("@review", REVIEWER);
   ("@cr", REVIEWER)].

Definition TEAM_MENTIONS : list string :=
  ["@team"; "@all"; "@devteam"; "@everyone"].

(** [re.sub(re.escape(mention), "", s, flags=re.IGNORECASE)]: the
    occurrences of [mention], in any case, are removed, left to right and
    without overlap. [skip] counts the characters of a matched occurrence
    that are still to be dropped. *)
Fixpoint remove_from (mention : string) (skip : nat) (s : string) : string :=
  match s with
  | EmptyString => EmptyString
  | String a s' =>
      match skip with
      | S k => remove_from mention k s'
      | O =>
          if String.prefix (PyStr.lower mention) (PyStr.lower s) then
            match mention with
            | EmptyString => String a (remove_from mention 0 s')
            | _ => remove_from mention (String.length mention - 1) s'
            end
          else String a (remove_from mention 0 s')
      end
  end.

Definition remove_mention (mention s : string) : string :=
  remove_from mention 0 s.

(** Where [handle_mention] sends the prompt. *)
Inductive Routed :=
| QueryTeam (prompt_text : string)
| QueryAgent (role : Role) (prompt_text : string) (save_to : option string)
| NothingToAsk
| NoMention.

Section Mention.

(** [self._load_file_context] *)
Variable _load_file_context : string -> string.

Definition handle_mention (user_input : string) : Routed :=
  (* Step 1: output redirect *)
  let '(user_input, save_to) :=
    if PyStr.contains ">" user_input then
      let parts := PyStr.split ">" user_input in
      (PyStr.strip (nth 0 parts EmptyString),
       Some (PyStr.strip (nth 1 parts EmptyString)))
    else (user_input, None) in
  (* Step 2: input file *)
  let '(user_input, file_context) :=
    if PyStr.contains "<" user_input then
      let parts := PyStr.split "<" user_input in
      (PyStr.strip (nth 0 parts EmptyString),
       _load_file_context (PyStr.strip (nth 1 parts EmptyString)))
    else (user_input, EmptyString) in
  (* Step 3: the mentions, in the order of the table *)
  let '(user_input, mentions_found) :=
    fold_left
      (fun (state : string * list (string * Role)) entry =>
         let '(user_input, mentions_found) := state in
         let '(mention, role) := entry in
         if PyStr.contains mention (PyStr.lower user_input) then
           (remove_mention mention user_input,
            mentions_found ++ [(mention, role)])
         else state)
      MENTION_ALIASES (user_input, []) in
  (* Step 4: team mentions *)
  let is_team_query :=
    existsb (fun tm => PyStr.contains tm (PyStr.lower user_input))
            TEAM_MENTIONS in
  let user_input :=
    if is_team_query then
      fold_left (fun user_input tm => remove_mention tm user_input)
                TEAM_MENTIONS user_input
    else user_input in
  (* Step 5: the prompt *)
  let prompt_text := PyStr.strip user_input +:+ file_context in
  if String.eqb (PyStr.strip prompt_text) EmptyString then NothingToAsk
  else
  (* Step 6: the route *)
  if is_team_query then QueryTeam prompt_text
  else
    match mentions_found with
    | (_, role) :: _ => QueryAgent role prompt_text save_to
    | [] => NoMention
    end.

End Mention.

Section Team.

Variable B : Backend.
Variable settings : Settings.
Variable role_configs : list (string * RoleConfig.t).

(** The loop of [_query_team]: every member is asked, and what a member
    raises is caught and shown before the next one is asked. The outcome
    of each member is what the shell shows for it. *)
Fixpoint query_loop (self : Orchestrator.t) (prompt_text : string)
    (roles : list Role) (w : World)
  : Orchestrator.t * World * list (Role * result AgentResponse.t) :=
  match roles with
  | [] => (self, w, [])
  | role :: rest =>
      let '(self, w, outcome) :=
        Orchestrator.ask B settings role_configs self role prompt_text false
                         w in
      let '(self, w, outcomes) := query_loop self prompt_text rest w in
      (self, w, (role, outcome) :: outcomes)
  end.

Definition _query_team (self : Orchestrator.t) (prompt_text : string)
    (w : World)
  : Orchestrator.t * World * list (Role * result AgentResponse.t) :=
  query_loop self prompt_text [SENIOR_DEV; CODER; QA; BA] w.

End Team.

End Shell.


(** ** Vocabulary for the mentions *)

(** The text in which [handle_mention] looks for mentions: what stands
    before the first [>] and, in that, before the first [<], stripped. *)
Definition addressed_text (user_input : string) : string :=
  let before_redirect :=
    if PyStr.contains ">" user_input
    then PyStr.strip (nth 0 (PyStr.split ">" user_input) EmptyString)
    else user_input in
  if PyStr.contains "<" before_redirect
  then PyStr.strip (nth 0 (PyStr.split "<" before_redirect) EmptyString)
  else before_redirect.

(** The mention occurs in the text, in any case. *)
Definition mentioned (mention text : string) : bool :=
  PyStr.contains mention (PyStr.lower text).

(** * Properties *)

(** ** Strings and paths *)

Section PathFacts.

Import PyStr PyPath.

Lemma relative_to_Some (full root rest : list string) :
  relative_to full root = Some rest <-> full = root ++ rest.
Proof.
  revert full. induction root as [|r root IH]; intros full; simpl.
  - split; [intros [= ->]; reflexivity | intros ->; reflexivity].
  - destruct full as [|f full].
    + split; [discriminate | intros [=]].
    + destruct (String.eqb_spec r f) as [->|Hne].
      * rewrite IH. split; [intros ->; reflexivity | intros [= ->]; reflexivity].
      * split; [discriminate | intros [= E _]; congruence].
Qed.







End PathFacts.

(** ** C1: the sandbox check *)

Section Sandbox.

Import FS FileSystemTools.

Variable workspace_root : path.

Lemma resolve_path_inside (p : string) (full : path) :
  _resolve_path workspace_root p = inr full ->
  inside_or_equal workspace_root full.
Proof.
  unfold _resolve_path.
  destruct (PyPath.relative_to _ workspace_root) as [rest|] eqn:E;
    [| discriminate].
  intros [= <-]. exists rest. apply (proj1 (relative_to_Some _ _ _)). exact E.
Qed.

Lemma resolve_path_error (p : string) (e : Exception) :
  _resolve_path workspace_root p = inl e -> e = escape_error p.
Proof.
  unfold _resolve_path.
  destruct (PyPath.relative_to _ workspace_root); [discriminate |].
  intros [= <-]. reflexivity.
Qed.

End Sandbox.

Section SandboxOperations.

Import FS FileSystemTools.

Variable workspace_root : path.

(** An operation whose path is rejected answers from the path alone and
    leaves the filesystem as it was. *)
Lemma rejected_operations (p : string) (e : Exception) (fs : node) :
  _resolve_path workspace_root p = inl e ->
  read_file workspace_root p fs = (fs, failed (exc_str e))
  /\ (forall content,
        write_file workspace_root p content fs = (fs, failed (exc_str e)))
  /\ (forall content,
        append_file workspace_root p content fs = (fs, failed (exc_str e)))
  /\ delete_file workspace_root p fs = (fs, failed (exc_str e))
  /\ create_directory workspace_root p fs = (fs, failed (exc_str e)).
Proof.
  intros H.
  unfold read_file, write_file, append_file, delete_file, create_directory,
    try_except, bind, lift.
  rewrite H.
  assert (exc_class e = ValueError) as Hc
    by (rewrite (resolve_path_error _ _ _ H); reflexivity).
  rewrite Hc. repeat split; reflexivity.
Qed.

Lemma rejected_listings (fnmatch : string -> string -> bool)
    (p : string) (e : Exception) (fs : node) :
  _resolve_path workspace_root p = inl e ->
  list_directory workspace_root p fs = (fs, [])
  /\ (forall pattern,
        search_files workspace_root fnmatch pattern p fs = (fs, []))
  /\ (forall search_term file_pattern,
        grep workspace_root fnmatch search_term p file_pattern fs = (fs, [])).
Proof.
  intros H.
  unfold list_directory, search_files, grep, grep_body, try_except, bind,
    lift.
  rewrite H. repeat split; reflexivity.
Qed.


End SandboxOperations.




(** A leading backslash followed by a slash leaves an absolute path after
    cleaning: it is then read from the filesystem root, not from the
    workspace root. *)
Example backslash_slash_is_absolute :
  has_root_marker "\/srv/ws/a" = true
  /\ FileSystemTools._resolve_path ["srv"; "ws"] "\/srv/ws/a"
     = inr ["srv"; "ws"; "a"]
  /\ relative_location ["srv"; "ws"] "srv/ws/a"
     = ["srv"; "ws"; "srv"; "ws"; "a"]
  /\ FileSystemTools._resolve_path ["srv"; "ws"] "\/etc/passwd"
     = inl (FileSystemTools.escape_error "\/etc/passwd").
Proof. repeat split; reflexivity. Qed.

(** ** C10: the listing operations swallow errors *)

(** C10. When the path is rejected by the sandbox check, [list_directory],
    [search_files] and [grep] return the empty list and leave the
    filesystem untouched, where [read_file] returns a failure result
    carrying the sandbox message; and another internal error, here the
    [PermissionError] of listing an unreadable directory, also makes
    [list_directory] return the empty list. *)
Theorem listings_swallow_errors (root : FS.path)
    (fnmatch : string -> string -> bool) (p : string) (fs : FS.node) :
  (forall e,
     FileSystemTools._resolve_path root p = inl e ->
     FileSystemTools.list_directory root p fs = (fs, [])
     /\ (forall pattern,
           FileSystemTools.search_files root fnmatch pattern p fs = (fs, []))
     /\ (forall search_term file_pattern,
           FileSystemTools.grep root fnmatch search_term p file_pattern fs
           = (fs, []))
     /\ FileSystemTools.read_file root p fs
        = (fs, FileSystemTools.mkOperationResult false
                 ("Path '" +:+ p +:+ "' escapes workspace sandbox") None))
  /\ (forall full entries,
        FileSystemTools._resolve_path root p = inr full ->
        FS.lookup fs full = Some (FS.Dir false entries) ->
        FileSystemTools.list_directory root p fs = (fs, [])).
Proof.
  split.
  - intros e H.
    destruct (rejected_listings root fnmatch p e fs H) as (H1 & H2 & H3).
    destruct (rejected_operations root p e fs H) as (H4 & _).
    rewrite (resolve_path_error root p e H) in H4.
    repeat split; assumption.
  - intros full entries H Hdir.
    unfold FileSystemTools.list_directory, FS.try_except, FS.bind, FS.lift.
    rewrite H.
    unfold FS.exists_, FS.is_dir, FS.iterdir, FS.reading.
    rewrite Hdir.
    rewrite bool_decide_eq_true_2 by (eexists; reflexivity).
    cbn. rewrite Hdir. cbn. rewrite Hdir. reflexivity.
Qed.

Lemma listings_swallow_errors_witness :
  FileSystemTools.list_directory ["srv"; "ws"] "../../etc"
    (FS.Dir true [("etc", FS.Dir true [])])
  = (FS.Dir true [("etc", FS.Dir true [])], []).
Proof.
  destruct (listings_swallow_errors ["srv"; "ws"] (fun _ _ => true)
              "../../etc" (FS.Dir true [("etc", FS.Dir true [])]))
    as (H & _).
  destruct (H (FileSystemTools.escape_error "../../etc")) as (H1 & _).
  - reflexivity.
  - exact H1.
Defined.

(** ** C9: the line search of [grep] *)

Section SubstringFacts.

Import PyStr.

Lemma prefix_iff (p s : string) :
  String.prefix p s = true <-> exists t, s = p +:+ t.
Proof.
  revert s. induction p as [|a p IH]; intros s.
  - split; [intros _; exists s; reflexivity | destruct s; reflexivity].
  - destruct s as [|b s]; simpl.
    + split; [discriminate | intros (t & [=])].
    + destruct (ascii_dec a b) as [->|Hne].
      * rewrite IH. split; intros (t & H); exists t.
        -- simpl. rewrite H. reflexivity.
        -- simpl in H. injection H as H. exact H.
      * split; [discriminate | intros (t & [= E _]); congruence].
Qed.

Lemma contains_iff (needle hay : string) :
  contains needle hay = true <-> occurs_in needle hay.
Proof.
  unfold occurs_in. induction hay as [|a hay IH].
  - cbn [contains]. rewrite orb_false_r, prefix_iff. split.
    + intros (t & H). exists "", t. exact H.
    + intros (pre & post & H). destruct pre; [| discriminate].
      exists post. exact H.
  - cbn [contains]. rewrite orb_true_iff, IH, prefix_iff. split.
    + intros [(t & H) | (pre & post & H)].
      * exists "", t. exact H.
      * exists (String a pre), post. simpl. rewrite H. reflexivity.
    + intros (pre & post & H). destruct pre as [|b pre].
      * left. exists post. exact H.
      * right. injection H as _ H. exists pre, post. exact H.
Qed.

End SubstringFacts.



Section GrepFacts.

Import FS FileSystemTools.

Variable workspace_root : path.
Variable fnmatch : string -> string -> bool.




(** A loop whose body only reads the filesystem and only appends to the
    accumulator: what it appends is what its rounds append. *)
Lemma for_each_collect {A} (P : A -> string -> Prop)
    (body : A -> list string -> IO (list string)) (fs : node) :
  (forall x acc fs' acc',
     body x acc fs = (fs', inr acc') ->
     fs' = fs /\ exists new, acc' = acc ++ new /\ forall m, In m new <-> P x m) ->
  forall l acc fs' res,
    for_each l acc body fs = (fs', inr res) ->
    fs' = fs
    /\ exists new, res = acc ++ new
                   /\ forall m, In m new <-> exists x, In x l /\ P x m.
Proof.
  intros Hbody. induction l as [|x l IH]; intros acc fs' res.
  - simpl. unfold ret. intros [= <- <-]. split; [reflexivity |].
    exists []. split; [symmetry; apply app_nil_r |].
    intros m. split; [intros [] | intros (x & [] & _)].
  - cbn [for_each]. unfold bind at 1.
    destruct (body x acc fs) as [fs1 [e | acc1]] eqn:E; [discriminate |].
    destruct (Hbody x acc fs1 acc1 E) as (-> & new1 & -> & H1).
    intros H. destruct (IH _ _ _ H) as (-> & new2 & -> & H2).
    split; [reflexivity |].
    exists (new1 ++ new2). split; [symmetry; apply app_assoc |].
    intros m. rewrite in_app_iff, H1, H2. split.
    + intros [Hp | (y & Hy & Hp)].
      * exists x. split; [left; reflexivity | exact Hp].
      * exists y. split; [right; exact Hy | exact Hp].
    + intros (y & [<- | Hy] & Hp); [left; exact Hp |].
      right. exists y. split; assumption.
Qed.


End GrepFacts.


(** ** C2: template substitution *)

Section ReplaceFacts.

Import PyStr.

Lemma replace_from_skip (old new t post : string) :
  replace_from old new (String.length t) (t +:+ post)
  = replace_from old new 0 post.
Proof.
  induction t as [|c t IH]; simpl.
  - destruct post; reflexivity.
  - exact IH.
Qed.

Lemma prefix_app (p s : string) : String.prefix p (p +:+ s) = true.
Proof. apply prefix_iff. exists s. reflexivity. Qed.

(** The first occurrence of a non-empty [old] that begins with [c] cannot
    begin inside text without [c]; it is replaced by [new], and the scan
    goes on after it, not inside [new]. *)
Lemma replace_first (c : ascii) (old' new pre post : string) :
  ~ In c (list_ascii_of_string pre) ->
  replace (pre +:+ String c old' +:+ post) (String c old') new
  = pre +:+ new +:+ replace post (String c old') new.
Proof.
  intros Hpre. unfold replace. induction pre as [|a pre IH].
  - change ("" +:+ String c old' +:+ post)
      with (String c (old' +:+ post)).
    cbn [replace_from].
    change (String c (old' +:+ post)) with (String c old' +:+ post).
    rewrite prefix_app.
    replace (String.length (String c old') - 1) with (String.length old')
      by (simpl; lia).
    rewrite replace_from_skip. reflexivity.
  - change (String a pre +:+ String c old' +:+ post)
      with (String a (pre +:+ String c old' +:+ post)).
    cbn [replace_from].
    assert (String.prefix (String c old')
                          (String a (pre +:+ String c old' +:+ post)) = false)
      as ->.
    { simpl. destruct (ascii_dec c a) as [->|]; [| reflexivity].
      exfalso. apply Hpre. left. reflexivity. }
    rewrite IH by (intros H; apply Hpre; right; exact H).
    reflexivity.
Qed.

End ReplaceFacts.

Lemma single_pass_one_key (key value s : string) (skip : nat) :
  single_pass_from [(key, value)] skip s
  = PyStr.replace_from (Orchestrator.placeholder key) value skip s.
Proof.
  revert skip. induction s as [|a s IH]; intros skip.
  - reflexivity.
  - destruct skip as [|k]; cbn [single_pass_from PyStr.replace_from].
    + cbn [List.find fst].
      destruct (String.prefix (Orchestrator.placeholder key) (String a s)).
      * rewrite IH. reflexivity.
      * rewrite IH. reflexivity.
    + apply IH.
Qed.

(** C2, as amended. Prompt assembly makes one replacement pass per context
    key, in the order of the context, each pass working on the result of
    the pass before; within a pass every occurrence of the placeholder is
    replaced by the literal value and the inserted value is not scanned
    again; with a single context key this is the single non-recursive pass
    of the specification; and the context [{"requirement": "X"}] applied
    to ["Analyze {requirement} now"] yields exactly ["Analyze X now"]. *)
Theorem substitute_one_pass_per_key :
  (forall key value context prompt,
     Orchestrator.substitute ((key, value) :: context) prompt
     = Orchestrator.substitute context
         (PyStr.replace prompt (Orchestrator.placeholder key) value))
  /\ (forall key value pre post,
        ~ In "{"%char (list_ascii_of_string pre) ->
        PyStr.replace (pre +:+ Orchestrator.placeholder key +:+ post)
                      (Orchestrator.placeholder key) value
        = pre +:+ value
          +:+ PyStr.replace post (Orchestrator.placeholder key) value)
  /\ (forall key value prompt,
        Orchestrator.substitute [(key, value)] prompt
        = single_pass_substitute [(key, value)] prompt)
  /\ Orchestrator.substitute [("requirement", "X")] "Analyze {requirement} now"
     = "Analyze X now".
Proof.
  split; [| split; [| split]].
  - reflexivity.
  - intros key value pre post Hpre.
    apply (replace_first "{" (key +:+ "}") value pre post Hpre).
  - intros key value prompt. unfold single_pass_substitute.
    rewrite single_pass_one_key. reflexivity.
  - reflexivity.
Qed.

(** C2 as stated fails: the value substituted for an earlier key is
    scanned by the pass of a later key, so [{b}] inside the value of [a]
    is replaced, where a single non-recursive pass leaves it. *)
Lemma substitute_rescans_values :
  Orchestrator.substitute [("a", "{b}"); ("b", "X")] "{a}" = "X"
  /\ single_pass_substitute [("a", "{b}"); ("b", "X")] "{a}" = "{b}".
Proof. split; reflexivity. Qed.

(** ** C3 and C6: the conversation history of an agent *)

Section ChatFacts.

Variable B : Backend.

Lemma chat_success (self self' : BaseAgent) (user_message : string)
    (include_history : bool) (w w' : World) (response : AgentResponse.t) :
  chat B self user_message include_history w = (self', w', inr response) ->
  conversation_history self'
  = conversation_history self
    ++ [new_message USER user_message;
        new_message ASSISTANT (AgentResponse.content response)].
Proof.
  unfold chat.
  destruct (_client self) as [c|].
  - destruct (_send_request B _ _ _); intros [= <- <- <-]; reflexivity.
  - destruct (_initialize_client B _ _); [discriminate |].
    destruct (_send_request B _ _ _); intros [= <- <- <-]; reflexivity.
Qed.

Lemma chat_failure (self self' : BaseAgent) (user_message : string)
    (include_history : bool) (w w' : World) (e : Exception) :
  chat B self user_message include_history w = (self', w', inl e) ->
  conversation_history self' = conversation_history self
  /\ sends (calls w') <= S (sends (calls w)).
Proof.
  unfold chat, sends.
  destruct (_client self) as [c|].
  - destruct (_send_request B _ _ _); intros [= <- <- <-].
    split; [reflexivity |]. simpl.
    rewrite List.filter_app, length_app. simpl. lia.
  - destruct (_initialize_client B _ _).
    + intros [= <- <- <-]. split; [reflexivity |]. simpl.
      rewrite List.filter_app, length_app. simpl. lia.
    + destruct (_send_request B _ _ _); intros [= <- <- <-].
      split; [reflexivity |]. simpl.
      rewrite !List.filter_app, !length_app. simpl. lia.
Qed.

Lemma turns_snoc (n : nat) : turns n ++ [USER; ASSISTANT] = turns (S n).
Proof.
  induction n as [|n IH]; [reflexivity |].
  cbn [turns app]. rewrite IH. reflexivity.
Qed.

Lemma run_agent_roles (events : list AgentEvent) :
  forall (self self' : BaseAgent) (w w' : World) (trace : list Outcome)
         (n : nat),
    List.map Message.role (conversation_history self) = turns n ->
    run_agent B events self w = (self', w', trace) ->
    List.map Message.role (conversation_history self')
    = turns (successes_since_clear n trace).
Proof.
  induction events as [|ev events IH]; intros self self' w w' trace n Hn.
  - simpl. intros [= <- <- <-]. exact Hn.
  - destruct ev as [user_message include_history |]; cbn [run_agent].
    + destruct (chat B self user_message include_history w)
        as [[self1 w1] r] eqn:Echat.
      destruct (run_agent B events self1 w1) as [[self2 w2] trace2] eqn:Erun.
      intros [= <- <- <-].
      destruct r as [e | response].
      * apply (IH _ _ _ _ _ n) in Erun; [exact Erun |].
        destruct (chat_failure _ _ _ _ _ _ _ Echat) as [-> _]. exact Hn.
      * apply (IH _ _ _ _ _ (S n)) in Erun; [exact Erun |].
        rewrite (chat_success _ _ _ _ _ _ _ Echat).
        rewrite List.map_app, Hn. apply turns_snoc.
    + destruct (run_agent B events (clear_history self) w)
        as [[self2 w2] trace2] eqn:Erun.
      intros [= <- <- <-].
      apply (IH _ _ _ _ _ 0) in Erun; [exact Erun | reflexivity].
Qed.

Lemma turns_length (n : nat) : length (turns n) = 2 * n.
Proof. induction n as [|n IH]; simpl; [reflexivity | rewrite IH; lia]. Qed.

Lemma turns_no_system (n : nat) : ~ In SYSTEM (turns n).
Proof.
  induction n as [|n IH]; simpl; [tauto |].
  intros [H | [H | H]]; [discriminate | discriminate | exact (IH H)].
Qed.

End ChatFacts.

Lemma triple_eta {X Y Z : Type} (x : X * Y * Z) :
  x = (fst (fst x), snd (fst x), snd x).
Proof. destruct x as [[a b] c]. reflexivity. Qed.

(** C3. After any sequence of chats and clears on an agent that starts
    with an empty history, the roles in the history are user, assistant,
    user, assistant, ... with one such pair per successful chat since the
    last clear: the history has twice that many entries and none has the
    SYSTEM role. A successful chat appends exactly the user message and an
    assistant message with the content of the response, whether or not the
    history was included in the request. *)
Theorem history_invariant (B : Backend) (events : list AgentEvent)
    (self self' : BaseAgent) (w w' : World) (trace : list Outcome) :
  conversation_history self = [] ->
  run_agent B events self w = (self', w', trace) ->
  List.map Message.role (conversation_history self')
  = turns (successes_since_clear 0 trace)
  /\ length (conversation_history self') = 2 * successes_since_clear 0 trace
  /\ (forall m, In m (conversation_history self') -> Message.role m <> SYSTEM)
  /\ (forall agent agent' user_message include_history v v' response,
        chat B agent user_message include_history v
        = (agent', v', inr response) ->
        conversation_history agent'
        = conversation_history agent
          ++ [Message.mk USER user_message [];
              Message.mk ASSISTANT (AgentResponse.content response) []]).
Proof.
  intros Hempty Hrun.
  assert (List.map Message.role (conversation_history self')
          = turns (successes_since_clear 0 trace)) as Hroles.
  { apply (run_agent_roles B events self self' w w' trace 0); [| exact Hrun].
    rewrite Hempty. reflexivity. }
  split; [exact Hroles |]. split; [| split].
  - rewrite <- (length_map Message.role), Hroles. apply turns_length.
  - intros m Hin Hsys.
    apply (turns_no_system (successes_since_clear 0 trace)).
    rewrite <- Hroles, <- Hsys. apply in_map. exact Hin.
  - intros agent agent' user_message include_history v v' response Hchat.
    exact (chat_success B _ _ _ _ _ _ _ Hchat).
Qed.

Lemma history_invariant_witness :
  length (conversation_history
            (fst (fst (run_agent (sample_backend 3)
                         [ChatCall "one" true; ClearCall; ChatCall "two" false;
                          ChatCall "three" true; ChatCall "four" true]
                         sample_agent empty_world))))
  = 2 * successes_since_clear 0
          (snd (run_agent (sample_backend 3)
                  [ChatCall "one" true; ClearCall; ChatCall "two" false;
                   ChatCall "three" true; ChatCall "four" true]
                  sample_agent empty_world)).
Proof.
  exact (proj1 (proj2 (history_invariant (sample_backend 3)
                         [ChatCall "one" true; ClearCall;
                          ChatCall "two" false; ChatCall "three" true;
                          ChatCall "four" true]
                         sample_agent _ empty_world _ _ eq_refl
                         (triple_eta _)))).
Defined.

(** C6. When the provider's send raises, [chat] raises that same
    exception, has sent exactly one request, and leaves the agent,
    history included, as it was (apart from the client handle when this
    call created it). More generally a chat that fails, for whatever
    reason, leaves the history unchanged and has sent at most one
    request. *)
Theorem chat_failure_keeps_history (B : Backend) (self : BaseAgent)
    (user_message : string) (include_history : bool) (w : World)
    (e : Exception) :
  (forall c,
     _client self = Some c ->
     _send_request B (calls w) self (outgoing self user_message include_history)
     = inl e ->
     chat B self user_message include_history w
     = (self,
        mkWorld (calls w
                 ++ [SendRequest self
                       (outgoing self user_message include_history)])
                (clock_reads w),
        inl e))
  /\ (forall c,
        _client self = None ->
        _initialize_client B (calls w) self = inr c ->
        _send_request B (calls w ++ [InitializeClient self])
          (with_client self (Some c))
          (outgoing self user_message include_history)
        = inl e ->
        chat B self user_message include_history w
        = (with_client self (Some c),
           mkWorld (calls w
                    ++ [InitializeClient self;
                        SendRequest (with_client self (Some c))
                          (outgoing self user_message include_history)])
                   (clock_reads w),
           inl e))
  /\ (forall self' w',
        chat B self user_message include_history w = (self', w', inl e) ->
        conversation_history self' = conversation_history self
        /\ sends (calls w') <= S (sends (calls w))).
Proof.
  split; [| split].
  - intros c Hc Hsend. unfold chat, outgoing in *. rewrite Hc, Hsend.
    reflexivity.
  - intros c Hc Hinit Hsend. unfold chat, outgoing in *.
    rewrite Hc, Hinit. simpl in *. rewrite Hsend.
    unfold log_call. simpl. rewrite <- app_assoc. reflexivity.
  - intros self' w' H. exact (chat_failure B _ _ _ _ _ _ _ H).
Qed.

Lemma chat_failure_keeps_history_witness :
  chat (sample_backend 0) sample_agent "hello" true empty_world
  = (with_client sample_agent (Some (SdkClient OPENAI)),
     mkWorld [InitializeClient sample_agent;
              SendRequest (with_client sample_agent (Some (SdkClient OPENAI)))
                          [new_message USER "hello"]] 0,
     inl (mkExc (OtherError "APIError") "connection reset")).
Proof.
  destruct (chat_failure_keeps_history (sample_backend 0) sample_agent
              "hello" true empty_world
              (mkExc (OtherError "APIError") "connection reset"))
    as (_ & H & _).
  apply (H (SdkClient OPENAI)); reflexivity.
Defined.

(** ** C7: overrides and defaults in the agent factory *)

(** C7, as amended. For a role with a registered configuration and a
    configured model, [create_by_role] builds an agent whose temperature
    is the override whenever one is given, whose system prompt is the
    override when it is given and not empty, and whose [max_tokens] is the
    override when it is given and not zero; an absent override, and
    likewise an empty prompt or a zero [max_tokens], gives the value of the
    role's configuration. In [create_by_provider] an absent [max_tokens]
    or temperature gives the process-wide default. *)
Theorem factory_overrides (settings : Settings)
    (configs : list (string * RoleConfig.t)) (role : Role)
    (config : RoleConfig.t) (model_name : string)
    (prompt : option string) (tokens : option Z) (temp : option Q) :
  assoc (role_value role) configs = Some config ->
  AgentFactory.model_map settings role = Some model_name ->
  model_name <> "" ->
  RoleConfig.max_tokens config <> 0%Z ->
  exists agent,
    AgentFactory.create_by_role settings configs role prompt tokens temp
    = inr agent
    /\ model agent = model_name
    /\ conversation_history agent = []
    /\ (forall t, temp = Some t -> temperature agent = t)
    /\ (temp = None -> temperature agent = RoleConfig.temperature config)
    /\ (forall s, prompt = Some s -> s <> "" -> system_prompt agent = s)
    /\ (prompt = None \/ prompt = Some "" ->
        system_prompt agent = RoleConfig.system_prompt config)
    /\ (forall n, tokens = Some n -> n <> 0%Z -> max_tokens agent = n)
    /\ (tokens = None \/ tokens = Some 0%Z ->
        max_tokens agent = RoleConfig.max_tokens config)
    /\ (forall provider name text,
          exists made,
            AgentFactory.create_by_provider settings provider name text
                                            None None = inr made
            /\ max_tokens made = default_max_tokens settings
            /\ temperature made = default_temperature settings
            /\ system_prompt made = text).
Proof.
  intros Hconfig Hmodel Hname Htokens.
  unfold AgentFactory.create_by_role, AgentFactory.get_role_config.
  rewrite Hconfig, Hmodel.
  assert (exists provider, AgentFactory.ROLE_PROVIDERS role = Some provider)
    as [provider ->] by (destruct role; eexists; reflexivity).
  destruct model_name as [|a model_name]; [congruence |].
  unfold AgentFactory.create_by_provider.
  assert (exists cls, AgentFactory.PROVIDER_AGENTS provider = Some cls)
    as [cls ->] by (destruct provider; eexists; reflexivity).
  eexists. split; [reflexivity |]. cbn.
  split; [reflexivity |]. split; [reflexivity |].
  assert (forall v : Z, v <> 0%Z -> (v =? 0)%Z = false) as Hnz
    by (intros v Hv; apply Z.eqb_neq; exact Hv).
  split; [intros t ->; reflexivity |].
  split; [intros ->; reflexivity |].
  split; [intros s -> Hs; cbn; destruct s; [congruence | reflexivity] |].
  split; [intros [-> | ->]; reflexivity |].
  split; [intros n -> Hn; cbn; rewrite (Hnz n Hn), (Hnz n Hn); reflexivity |].
  split; [intros [-> | ->]; cbn; rewrite (Hnz _ Htokens); reflexivity |].
  intros p name text. destruct p; eexists; repeat split.
Qed.

Lemma factory_overrides_witness :
  exists agent,
    AgentFactory.create_by_role default_settings _ROLE_CONFIGS QA
      (Some "Be brief.") (Some 100%Z) (Some 0%Q) = inr agent
    /\ system_prompt agent = "Be brief."
    /\ max_tokens agent = 100%Z
    /\ temperature agent = 0%Q.
Proof.
  destruct (factory_overrides default_settings _ROLE_CONFIGS QA QA_CONFIG
              "gpt-4o" (Some "Be brief.") (Some 100%Z) (Some 0%Q))
    as (agent & H & _ & _ & Ht & _ & Hp & _ & Hn & _).
  - reflexivity.
  - reflexivity.
  - discriminate.
  - discriminate.
  - exists agent. split; [exact H |]. split; [| split].
    + apply Hp; [reflexivity | discriminate].
    + apply Hn; [reflexivity | discriminate].
    + apply Ht. reflexivity.
Defined.

(** C7 as stated fails: an override of [max_tokens] that is zero, and an
    override of the system prompt that is empty, are supplied and yet the
    agent gets the values of the role's configuration. *)
Lemma factory_ignores_falsy_overrides :
  exists agent,
    AgentFactory.create_by_role default_settings _ROLE_CONFIGS REVIEWER
      (Some "") (Some 0%Z) None = inr agent
    /\ max_tokens agent = 2048%Z
    /\ max_tokens agent <> 0%Z
    /\ system_prompt agent = REVIEWER_PROMPT
    /\ system_prompt agent <> "".
Proof.
  eexists. split; [reflexivity |]. cbn.
  repeat split; discriminate.
Qed.

(** ** Step names *)

Section StepNames.

Lemma string_app_assoc (a b c : string) :
  (a +:+ b) +:+ c = a +:+ (b +:+ c).
Proof.
  induction a as [|x a IH]; [reflexivity |].
  change (String x ((a +:+ b) +:+ c) = String x (a +:+ (b +:+ c))).
  rewrite IH. reflexivity.
Qed.

Lemma pretty_N_char_digit (x : N) : is_digit (pretty_N_char x) = true.
Proof.
  destruct x as [|p]; [reflexivity |].
  do 4 (try (destruct p as [p|p|]; try reflexivity)).
Qed.

Lemma pretty_N_go_digits (x : N) :
  forall s, all_digits s = true -> all_digits (pretty_N_go x s) = true.
Proof.
  induction (N.lt_wf_0 x) as [x _ IH]. intros s Hs.
  destruct (decide (x = 0%N)) as [-> | Hx].
  - rewrite pretty_N_go_0. exact Hs.
  - rewrite pretty_N_go_step by lia.
    apply IH; [apply N.div_lt; lia |].
    simpl. rewrite pretty_N_char_digit. exact Hs.
Qed.

Lemma pretty_nat_digits (n : nat) : all_digits (pretty n) = true.
Proof.
  unfold pretty, pretty_nat, pretty, pretty_N.
  destruct (decide (N.of_nat n = 0%N)); [reflexivity |].
  apply pretty_N_go_digits. reflexivity.
Qed.

(** Two texts made of digits that are followed by the same non-digit are
    equal as soon as the whole strings are. *)
Lemma digits_before_separator (c : ascii) (d1 d2 t1 t2 : string) :
  is_digit c = false ->
  all_digits d1 = true -> all_digits d2 = true ->
  d1 +:+ String c t1 = d2 +:+ String c t2 -> d1 = d2.
Proof.
  intros Hc. revert d2. induction d1 as [|x d1 IH]; intros [|y d2] H1 H2 H.
  - reflexivity.
  - injection H as -> _. simpl in H2. rewrite Hc in H2. discriminate.
  - injection H as <- _. simpl in H1. rewrite Hc in H1. discriminate.
  - injection H as -> H. simpl in H1, H2.
    apply andb_prop in H1 as [_ H1]. apply andb_prop in H2 as [_ H2].
    f_equal. exact (IH d2 H1 H2 H).
Qed.

(** The name of a step determines its index. *)
Lemma step_name_inj (i j : nat) (s s' : Orchestrator.WorkflowStep) :
  Orchestrator.step_name i s = Orchestrator.step_name j s' -> i = j.
Proof.
  unfold Orchestrator.step_name. intros H.
  apply (inj (String.append "step_")) in H.
  apply (digits_before_separator "_") in H;
    [| reflexivity | apply pretty_nat_digits | apply pretty_nat_digits].
  exact (inj pretty _ _ H).
Qed.

End StepNames.

(** ** Ordered dictionaries *)

Section DictFacts.

Context {A : Type}.

Lemma assoc_None (k : string) (l : list (string * A)) :
  assoc k l = None <-> ~ In k (List.map fst l).
Proof.
  induction l as [|[k' v] l IH]; simpl.
  - tauto.
  - destruct (String.eqb_spec k k') as [-> | Hne].
    + split; [discriminate | intros H; exfalso; apply H; left; reflexivity].
    + rewrite IH. split.
      * intros H [E | Hin]; [congruence | exact (H Hin)].
      * intros H Hin. apply H. right. exact Hin.
Qed.

Lemma set_entry_fresh (k : string) (v : A) (l : list (string * A)) :
  ~ In k (List.map fst l) -> set_entry k v l = l ++ [(k, v)].
Proof.
  induction l as [|[k' v'] l IH]; simpl; intros H.
  - reflexivity.
  - destruct (String.eqb_spec k k') as [-> | Hne].
    + exfalso. apply H. left. reflexivity.
    + rewrite IH by (intros Hin; apply H; right; exact Hin). reflexivity.
Qed.

Lemma assoc_set_entry (k : string) (v : A) (l : list (string * A)) :
  assoc k (set_entry k v l) = Some v.
Proof.
  induction l as [|[k' v'] l IH]; simpl.
  - rewrite String.eqb_refl. reflexivity.
  - destruct (String.eqb_spec k k') as [-> | Hne]; simpl.
    + rewrite String.eqb_refl. reflexivity.
    + destruct (String.eqb_spec k k'); [congruence | exact IH].
Qed.

Lemma assoc_In (k : string) (v : A) (l : list (string * A)) :
  List.NoDup (List.map fst l) -> In (k, v) l -> assoc k l = Some v.
Proof.
  induction l as [|[k' v'] l IH]; simpl; intros Hnd Hin; [contradiction |].
  apply List.NoDup_cons_iff in Hnd as [Hk' Hnd].
  destruct Hin as [[= -> ->] | Hin].
  - rewrite String.eqb_refl. reflexivity.
  - destruct (String.eqb_spec k k') as [-> | Hne]; [| exact (IH Hnd Hin)].
    exfalso. apply Hk'. apply (in_map fst) in Hin. exact Hin.
Qed.

Lemma assoc_Some_In (k : string) (v : A) (l : list (string * A)) :
  assoc k l = Some v -> In (k, v) l.
Proof.
  induction l as [|[k' v'] l IH]; simpl; [discriminate |].
  destruct (String.eqb_spec k k') as [-> | Hne].
  - intros [= ->]. left. reflexivity.
  - intros H. right. exact (IH H).
Qed.

(** Looking a key up does not depend on the order of the entries when
    no key occurs twice. *)
Lemma assoc_Permutation (k : string) (l l' : list (string * A)) :
  List.NoDup (List.map fst l) -> Permutation l l' -> assoc k l = assoc k l'.
Proof.
  intros Hnd Hperm.
  assert (List.NoDup (List.map fst l')) as Hnd'.
  { eapply Permutation_NoDup; [| exact Hnd].
    apply Permutation_map. exact Hperm. }
  destruct (assoc k l) as [v|] eqn:E.
  - symmetry. apply assoc_In; [exact Hnd' |].
    eapply Permutation_in; [exact Hperm |]. apply assoc_Some_In. exact E.
  - symmetry. apply assoc_None. apply assoc_None in E. intros Hin. apply E.
    eapply Permutation_in; [| exact Hin].
    apply Permutation_map. symmetry. exact Hperm.
Qed.

End DictFacts.

(** ** C4, C5 and C8: the workflow engine *)

Section WorkflowFacts.

Import Orchestrator.

Variable B : Backend.
Variable settings : Settings.
Variable configs : list (string * RoleConfig.t).
Variable context : list (string * string).

Lemma steps_succeed_length i steps self w outs self' w' responses :
  steps_succeed B settings configs context i steps self w outs self' w'
                responses ->
  length responses = length steps.
Proof. induction 1; simpl; [reflexivity | f_equal; assumption]. Qed.

Lemma step_names_length i steps : length (step_names i steps) = length steps.
Proof.
  unfold step_names. rewrite length_map.
  revert i. induction steps as [|s steps IH]; intros i; simpl;
    [reflexivity | f_equal; apply IH].
Qed.

Lemma recorded_keys i steps responses :
  length responses = length steps ->
  List.map fst (recorded i steps responses) = step_names i steps.
Proof.
  intros H. unfold recorded.
  rewrite <- (step_names_length i steps) in H.
  revert responses H. induction (step_names i steps) as [|n names IH];
    intros [|r rs] H; simpl in *; try discriminate; [reflexivity |].
  f_equal. apply IH. lia.
Qed.

Lemma recorded_values i steps responses :
  length responses = length steps ->
  List.map snd (recorded i steps responses) = responses.
Proof.
  intros H. unfold recorded.
  rewrite <- (step_names_length i steps) in H.
  revert responses H. induction (step_names i steps) as [|n names IH];
    intros [|r rs] H; simpl in *; try discriminate; [reflexivity |].
  f_equal. apply IH. lia.
Qed.

(** Steps that succeed are steps the loop goes through, recording each
    response after the outputs it started with. *)
Lemma run_steps_prefix i pre self w outs self' w' responses :
  steps_succeed B settings configs context i pre self w outs self' w'
                responses ->
  (forall j s, i <= j -> ~ In (step_name j s) (List.map fst outs)) ->
  forall tail,
    run_steps B settings configs i (pre ++ tail) context self w outs
    = run_steps B settings configs (i + length pre) tail context self' w'
                (outs ++ recorded i pre responses).
Proof.
  induction 1 as [i self w outs
                 | i step rest self w outs self1 w1 response self2 w2
                     responses Hstep Hrest IH];
    intros Hfresh tail.
  - simpl. rewrite Nat.add_0_r, app_nil_r. reflexivity.
  - cbn [app run_steps]. rewrite Hstep.
    rewrite set_entry_fresh in * by (apply Hfresh; lia).
    rewrite IH.
    + replace (S i + length rest) with (i + length (step :: rest))
        by (simpl; lia).
      rewrite <- app_assoc. reflexivity.
    + intros j s Hj. rewrite List.map_app, in_app_iff. simpl.
      intros [Hin | [Heq | []]].
      * apply (Hfresh j s); [lia | exact Hin].
      * apply step_name_inj in Heq. lia.
Qed.

Lemma dep_context_fold (outs : list (string * AgentResponse.t))
    (deps : list string) :
  forall acc,
    fold_left
      (fun dep_context dep =>
         match assoc dep outs with
         | Some response =>
             dep_context +:+ nl +:+ "[" +:+ dep +:+ "]:" +:+ nl
             +:+ AgentResponse.content response +:+ nl
         | None => dep_context
         end) deps acc
    = acc +:+ concat_all (List.map (dep_block outs) deps).
Proof.
  induction deps as [|dep deps IH]; intros acc; cbn [fold_left List.map concat_all].
  - clear. induction acc as [|c acc IH]; [reflexivity |].
    change (String c acc = String c (acc +:+ "")). rewrite <- IH. reflexivity.
  - rewrite IH. unfold dep_block at 2.
    destruct (assoc dep outs) as [response |].
    + rewrite string_app_assoc. reflexivity.
    + reflexivity.
Qed.

End WorkflowFacts.

(** C5. For a workflow name that is not registered, [run_workflow]
    returns at once: the orchestrator and the world are as before (no
    agent was created or called), the status is failed, no step is
    completed, the outputs are empty and there is exactly one error. *)
Theorem unknown_workflow_fails (B : Backend) (settings : Settings)
    (configs : list (string * RoleConfig.t)) (self : Orchestrator.t)
    (workflow_name : string) (context : list (string * string)) (w : World) :
  Orchestrator._workflows self !! workflow_name = None ->
  exists result,
    Orchestrator.run_workflow B settings configs self workflow_name context w
    = (self, w, result)
    /\ Orchestrator.status result = Orchestrator.FAILED
    /\ Orchestrator.steps_completed result = 0
    /\ Orchestrator.outputs result = []
    /\ Orchestrator.errors result = ["Unknown workflow: " +:+ workflow_name].
Proof.
  intros H. unfold Orchestrator.run_workflow. rewrite H.
  eexists. repeat split.
Qed.

Lemma unknown_workflow_fails_witness :
  exists result,
    Orchestrator.run_workflow (sample_backend 9) default_settings
      _ROLE_CONFIGS (Orchestrator.new false) "deploy" [] empty_world
    = (Orchestrator.new false, empty_world, result)
    /\ Orchestrator.status result = Orchestrator.FAILED
    /\ Orchestrator.steps_completed result = 0
    /\ Orchestrator.outputs result = []
    /\ Orchestrator.errors result = ["Unknown workflow: deploy"].
Proof.
  apply (unknown_workflow_fails (sample_backend 9) default_settings
           _ROLE_CONFIGS (Orchestrator.new false) "deploy" [] empty_world).
  vm_compute. reflexivity.
Defined.

(** C4. When the steps before index [i] of a registered workflow all
    succeed and the step at index [i] raises, [run_workflow] returns the
    status failed, [steps_completed] equal to [i], outputs that hold
    exactly the responses of the steps before [i] under their step names,
    and one error that names the failed step and carries the text of the
    exception; the orchestrator and the calls made are those at the point
    of failure, so no later step is run. *)
Theorem workflow_fails_at_step (B : Backend) (settings : Settings)
    (configs : list (string * RoleConfig.t)) (self : Orchestrator.t)
    (workflow_name : string) (context : list (string * string)) (w : World)
    (pre : list Orchestrator.WorkflowStep) (step : Orchestrator.WorkflowStep)
    (post : list Orchestrator.WorkflowStep)
    (self1 : Orchestrator.t) (w1 : World) (responses : list AgentResponse.t)
    (self2 : Orchestrator.t) (w2 : World) (e : Exception) :
  Orchestrator._workflows self !! workflow_name = Some (pre ++ step :: post) ->
  steps_succeed B settings configs context 0 pre self
                (snd (Orchestrator.read_clock B w)) [] self1 w1 responses ->
  Orchestrator.run_step B settings configs self1 w1 step context
                        (recorded 0 pre responses)
  = (self2, w2, inl e) ->
  exists result w',
    Orchestrator.run_workflow B settings configs self workflow_name context w
    = (self2, w', result)
    /\ calls w' = calls w2
    /\ Orchestrator.status result = Orchestrator.FAILED
    /\ Orchestrator.steps_completed result = length pre
    /\ Orchestrator.outputs result = recorded 0 pre responses
    /\ List.map fst (Orchestrator.outputs result) = step_names 0 pre
    /\ List.map snd (Orchestrator.outputs result) = responses
    /\ Orchestrator.errors result
       = ["Step " +:+ Orchestrator.step_name (length pre) step
          +:+ " failed: " +:+ exc_str e].
Proof.
  intros Hlookup Hpre Hstep.
  pose proof (steps_succeed_length _ _ _ _ _ _ _ _ _ _ _ _ Hpre) as Hlen.
  unfold Orchestrator.run_workflow. rewrite Hlookup.
  cbn [Orchestrator.read_clock] in *. cbn [snd] in Hpre.
  rewrite (run_steps_prefix _ _ _ _ _ _ _ _ _ _ _ _ Hpre)
    by (intros j s _ []).
  cbn [app Nat.add Orchestrator.run_steps]. rewrite Hstep.
  eexists. eexists. split; [reflexivity |]. cbn.
  split; [reflexivity |]. split; [reflexivity |]. split; [reflexivity |].
  split; [reflexivity |].
  split; [apply recorded_keys; exact Hlen |].
  split; [apply recorded_values; exact Hlen | reflexivity].
Qed.

Lemma workflow_fails_at_step_witness :
  exists result w' self',
    Orchestrator.run_workflow (sample_backend 3) default_settings
      _ROLE_CONFIGS (Orchestrator.new false) "bugfix"
      [("bug_description", "crash on start"); ("code", "main()")]
      empty_world
    = (self', w', result)
    /\ Orchestrator.status result = Orchestrator.FAILED
    /\ Orchestrator.steps_completed result = 1
    /\ List.map fst (Orchestrator.outputs result) = ["step_0_qa"]
    /\ Orchestrator.errors result
       = ["Step step_1_senior_dev failed: connection reset"].
Proof.
  edestruct (workflow_fails_at_step (sample_backend 3) default_settings
               _ROLE_CONFIGS (Orchestrator.new false) "bugfix"
               [("bug_description", "crash on start"); ("code", "main()")]
               empty_world
               [Orchestrator.mkStep QA
                  ("Analyze this bug report and identify the root cause:"
                   +:+ Orchestrator.nl +:+ Orchestrator.nl
                   +:+ "{bug_description}" +:+ Orchestrator.nl
                   +:+ Orchestrator.nl +:+ "Code:" +:+ Orchestrator.nl
                   +:+ "{code}") [] None]
               (Orchestrator.mkStep SENIOR_DEV
                  "Based on the QA analysis, plan the fix approach."
                  ["step_0_qa"] None)
               [Orchestrator.mkStep CODER
                  "Implement the bug fix based on the analysis and plan."
                  ["step_0_qa"; "step_1_senior_dev"] None])
    as (result & w' & Hrun & _ & Hstatus & Hcount & _ & Hkeys & _ & Herr).
  - vm_compute. reflexivity.
  - eapply succeed_cons; [vm_compute; reflexivity | apply succeed_nil].
  - vm_compute. reflexivity.
  - exists result, w'. eexists. split; [exact Hrun |].
    split; [exact Hstatus |]. split; [exact Hcount |].
    split; [exact Hkeys | exact Herr].
Defined.

(** A workflow whose steps all succeed completes, with every response
    recorded under its step name. *)
Lemma workflow_completes (B : Backend) (settings : Settings)
    (configs : list (string * RoleConfig.t)) (self : Orchestrator.t)
    (workflow_name : string) (context : list (string * string)) (w : World)
    (steps : list Orchestrator.WorkflowStep)
    (self1 : Orchestrator.t) (w1 : World) (responses : list AgentResponse.t) :
  Orchestrator._workflows self !! workflow_name = Some steps ->
  steps_succeed B settings configs context 0 steps self
                (snd (Orchestrator.read_clock B w)) [] self1 w1 responses ->
  exists result w',
    Orchestrator.run_workflow B settings configs self workflow_name context w
    = (self1, w', result)
    /\ calls w' = calls w1
    /\ Orchestrator.status result = Orchestrator.COMPLETED
    /\ Orchestrator.steps_completed result = length steps
    /\ Orchestrator.outputs result = recorded 0 steps responses
    /\ Orchestrator.errors result = [].
Proof.
  intros Hlookup Hsteps.
  unfold Orchestrator.run_workflow. rewrite Hlookup.
  unfold Orchestrator.read_clock in *. cbn [snd] in Hsteps.
  pose proof (run_steps_prefix _ _ _ _ _ _ _ _ _ _ _ _ Hsteps
                (fun j s _ (H : In _ []) => H) []) as Hrun.
  rewrite app_nil_r in Hrun. rewrite Hrun.
  cbn [app Orchestrator.run_steps].
  eexists. eexists. repeat split.
Qed.

(** C8. The dependency context is the header followed by one labelled
    block for each identifier of [depends_on] that is recorded in the
    outputs, in the order of [depends_on], each block carrying the content
    of the response recorded under the identifier; it does not depend on
    the order of the outputs; it is appended to the substituted
    instruction, and this is the prompt asked when the step has no
    transform; and the response of a step that succeeds is recorded under
    [step_<index>_<role>]. *)
Theorem dependency_context_blocks :
  (forall deps outs,
     Orchestrator.dep_context deps outs
     = dep_header +:+ concat_all (List.map (dep_block outs) deps))
  /\ (forall deps outs outs',
        List.NoDup (List.map fst outs) -> Permutation outs outs' ->
        Orchestrator.dep_context deps outs
        = Orchestrator.dep_context deps outs')
  /\ (forall step context outs,
        Orchestrator.depends_on step <> [] ->
        Orchestrator.build_prompt step context outs
        = Orchestrator.substitute context (Orchestrator.instruction step)
          +:+ Orchestrator.dep_context (Orchestrator.depends_on step) outs)
  /\ (forall B settings configs self w step context outs,
        Orchestrator.transform step = None ->
        Orchestrator.run_step B settings configs self w step context outs
        = Orchestrator.ask B settings configs self (Orchestrator.role step)
            (Orchestrator.build_prompt step context outs) false w)
  /\ (forall B settings configs i step rest context self w outs
             self1 w1 response,
        Orchestrator.run_step B settings configs self w step context outs
        = (self1, w1, inr response) ->
        Orchestrator.run_steps B settings configs i (step :: rest) context
                               self w outs
        = Orchestrator.run_steps B settings configs (S i) rest context
            self1 w1
            (set_entry ("step_" +:+ pretty i +:+ "_"
                        +:+ role_value (Orchestrator.role step))
                       response outs)
        /\ assoc ("step_" +:+ pretty i +:+ "_"
                  +:+ role_value (Orchestrator.role step))
                 (set_entry ("step_" +:+ pretty i +:+ "_"
                             +:+ role_value (Orchestrator.role step))
                            response outs)
           = Some response)
  /\ Orchestrator.dep_context ["step_0_ba"; "step_1_senior_dev"]
       [("step_1_senior_dev", sample_response "the design");
        ("step_0_ba", sample_response "the stories")]
     = dep_header
       +:+ Orchestrator.nl +:+ "[step_0_ba]:" +:+ Orchestrator.nl
       +:+ "the stories" +:+ Orchestrator.nl
       +:+ Orchestrator.nl +:+ "[step_1_senior_dev]:" +:+ Orchestrator.nl
       +:+ "the design" +:+ Orchestrator.nl.
Proof.
  split; [| split; [| split; [| split; [| split]]]].
  - intros deps outs. unfold Orchestrator.dep_context.
    rewrite dep_context_fold. reflexivity.
  - intros deps outs outs' Hnd Hperm. unfold Orchestrator.dep_context.
    rewrite !dep_context_fold. f_equal. f_equal.
    apply map_ext. intros dep. unfold dep_block.
    rewrite (assoc_Permutation dep outs outs' Hnd Hperm). reflexivity.
  - intros step context outs Hdeps. unfold Orchestrator.build_prompt.
    destruct (Orchestrator.depends_on step); [congruence | reflexivity].
  - intros B settings configs self w step context outs Hnone.
    unfold Orchestrator.run_step. rewrite Hnone. reflexivity.
  - intros B settings configs i step rest context self w outs self1 w1
           response Hstep.
    split.
    + cbn [Orchestrator.run_steps]. rewrite Hstep. reflexivity.
    + apply assoc_set_entry.
  - reflexivity.
Qed.

Lemma dependency_context_blocks_witness :
  Orchestrator.dep_context ["step_0_ba"; "step_1_senior_dev"]
    [("step_1_senior_dev", sample_response "the design");
     ("step_0_ba", sample_response "the stories")]
  = Orchestrator.dep_context ["step_0_ba"; "step_1_senior_dev"]
      [("step_0_ba", sample_response "the stories");
       ("step_1_senior_dev", sample_response "the design")].
Proof.
  apply (proj1 (proj2 dependency_context_blocks)).
  - repeat constructor; simpl; intuition discriminate.
  - apply perm_swap.
Defined.

(** ** C9, continued: on a well-formed filesystem the search does not fail *)

Section WalkFacts.

Import FS FileSystemTools.

Lemma node_induction (P : node -> Prop) :
  (forall f, P (File f)) ->
  (forall r es, Forall (fun e => P (snd e)) es -> P (Dir r es)) ->
  forall n, P n.
Proof.
  intros Hfile Hdir. fix IH 1. intros [f | r es].
  - apply Hfile.
  - apply Hdir. induction es as [|e es IHes]; constructor.
    + apply IH.
    + exact IHes.
Qed.

Lemma lookup_app (n : node) (p q : path) :
  lookup n (p ++ q)
  = match lookup n p with
    | Some c => lookup c q
    | None => None
    end.
Proof.
  revert n. induction p as [|x p IH]; intros n; simpl; [reflexivity |].
  destruct n as [f | r es]; [reflexivity |].
  destruct (assoc x es); [apply IH | reflexivity].
Qed.

Lemma well_formed_lookup (p : path) :
  forall n c, well_formed n -> lookup n p = Some c -> well_formed c.
Proof.
  induction p as [|x p IH]; intros n c Hwf; simpl.
  - intros [= <-]. exact Hwf.
  - destruct n as [f | r es]; [discriminate |].
    destruct (assoc x es) as [c' |] eqn:E; [| discriminate].
    inversion Hwf as [| r' es' Hnd Hall]; subst.
    intros H. apply (IH c' c); [| exact H].
    apply assoc_Some_In in E.
    rewrite List.Forall_forall in Hall. exact (Hall _ E).
Qed.


Variable workspace_root : path.
Variable fnmatch : string -> string -> bool.


(** A loop of which every round succeeds and leaves the filesystem as it
    is succeeds. *)
Lemma for_each_succeeds {A} (body : A -> list string -> IO (list string))
    (fs : node) (l : list A) :
  (forall x acc, In x l -> exists acc', body x acc fs = (fs, inr acc')) ->
  forall acc, exists res, for_each l acc body fs = (fs, inr res).
Proof.
  induction l as [|x l IH]; intros Hbody acc.
  - exists acc. reflexivity.
  - cbn [for_each]. unfold bind at 1.
    destruct (Hbody x acc (or_introl eq_refl)) as [acc' ->].
    apply IH. intros y acc0 Hy. apply Hbody. right. exact Hy.
Qed.



End WalkFacts.


Lemma sample_fs_well_formed : well_formed sample_fs.
Proof.
  unfold sample_fs.
  repeat match goal with
         | |- well_formed _ => constructor
         | |- Forall _ _ => constructor
         | |- List.NoDup _ => constructor
         | |- ~ In _ _ => simpl; intuition discriminate
         | _ => progress simpl
         end.
Qed.


(** The search on the sample workspace: both spellings are found, the
    hidden directory and the binary file are passed over. *)
Example grep_sample :
  FileSystemTools.grep ["srv"; "ws"] match_all "hello" "." "*" sample_fs
  = (sample_fs, ["notes.txt:1:Hello World"; "notes.txt:2:say HELLO again"]).
Proof. vm_compute. reflexivity. Qed.

(** The line test looks at the search term and at the line only through
    their lowercased forms. *)
Lemma lower_char_idempotent (a : ascii) :
  PyStr.lower_char (PyStr.lower_char a) = PyStr.lower_char a.
Proof. destruct a as [[] [] [] [] [] [] [] []]; reflexivity. Qed.

Lemma lower_idempotent (s : string) : PyStr.lower (PyStr.lower s) = PyStr.lower s.
Proof.
  induction s as [|a s IH]; simpl; [reflexivity |].
  rewrite lower_char_idempotent, IH. reflexivity.
Qed.

Lemma line_hit_ignores_case (search_term line : string) :
  FileSystemTools.line_hit (PyStr.lower search_term) (PyStr.lower line)
  = FileSystemTools.line_hit search_term line.
Proof.
  unfold FileSystemTools.line_hit. rewrite !lower_idempotent. reflexivity.
Qed.

(** * Further properties of the embedded code *)

(** ** The agent *)

Section AgentExtras.

Variable B : Backend.

(** What one chat adds to the calls, and what it leaves alone. *)
Lemma chat_effects (self self' : BaseAgent) (user_message : string)
    (include_history : bool) (w w' : World) (r : result AgentResponse.t) :
  chat B self user_message include_history w = (self', w', r) ->
  same_configuration self' self
  /\ clock_reads w' = clock_reads w
  /\ (forall c, _client self = Some c ->
                _client self' = Some c
                /\ calls w'
                   = calls w
                     ++ [SendRequest self
                           (outgoing self user_message include_history)])
  /\ (_client self = None ->
      exists new,
        calls w' = calls w ++ InitializeClient self :: new
        /\ (new = []
            \/ exists a, new = [SendRequest a
                                  (outgoing self user_message include_history)]))
  /\ (forall response, r = inr response -> _client self' <> None).
Proof.
  unfold chat, outgoing, same_configuration.
  destruct (_client self) as [c|] eqn:Ec.
  - destruct (_send_request B _ _ _); intros [= <- <- <-]; simpl.
    + split; [repeat split |]. split; [reflexivity |].
      split; [intros c' [= <-]; split; [exact Ec | reflexivity] |].
      split; [intros [=] | intros response [=]].
    + split; [repeat split |]. split; [reflexivity |].
      split; [intros c' [= <-]; split; [exact Ec | reflexivity] |].
      split; [intros [=] |]. intros response _. congruence.
  - destruct (_initialize_client B _ _) as [e | c].
    + intros [= <- <- <-]. simpl.
      split; [repeat split |]. split; [reflexivity |].
      split; [intros c' [=] |].
      split; [| intros response [=]].
      intros _. exists []. split; [reflexivity | left; reflexivity].
    + destruct (_send_request B _ _ _); intros [= <- <- <-]; simpl.
      * split; [repeat split |]. split; [reflexivity |].
        split; [intros c' [=] |].
        split; [| intros response [=]].
        intros _. eexists. split; [rewrite <- app_assoc; reflexivity |].
        right. eexists. reflexivity.
      * split; [repeat split |]. split; [reflexivity |].
        split; [intros c' [=] |].
        split; [| intros response _; discriminate].
        intros _. eexists. split; [rewrite <- app_assoc; reflexivity |].
        right. eexists. reflexivity.
Qed.

Lemma same_configuration_trans (a b c : BaseAgent) :
  same_configuration a b -> same_configuration b c -> same_configuration a c.
Proof.
  unfold same_configuration.
  intros (H1 & H2 & H3 & H4 & H5) (K1 & K2 & K3 & K4 & K5).
  repeat split; congruence.
Qed.

Lemma inits_app (l l' : list Call) : inits (l ++ l') = inits l + inits l'.
Proof. unfold inits. rewrite List.filter_app, length_app. reflexivity. Qed.

End AgentExtras.

(** X1. Whatever chats and clears are made on an agent, its class, model,
    system prompt, [max_tokens] and temperature stay as they were and the
    clock is not read; and once the agent holds a client, the client is
    kept and never set up again. *)
Theorem agent_configuration_is_stable (B : Backend)
    (events : list AgentEvent) (self self' : BaseAgent) (w w' : World)
    (trace : list Outcome) :
  run_agent B events self w = (self', w', trace) ->
  same_configuration self' self
  /\ clock_reads w' = clock_reads w
  /\ (forall c, _client self = Some c ->
                _client self' = Some c /\ inits (calls w') = inits (calls w)).
Proof.
  revert self self' w w' trace.
  induction events as [|ev events IH]; intros self self' w w' trace.
  - simpl. intros [= <- <- <-].
    repeat split; try reflexivity. assumption.
  - destruct ev as [user_message include_history |]; cbn [run_agent].
    + destruct (chat B self user_message include_history w)
        as [[self1 w1] r] eqn:Echat.
      destruct (run_agent B events self1 w1) as [[self2 w2] trace2] eqn:Erun.
      intros [= <- <- <-].
      destruct (chat_effects B _ _ _ _ _ _ _ Echat)
        as (Hconf & Hclock & Hclient & _).
      destruct (IH _ _ _ _ _ Erun) as (Hconf2 & Hclock2 & Hclient2).
      split; [exact (same_configuration_trans _ _ _ Hconf2 Hconf) |].
      split; [congruence |].
      intros c Hc. destruct (Hclient c Hc) as [Hc1 Hcalls].
      destruct (Hclient2 c Hc1) as [Hc2 Hinits].
      split; [exact Hc2 |].
      rewrite Hinits, Hcalls, inits_app.
      change (inits [SendRequest self (outgoing self user_message include_history)]) with 0.
      lia.
    + destruct (run_agent B events (clear_history self) w)
        as [[self2 w2] trace2] eqn:Erun.
      intros [= <- <- <-].
      destruct (IH _ _ _ _ _ Erun) as (Hconf2 & Hclock2 & Hclient2).
      split; [exact Hconf2 |]. split; [exact Hclock2 |].
      intros c Hc. exact (Hclient2 c Hc).
Qed.

Lemma agent_configuration_is_stable_witness :
  same_configuration
    (fst (fst (run_agent (sample_backend 2)
                 [ChatCall "one" true; ChatCall "two" true; ClearCall]
                 sample_agent empty_world)))
    sample_agent.
Proof.
  exact (proj1 (agent_configuration_is_stable (sample_backend 2)
                  [ChatCall "one" true; ChatCall "two" true; ClearCall]
                  sample_agent _ empty_world _ _ (triple_eta _))).
Defined.

Section RequestShape.

Variable B : Backend.

Lemma outgoing_is_conversation (self : BaseAgent) (user_message : string)
    (include_history : bool) (k : nat) :
  List.map Message.role (conversation_history self) = turns k ->
  conversation_request (outgoing self user_message include_history).
Proof.
  intros Hk. unfold conversation_request, outgoing.
  destruct include_history.
  - exists k. rewrite List.map_app, Hk. reflexivity.
  - exists 0. reflexivity.
Qed.

Lemma chat_requests (self self' : BaseAgent) (user_message : string)
    (include_history : bool) (w w' : World) (r : result AgentResponse.t)
    (k : nat) :
  List.map Message.role (conversation_history self) = turns k ->
  chat B self user_message include_history w = (self', w', r) ->
  exists new,
    calls w' = calls w ++ new /\ requests_are_conversations new.
Proof.
  intros Hk Hchat.
  pose proof (outgoing_is_conversation self user_message include_history k Hk)
    as Hout.
  destruct (chat_effects B _ _ _ _ _ _ _ Hchat) as (_ & _ & Hsome & Hnone & _).
  destruct (_client self) as [c|].
  - destruct (Hsome c eq_refl) as [_ ->]. eexists. split; [reflexivity |].
    repeat constructor. exact Hout.
  - destruct (Hnone eq_refl) as (new & -> & [-> | (a & ->)]);
      eexists; (split; [reflexivity |]); repeat constructor. exact Hout.
Qed.

Lemma run_agent_requests (events : list AgentEvent) :
  forall (self self' : BaseAgent) (w w' : World) (trace : list Outcome)
         (k : nat),
    List.map Message.role (conversation_history self) = turns k ->
    run_agent B events self w = (self', w', trace) ->
    exists new,
      calls w' = calls w ++ new /\ requests_are_conversations new.
Proof.
  induction events as [|ev events IH]; intros self self' w w' trace k Hk.
  - simpl. intros [= <- <- <-]. exists []. split; [| constructor].
    symmetry. apply app_nil_r.
  - destruct ev as [user_message include_history |]; cbn [run_agent].
    + destruct (chat B self user_message include_history w)
        as [[self1 w1] r] eqn:Echat.
      destruct (run_agent B events self1 w1) as [[self2 w2] trace2] eqn:Erun.
      intros [= <- <- <-].
      destruct (chat_requests _ _ _ _ _ _ _ k Hk Echat) as (new1 & E1 & F1).
      assert (exists k1, List.map Message.role (conversation_history self1)
                         = turns k1) as [k1 Hk1].
      { destruct r as [e | response].
        - exists k. destruct (chat_failure B _ _ _ _ _ _ _ Echat) as [-> _].
          exact Hk.
        - exists (S k). rewrite (chat_success B _ _ _ _ _ _ _ Echat).
          rewrite List.map_app, Hk. apply turns_snoc. }
      destruct (IH _ _ _ _ _ k1 Hk1 Erun) as (new2 & E2 & F2).
      exists (new1 ++ new2). split.
      * rewrite E2, E1, <- app_assoc. reflexivity.
      * apply Forall_app. split; assumption.
    + destruct (run_agent B events (clear_history self) w)
        as [[self2 w2] trace2] eqn:Erun.
      intros [= <- <- <-].
      exact (IH (clear_history self) _ _ _ _ 0 eq_refl Erun).
Qed.

End RequestShape.

(** X2. Every request that an agent starting with an empty history sends
    to its provider, over any sequence of chats and clears, is a
    conversation of user and assistant turns followed by the new user
    message: it never holds a SYSTEM message, never is empty, and ends with
    the user's message. *)
Theorem requests_are_well_formed (B : Backend) (events : list AgentEvent)
    (self self' : BaseAgent) (w w' : World) (trace : list Outcome) :
  conversation_history self = [] ->
  run_agent B events self w = (self', w', trace) ->
  exists new,
    calls w' = calls w ++ new
    /\ Forall (fun c =>
                 match c with
                 | SendRequest _ messages =>
                     (exists k, List.map Message.role messages
                                = turns k ++ [USER])
                     /\ messages <> []
                     /\ (forall m, In m messages -> Message.role m <> SYSTEM)
                     /\ option_map Message.role (last messages) = Some USER
                 | InitializeClient _ => True
                 end) new.
Proof.
  intros Hempty Hrun.
  destruct (run_agent_requests B events self self' w w' trace 0) as
    (new & Hcalls & Hall); [rewrite Hempty; reflexivity | exact Hrun |].
  exists new. split; [exact Hcalls |].
  unfold requests_are_conversations in Hall.
  rewrite List.Forall_forall in *. intros c Hc. specialize (Hall c Hc).
  destruct c as [a | a messages]; [exact I |].
  destruct Hall as [k Hk]. split; [exists k; exact Hk |].
  split; [| split].
  - intros ->. destruct (turns k); discriminate.
  - intros m Hm Hsys. apply (in_map Message.role) in Hm.
    rewrite Hk, Hsys, in_app_iff in Hm. destruct Hm as [Hm | [Hm | []]].
    + exact (turns_no_system k Hm).
    + discriminate.
  - assert (last (List.map Message.role messages) = Some USER) as Hlast
      by (rewrite Hk; apply last_snoc).
    rewrite <- Hlast. clear. induction messages as [|m [|m' ms] IH];
      [reflexivity | reflexivity |].
    exact IH.
Qed.

Lemma requests_are_well_formed_witness :
  exists new,
    calls (snd (fst (run_agent (sample_backend 9)
                       [ChatCall "one" true; ChatCall "two" true]
                       sample_agent empty_world)))
    = calls empty_world ++ new
    /\ length new = 3.
Proof.
  destruct (requests_are_well_formed (sample_backend 9)
              [ChatCall "one" true; ChatCall "two" true]
              sample_agent _ empty_world _ _ eq_refl (triple_eta _))
    as (new & Hcalls & _).
  exists new. split; [exact Hcalls |].
  vm_compute in Hcalls. rewrite <- Hcalls. reflexivity.
Defined.

(** ** The orchestrator *)

Section AskExtras.

Variable B : Backend.
Variable settings : Settings.
Variable configs : list (string * RoleConfig.t).

Lemma single_prompts_of_chat (self self' : BaseAgent) (prompt : string)
    (w w' : World) (r : result AgentResponse.t) :
  chat B self prompt false w = (self', w', r) ->
  clock_reads w' = clock_reads w
  /\ exists new,
       calls w' = calls w ++ new /\ requests_are_single_prompts new.
Proof.
  intros Hchat.
  destruct (chat_effects B _ _ _ _ _ _ _ Hchat)
    as (_ & Hclock & Hsome & Hnone & _).
  split; [exact Hclock |].
  destruct (_client self) as [c|].
  - destruct (Hsome c eq_refl) as [_ ->]. eexists. split; [reflexivity |].
    repeat constructor. exists prompt. reflexivity.
  - destruct (Hnone eq_refl) as (new & -> & [-> | (a & ->)]);
      eexists; (split; [reflexivity |]); repeat constructor.
    exists prompt. reflexivity.
Qed.

(** What [ask] changes: the agent of the role asked, and nothing else of
    the orchestrator. *)
Lemma ask_effects (self self' : Orchestrator.t) (role : Role)
    (prompt : string) (include_history : bool) (w w' : World)
    (r : result AgentResponse.t) :
  Orchestrator.ask B settings configs self role prompt include_history w
  = (self', w', r) ->
  Orchestrator._workflows self' = Orchestrator._workflows self
  /\ Orchestrator.verbose self' = Orchestrator.verbose self
  /\ (forall other, other <> role ->
        Orchestrator._agents self' !! other
        = Orchestrator._agents self !! other)
  /\ clock_reads w' = clock_reads w
  /\ (include_history = false ->
      exists new,
        calls w' = calls w ++ new /\ requests_are_single_prompts new)
  /\ (forall response,
        r = inr response ->
        exists before agent,
          Orchestrator._agents self' !! role = Some agent
          /\ (forall old, Orchestrator._agents self !! role = Some old ->
                          before = conversation_history old)
          /\ (Orchestrator._agents self !! role = None -> before = [])
          /\ conversation_history agent
             = before
               ++ [new_message USER prompt;
                   new_message ASSISTANT (AgentResponse.content response)]).
Proof.
  unfold Orchestrator.ask, Orchestrator._get_agent.
  destruct (Orchestrator._agents self !! role) as [agent |] eqn:Eagent.
  - destruct (chat B agent prompt include_history w)
      as [[agent' w1] r1] eqn:Echat.
    intros [= <- <- <-]. simpl.
    split; [reflexivity |]. split; [reflexivity |].
    split; [intros other Hne; apply lookup_insert_ne; congruence |].
    destruct (chat_effects B _ _ _ _ _ _ _ Echat) as (_ & Hclock & _).
    split; [exact Hclock |].
    split.
    + intros ->. exact (proj2 (single_prompts_of_chat _ _ _ _ _ _ Echat)).
    + intros response ->. exists (conversation_history agent), agent'.
      split; [apply lookup_insert_eq |].
      split; [intros old [= <-]; reflexivity |].
      split; [discriminate |].
      exact (chat_success B _ _ _ _ _ _ _ Echat).
  - destruct (AgentFactory.create_by_role settings configs role None None None)
      as [e | agent] eqn:Ecreate.
    + intros [= <- <- <-].
      split; [reflexivity |]. split; [reflexivity |].
      split; [reflexivity |]. split; [reflexivity |].
      split; [| intros response [=]].
      intros _. exists []. split; [symmetry; apply app_nil_r | constructor].
    + simpl.
      destruct (chat B agent prompt include_history w)
        as [[agent' w1] r1] eqn:Echat.
      intros [= <- <- <-]. simpl.
      split; [reflexivity |]. split; [reflexivity |].
      split.
      { intros other Hne. rewrite insert_insert_eq.
        apply lookup_insert_ne. congruence. }
      destruct (chat_effects B _ _ _ _ _ _ _ Echat) as (_ & Hclock & _).
      split; [exact Hclock |].
      split.
      * intros ->. exact (proj2 (single_prompts_of_chat _ _ _ _ _ _ Echat)).
      * intros response ->. exists [], agent'.
        split; [apply lookup_insert_eq |].
        split; [intros old [=] |].
        split; [reflexivity |].
        rewrite (chat_success B _ _ _ _ _ _ _ Echat).
        assert (conversation_history agent = []) as ->; [| reflexivity].
        revert Ecreate. unfold AgentFactory.create_by_role.
        destruct (AgentFactory.get_role_config _ _); [discriminate |].
        destruct (AgentFactory.ROLE_PROVIDERS role); [| discriminate].
        destruct (AgentFactory.model_map settings role) as [[|] |];
          try discriminate.
        unfold AgentFactory.create_by_provider.
        destruct (AgentFactory.PROVIDER_AGENTS _); [| discriminate].
        intros [= <-]. reflexivity.
Qed.

End AskExtras.



Section WorkflowExtras.

Import Orchestrator.

Variable B : Backend.
Variable settings : Settings.
Variable configs : list (string * RoleConfig.t).
Variable context : list (string * string).

Lemma single_prompts_app (l l' : list Call) :
  requests_are_single_prompts l -> requests_are_single_prompts l' ->
  requests_are_single_prompts (l ++ l').
Proof. intros H H'. apply Forall_app. split; assumption. Qed.



Lemma step_names_fresh (steps : list WorkflowStep) :
  forall i j s, j < i -> ~ In (step_name j s) (step_names i steps).
Proof.
  induction steps as [|step rest IH]; intros i j s Hj; simpl; [tauto |].
  intros [H | H].
  - apply step_name_inj in H. lia.
  - exact (IH (S i) j s (Nat.lt_lt_succ_r _ _ Hj) H).
Qed.

Lemma step_names_NoDup (steps : list WorkflowStep) :
  forall i, List.NoDup (step_names i steps).
Proof.
  induction steps as [|step rest IH]; intros i; [constructor |].
  change (step_names i (step :: rest))
    with (step_name i step :: step_names (S i) rest).
  constructor.
  - apply step_names_fresh. lia.
  - apply IH.
Qed.

(** Every run of the loop goes through a prefix of the steps, all of which
    succeed, and then either ends or meets the step that raises. *)
Lemma run_steps_decompose (steps : list WorkflowStep) :
  forall i self self' w w' outs outs' failure,
    (forall j s, i <= j -> ~ In (step_name j s) (List.map fst outs)) ->
    run_steps B settings configs i steps context self w outs
    = (self', w', outs', failure) ->
    exists pre responses self1 w1,
      steps_succeed B settings configs context i pre self w outs
                    self1 w1 responses
      /\ outs' = outs ++ recorded i pre responses
      /\ match failure with
         | None => pre = steps /\ self1 = self' /\ w1 = w'
         | Some (j, name, e) =>
             exists step post,
               steps = pre ++ step :: post
               /\ j = i + length pre
               /\ name = step_name j step
               /\ run_step B settings configs self1 w1 step context outs'
                  = (self', w', inl e)
         end.
Proof.
  induction steps as [|step rest IH];
    intros i self self' w w' outs outs' failure Hfresh.
  - simpl. intros [= <- <- <- <-].
    exists [], [], self, w. split; [constructor |].
    split; [symmetry; apply app_nil_r | auto].
  - cbn [run_steps].
    destruct (run_step B settings configs self w step context outs)
      as [[self1 w1] [e | response]] eqn:Estep.
    + intros [= <- <- <- <-].
      exists [], [], self, w. split; [constructor |].
      split; [symmetry; apply app_nil_r |].
      exists step, rest. rewrite Nat.add_0_r.
      repeat split. exact Estep.
    + rewrite set_entry_fresh by (apply Hfresh; lia).
      intros Hrest.
      assert (forall j s, S i <= j ->
                ~ In (step_name j s)
                     (List.map fst (outs ++ [(step_name i step, response)])))
        as Hfresh'.
      { intros j s Hj. rewrite List.map_app, in_app_iff. simpl.
        intros [Hin | [Heq | []]].
        - apply (Hfresh j s); [lia | exact Hin].
        - apply step_name_inj in Heq. lia. }
      destruct (IH _ _ _ _ _ _ _ _ Hfresh' Hrest)
        as (pre & responses & self2 & w2 & Hpre & Houts & Hfail).
      exists (step :: pre), (response :: responses), self2, w2.
      split.
      { econstructor; [exact Estep |].
        rewrite set_entry_fresh by (apply Hfresh; lia). exact Hpre. }
      split.
      { rewrite Houts, <- app_assoc. reflexivity. }
      destruct failure as [[[j name] e] |].
      * destruct Hfail as (step' & post & -> & -> & -> & Hrun).
        exists step', post.
        replace (i + length (step :: pre)) with (S i + length pre)
          by (simpl; lia).
        repeat split. exact Hrun.
      * destruct Hfail as (-> & -> & ->). auto.
Qed.

End WorkflowExtras.



(** X5. Every run of a registered workflow ends completed or failed.
    Completed: every step is counted and there is no error. Failed: fewer
    steps than the workflow has are counted and there is exactly one
    error. In both cases the outputs hold one response for each of the
    counted steps and no other, under pairwise distinct keys, which are
    the names of the first counted steps in step order. *)
Theorem workflow_result_shape (B : Backend) (settings : Settings)
    (configs : list (string * RoleConfig.t))
    (self self' : Orchestrator.t) (workflow_name : string)
    (steps : list Orchestrator.WorkflowStep)
    (context : list (string * string)) (w w' : World)
    (result : Orchestrator.WorkflowResult) :
  Orchestrator._workflows self !! workflow_name = Some steps ->
  Orchestrator.run_workflow B settings configs self workflow_name context w
  = (self', w', result) ->
  List.map fst (Orchestrator.outputs result)
  = step_names 0 (firstn (Orchestrator.steps_completed result) steps)
  /\ length (Orchestrator.outputs result)
     = Orchestrator.steps_completed result
  /\ List.NoDup (List.map fst (Orchestrator.outputs result))
  /\ ((Orchestrator.status result = Orchestrator.COMPLETED
       /\ Orchestrator.steps_completed result = length steps
       /\ Orchestrator.errors result = [])
      \/ (Orchestrator.status result = Orchestrator.FAILED
          /\ Orchestrator.steps_completed result < length steps
          /\ exists step e,
               nth_error steps (Orchestrator.steps_completed result)
               = Some step
               /\ Orchestrator.errors result
                  = ["Step "
                     +:+ Orchestrator.step_name
                           (Orchestrator.steps_completed result) step
                     +:+ " failed: " +:+ exc_str e])).
Proof.
  intros Hlookup. unfold Orchestrator.run_workflow. rewrite Hlookup.
  unfold Orchestrator.read_clock.
  destruct (Orchestrator.run_steps B settings configs 0 steps context self _ [])
    as [[[self1 w1] outs] failure] eqn:Erun.
  destruct (run_steps_decompose B settings configs context _ _ _ _ _ _ _ _ _
              (fun j s _ (H : In (Orchestrator.step_name j s)
                                 (List.map fst []))
               => H) Erun)
    as (pre & responses & self2 & w2 & Hpre & Houts & Hfail).
  simpl in Houts. subst outs.
  pose proof (steps_succeed_length _ _ _ _ _ _ _ _ _ _ _ _ Hpre) as Hlen.
  assert (length (recorded 0 pre responses) = length pre) as Hrl.
  { rewrite <- (length_map fst), recorded_keys, step_names_length
      by exact Hlen. reflexivity. }
  destruct failure as [[[j name] e] |].
  - destruct Hfail as (step & post & -> & -> & -> & _).
    intros [= <- <- <-]. cbn.
    rewrite firstn_app, Nat.sub_diag, firstn_all, app_nil_r.
    rewrite recorded_keys by exact Hlen.
    split; [reflexivity |]. split; [exact Hrl |].
    split; [apply step_names_NoDup |].
    right. split; [reflexivity |].
    split; [rewrite length_app; simpl; lia |].
    exists step, e. split; [| reflexivity].
    rewrite nth_error_app2 by lia. rewrite Nat.sub_diag. reflexivity.
  - destruct Hfail as (-> & _ & _).
    intros [= <- <- <-]. cbn.
    rewrite firstn_all, recorded_keys by exact Hlen.
    split; [reflexivity |]. split; [exact Hrl |].
    split; [apply step_names_NoDup |].
    left. auto.
Qed.

Lemma workflow_result_shape_witness :
  length (Orchestrator.outputs
            (snd (Orchestrator.run_workflow (sample_backend 3)
                    default_settings _ROLE_CONFIGS (Orchestrator.new false)
                    "feature" [("requirement", "login")] empty_world)))
  = Orchestrator.steps_completed
      (snd (Orchestrator.run_workflow (sample_backend 3)
              default_settings _ROLE_CONFIGS (Orchestrator.new false)
              "feature" [("requirement", "login")] empty_world)).
Proof.
  refine (proj1 (proj2
            (workflow_result_shape (sample_backend 3) default_settings
               _ROLE_CONFIGS (Orchestrator.new false) _ "feature"
               Orchestrator.feature_workflow [("requirement", "login")]
               empty_world _ _ _ (triple_eta _)))).
  vm_compute. reflexivity.
Defined.

Section MoreWorkflowExtras.

Lemma last_combine {X Y} (l : list X) (l' : list Y) :
  length l = length l' ->
  option_map snd (last (combine l l')) = last l'.
Proof.
  revert l'. induction l as [|x l IH]; intros [|y l'] H;
    try discriminate; [reflexivity |].
  simpl in H. injection H as H. specialize (IH l' H).
  destruct l as [|x' l]; destruct l' as [|y' l']; try discriminate;
    [reflexivity |].
  exact IH.
Qed.

End MoreWorkflowExtras.

(** X6. When every step of a registered workflow succeeds, the run is
    completed with all steps counted, and its final output is the content
    of the response of the last step; a workflow without steps has no
    final output. *)
Theorem workflow_final_output (B : Backend) (settings : Settings)
    (configs : list (string * RoleConfig.t)) (self : Orchestrator.t)
    (workflow_name : string) (context : list (string * string)) (w : World)
    (steps : list Orchestrator.WorkflowStep)
    (self1 : Orchestrator.t) (w1 : World) (responses : list AgentResponse.t) :
  Orchestrator._workflows self !! workflow_name = Some steps ->
  steps_succeed B settings configs context 0 steps self
                (snd (Orchestrator.read_clock B w)) [] self1 w1 responses ->
  exists result w',
    Orchestrator.run_workflow B settings configs self workflow_name context w
    = (self1, w', result)
    /\ Orchestrator.status result = Orchestrator.COMPLETED
    /\ Orchestrator.steps_completed result = length steps
    /\ List.map snd (Orchestrator.outputs result) = responses
    /\ Orchestrator.final_output result
       = option_map AgentResponse.content (last responses)
    /\ (steps = [] -> Orchestrator.final_output result = None).
Proof.
  intros Hlookup Hsteps.
  destruct (workflow_completes B settings configs self workflow_name context
              w steps self1 w1 responses Hlookup Hsteps)
    as (result & w' & Hrun & _ & Hstatus & Hcount & Houts & _).
  pose proof (steps_succeed_length _ _ _ _ _ _ _ _ _ _ _ _ Hsteps) as Hlen.
  exists result, w'. split; [exact Hrun |]. split; [exact Hstatus |].
  split; [exact Hcount |].
  split; [rewrite Houts; apply recorded_values; exact Hlen |].
  assert (Orchestrator.final_output result
          = option_map AgentResponse.content (last responses)) as Hfinal.
  { unfold Orchestrator.final_output. rewrite Houts. unfold recorded.
    rewrite <- (last_combine (step_names 0 steps) responses)
      by (rewrite step_names_length; symmetry; exact Hlen).
    destruct (last (combine (step_names 0 steps) responses)) as [[k r] |];
      reflexivity. }
  split; [exact Hfinal |].
  intros ->. rewrite Hfinal. destruct responses; [reflexivity | discriminate].
Qed.

Lemma workflow_final_output_witness :
  exists result w' self',
    Orchestrator.run_workflow (sample_backend 9) default_settings
      _ROLE_CONFIGS (Orchestrator.new false) "review" [("code", "x = 1")]
      empty_world
    = (self', w', result)
    /\ Orchestrator.final_output result = Some "answer 3".
Proof.
  edestruct (workflow_final_output (sample_backend 9) default_settings
               _ROLE_CONFIGS (Orchestrator.new false) "review"
               [("code", "x = 1")] empty_world
               Orchestrator.review_workflow)
    as (result & w' & Hrun & _ & _ & _ & Hfinal & _).
  - vm_compute. reflexivity.
  - eapply succeed_cons; [vm_compute; reflexivity |].
    eapply succeed_cons; [vm_compute; reflexivity | apply succeed_nil].
  - exists result, w'. eexists. split; [exact Hrun | exact Hfinal].
Defined.

Section ConsultExtras.

Variable B : Backend.
Variable settings : Settings.
Variable configs : list (string * RoleConfig.t).

Lemma consult_loop_fail_fast (prompt : string) (pre : list Role) :
  forall self self' results w w' e,
    Orchestrator.consult_loop B settings configs self prompt pre results w
    = (self', w', inl e) ->
    forall post,
      Orchestrator.consult_loop B settings configs self prompt (pre ++ post)
                                results w
      = (self', w', inl e).
Proof.
  induction pre as [|role pre IH]; intros self self' results w w' e.
  - simpl. discriminate.
  - cbn [app Orchestrator.consult_loop].
    destruct (Orchestrator.ask B settings configs self role prompt false w)
      as [[self1 w1] [e1 | response]].
    + intros H post. exact H.
    + intros H post. exact (IH _ _ _ _ _ _ H post).
Qed.

Lemma consult_loop_keys (prompt : string) (roles : list Role) :
  forall self self' results results' w w',
    List.NoDup (List.map fst results ++ roles) ->
    Orchestrator.consult_loop B settings configs self prompt roles results w
    = (self', w', inr results') ->
    List.map fst results' = List.map fst results ++ roles.
Proof.
  induction roles as [|role roles IH];
    intros self self' results results' w w' Hnd.
  - simpl. intros [= <- <- <-]. symmetry. apply app_nil_r.
  - cbn [Orchestrator.consult_loop].
    destruct (Orchestrator.ask B settings configs self role prompt false w)
      as [[self1 w1] [e1 | response]]; [discriminate |].
    assert (list_find (fun kv => bool_decide (fst kv = role)) results = None)
      as ->.
    { apply list_find_None. apply List.Forall_forall. intros [k v] Hin Hk.
      apply bool_decide_unpack in Hk. simpl in Hk. subst k.
      apply List.NoDup_remove_2 in Hnd. apply Hnd.
      apply in_app_iff. left. apply (in_map fst) in Hin. exact Hin. }
    intros H. apply IH in H.
    + rewrite H, List.map_app. simpl. rewrite <- app_assoc. reflexivity.
    + rewrite List.map_app. simpl. rewrite <- app_assoc. exact Hnd.
Qed.

End ConsultExtras.

(** X7. [consult_team] asks the roles in order and stops at the first
    failure: the exception, the orchestrator and the calls made do not
    depend on the roles listed after the one that failed. When nothing
    fails and no role is listed twice, the result holds one response for
    each role, in the order of the list. *)
Theorem consult_team_fails_fast (B : Backend) (settings : Settings)
    (configs : list (string * RoleConfig.t)) (self : Orchestrator.t)
    (prompt : string) (w : World) :
  (forall pre post self' w' e,
     Orchestrator.consult_team B settings configs self prompt (Some pre) w
     = (self', w', inl e) ->
     Orchestrator.consult_team B settings configs self prompt
                               (Some (pre ++ post)) w
     = (self', w', inl e))
  /\ (forall roles self' w' results,
        List.NoDup roles ->
        Orchestrator.consult_team B settings configs self prompt
                                  (Some roles) w
        = (self', w', inr results) ->
        List.map fst results = roles)
  /\ Orchestrator.consult_team B settings configs self prompt None w
     = Orchestrator.consult_team B settings configs self prompt
         (Some [SENIOR_DEV; CODER; CODER_2; QA; BA; REVIEWER]) w.
Proof.
  split; [| split].
  - intros pre post self' w' e H.
    exact (consult_loop_fail_fast B settings configs prompt pre _ _ _ _ _ _ H
             post).
  - intros roles self' w' results Hnd H.
    exact (consult_loop_keys B settings configs prompt roles _ _ [] _ _ _
             Hnd H).
  - reflexivity.
Qed.

(** X8. [clear_context] empties the history of the agent of the given
    role, or of every agent when no role is given, and changes nothing
    else: the same roles have agents, with the same configuration and
    client, the other agents keep their history, and the workflows are
    untouched. Clearing twice is the same as clearing once. *)
Theorem clear_context_clears (self : Orchestrator.t) :
  (forall role r,
     Orchestrator._agents (Orchestrator.clear_context self (Some role)) !! r
     = if decide (r = role)
       then clear_history <$> (Orchestrator._agents self !! r)
       else Orchestrator._agents self !! r)
  /\ (forall r,
        Orchestrator._agents (Orchestrator.clear_context self None) !! r
        = clear_history <$> (Orchestrator._agents self !! r))
  /\ (forall o,
        Orchestrator._workflows (Orchestrator.clear_context self o)
        = Orchestrator._workflows self)
  /\ (forall a,
        conversation_history (clear_history a) = []
        /\ same_configuration (clear_history a) a
        /\ _client (clear_history a) = _client a)
  /\ (forall o,
        Orchestrator.clear_context (Orchestrator.clear_context self o) o
        = Orchestrator.clear_context self o).
Proof.
  split; [| split; [| split; [| split]]].
  - intros role r. unfold Orchestrator.clear_context.
    destruct (Orchestrator._agents self !! role) as [agent |] eqn:E; simpl.
    + destruct (decide (r = role)) as [-> | Hne].
      * rewrite lookup_insert_eq, E. reflexivity.
      * apply lookup_insert_ne. congruence.
    + destruct (decide (r = role)) as [-> | Hne]; [| reflexivity].
      rewrite E. reflexivity.
  - intros r. simpl. apply lookup_fmap.
  - intros [role |]; unfold Orchestrator.clear_context; [| reflexivity].
    destruct (Orchestrator._agents self !! role); reflexivity.
  - intros a. repeat split.
  - intros [role |]; unfold Orchestrator.clear_context.
    + destruct (Orchestrator._agents self !! role) as [agent |] eqn:E;
        simpl; [| rewrite E; reflexivity].
      rewrite lookup_insert_eq. unfold Orchestrator.with_agents. simpl.
      f_equal. rewrite insert_insert_eq. reflexivity.
    + unfold Orchestrator.with_agents. simpl. f_equal.
      rewrite <- map_fmap_compose. apply map_fmap_ext.
      intros r a _. reflexivity.
Qed.

(** X9. [register_workflow] makes the steps the workflow of that name,
    replacing an earlier registration without an error, and changes
    neither the other workflows nor the agents; and a registered workflow
    without steps completes at once, with no call to any provider. *)
Theorem register_workflow_overwrites (self : Orchestrator.t)
    (name : string) (steps : list Orchestrator.WorkflowStep) :
  Orchestrator._workflows (Orchestrator.register_workflow self name steps)
    !! name = Some steps
  /\ (forall other, other <> name ->
        Orchestrator._workflows
          (Orchestrator.register_workflow self name steps) !! other
        = Orchestrator._workflows self !! other)
  /\ Orchestrator._agents (Orchestrator.register_workflow self name steps)
     = Orchestrator._agents self
  /\ (forall earlier,
        Orchestrator.register_workflow
          (Orchestrator.register_workflow self name earlier) name steps
        = Orchestrator.register_workflow self name steps)
  /\ (forall B settings configs context w,
        exists result w',
          Orchestrator.run_workflow B settings configs
            (Orchestrator.register_workflow self name []) name context w
          = (Orchestrator.register_workflow self name [], w', result)
          /\ calls w' = calls w
          /\ Orchestrator.status result = Orchestrator.COMPLETED
          /\ Orchestrator.steps_completed result = 0
          /\ Orchestrator.outputs result = []
          /\ Orchestrator.errors result = []).
Proof.
  split; [| split; [| split; [| split]]].
  - apply lookup_insert_eq.
  - intros other Hne. apply lookup_insert_ne. congruence.
  - reflexivity.
  - intros earlier. unfold Orchestrator.register_workflow. simpl.
    f_equal. apply insert_insert_eq.
  - intros B settings configs context w.
    unfold Orchestrator.run_workflow.
    assert (Orchestrator._workflows
              (Orchestrator.register_workflow self name []) !! name
            = Some []) as -> by apply lookup_insert_eq.
    eexists. eexists. repeat split.
Qed.

(** ** The agent factory and the role registry *)

(** X10. With the registry of the six shipped roles, [create_by_role]
    fails exactly when the model configured for the role is empty, with
    the error of a missing model; otherwise it builds a fresh agent (no
    history, no client yet) of the class of the role's provider and with
    the configured model. A role that the registry does not hold fails
    with the unknown-role error before the model is looked at, and
    [create_by_provider] never fails. *)
Theorem create_by_role_outcomes (settings : Settings) (role : Role)
    (prompt : option string) (tokens : option Z) (temp : option Q) :
  (forall model_name,
     AgentFactory.model_map settings role = Some model_name ->
     (model_name = "" ->
      AgentFactory.create_by_role settings _ROLE_CONFIGS role prompt tokens
                                  temp
      = inl (mkExc ValueError
                   ("No model configured for role: "
                    +:+ AgentFactory.role_str role)))
     /\ (model_name <> "" ->
         exists agent,
           AgentFactory.create_by_role settings _ROLE_CONFIGS role prompt
                                       tokens temp
           = inr agent
           /\ AgentFactory.ROLE_PROVIDERS role = Some (agent_class agent)
           /\ model agent = model_name
           /\ conversation_history agent = []
           /\ _client agent = None))
  /\ (forall configs,
        assoc (role_value role) configs = None ->
        AgentFactory.create_by_role settings configs role prompt tokens temp
        = inl (mkExc ValueError ("Unknown role: " +:+ role_value role)))
  /\ (forall provider name text,
        exists agent,
          AgentFactory.create_by_provider settings provider name text
                                          tokens temp
          = inr agent
          /\ agent_class agent = provider
          /\ model agent = name
          /\ system_prompt agent = text
          /\ conversation_history agent = []).
Proof.
  split; [| split].
  - intros model_name Hmodel.
    assert (exists config, assoc (role_value role) _ROLE_CONFIGS = Some config)
      as [config Hconfig] by (destruct role; eexists; reflexivity).
    unfold AgentFactory.create_by_role, AgentFactory.get_role_config.
    rewrite Hconfig, Hmodel.
    split.
    + intros ->. destruct role; reflexivity.
    + intros Hne. destruct model_name as [|a m]; [congruence |].
      destruct role; eexists; repeat split.
  - intros configs Hnone.
    unfold AgentFactory.create_by_role, AgentFactory.get_role_config.
    rewrite Hnone. reflexivity.
  - intros provider name text. destruct provider; eexists; repeat split.
Qed.

(** X11. Registering a configuration under a key makes it the
    configuration of that key, for the string key and for the role whose
    value is the key, replacing an earlier one, and the other keys keep
    what they had. The shipped registry is what registering the six roles
    one after the other gives, and its keys are exactly the values of the
    roles: every role has a configuration, and any other key is an unknown
    role. *)
Theorem register_role_round_trip (registry : list (string * RoleConfig.t))
    (role_key : string) (config : RoleConfig.t) :
  Roles.get_role_config (Roles.register_role role_key config registry)
                        role_key
  = inr config
  /\ (forall role,
        role_value role = role_key ->
        AgentFactory.get_role_config
          (Roles.register_role role_key config registry) role
        = inr config)
  /\ (forall other,
        other <> role_key ->
        Roles.get_role_config (Roles.register_role role_key config registry)
                              other
        = Roles.get_role_config registry other)
  /\ (forall key,
        (exists shipped, Roles.get_role_config _ROLE_CONFIGS key = inr shipped)
        <-> (exists role, role_value role = key))
  /\ _ROLE_CONFIGS
     = Roles.register_role "reviewer" REVIEWER_CONFIG
         (Roles.register_role "ba" BA_CONFIG
            (Roles.register_role "qa" QA_CONFIG
               (Roles.register_role "coder_2" CODER_2_CONFIG
                  (Roles.register_role "coder" CODER_CONFIG
                     (Roles.register_role "senior_dev" SENIOR_DEV_CONFIG
                                          []))))).
Proof.
  split; [| split; [| split; [| split]]].
  - unfold Roles.get_role_config, Roles.register_role.
    rewrite assoc_set_entry. reflexivity.
  - intros role <-.
    unfold AgentFactory.get_role_config, Roles.register_role.
    rewrite assoc_set_entry. reflexivity.
  - intros other Hne. unfold Roles.get_role_config, Roles.register_role.
    assert (assoc other (set_entry role_key config registry)
            = assoc other registry) as ->; [| reflexivity].
    induction registry as [|[k v] registry IH]; simpl.
    + destruct (String.eqb_spec other role_key); [congruence | reflexivity].
    + destruct (String.eqb_spec role_key k) as [-> | Hk]; simpl.
      * destruct (String.eqb_spec other k); [congruence | reflexivity].
      * destruct (String.eqb_spec other k); [reflexivity | exact IH].
  - intros key. split.
    + intros [shipped H]. unfold Roles.get_role_config in H.
      unfold _ROLE_CONFIGS in H. cbn [assoc] in H.
      repeat match type of H with
             | context [String.eqb key ?k] =>
                 destruct (String.eqb_spec key k) as [-> | _]
             end;
        try discriminate;
        first [ exists SENIOR_DEV; reflexivity | exists CODER; reflexivity
              | exists CODER_2; reflexivity | exists QA; reflexivity
              | exists BA; reflexivity | exists REVIEWER; reflexivity ].
    + intros [role <-]. destruct role; eexists; reflexivity.
  - reflexivity.
Qed.

(** ** The file store: effects on the filesystem *)

Section EntryFacts.

Context {A : Type}.

Lemma assoc_set_entry_ne (k k' : string) (v : A) (l : list (string * A)) :
  k' <> k -> assoc k' (set_entry k v l) = assoc k' l.
Proof.
  intros Hne. induction l as [|[k0 v0] l IH]; simpl.
  - destruct (String.eqb_spec k' k); [congruence | reflexivity].
  - destruct (String.eqb_spec k k0) as [-> | Hk]; simpl.
    + destruct (String.eqb_spec k' k0); [congruence | reflexivity].
    + destruct (String.eqb_spec k' k0); [reflexivity | exact IH].
Qed.

Lemma assoc_del_entry_ne (k k' : string) (l : list (string * A)) :
  k' <> k -> assoc k' (del_entry k l) = assoc k' l.
Proof.
  intros Hne. unfold del_entry. induction l as [|[k0 v0] l IH]; simpl.
  - reflexivity.
  - destruct (String.eqb_spec k k0) as [-> | Hk]; simpl.
    + destruct (String.eqb_spec k' k0); [congruence | exact IH].
    + destruct (String.eqb_spec k' k0); [reflexivity | exact IH].
Qed.

Lemma assoc_del_entry (k : string) (l : list (string * A)) :
  assoc k (del_entry k l) = None.
Proof.
  unfold del_entry. induction l as [|[k0 v0] l IH]; simpl.
  - reflexivity.
  - destruct (String.eqb_spec k k0) as [-> | Hk]; simpl; [exact IH |].
    destruct (String.eqb_spec k k0); [congruence | exact IH].
Qed.

Lemma set_entry_same (k : string) (v : A) (l : list (string * A)) :
  assoc k l = Some v -> set_entry k v l = l.
Proof.
  induction l as [|[k0 v0] l IH]; simpl; [discriminate |].
  destruct (String.eqb_spec k k0) as [-> | Hk].
  - intros [= ->]. reflexivity.
  - intros H. rewrite (IH H). reflexivity.
Qed.

Lemma set_entry_twice (k : string) (v v' : A) (l : list (string * A)) :
  set_entry k v (set_entry k v' l) = set_entry k v l.
Proof.
  induction l as [|[k0 v0] l IH]; simpl.
  - rewrite String.eqb_refl. reflexivity.
  - destruct (String.eqb_spec k k0) as [-> | Hk]; simpl.
    + rewrite String.eqb_refl. reflexivity.
    + destruct (String.eqb_spec k k0); [congruence |].
      rewrite IH. reflexivity.
Qed.

End EntryFacts.

Section TreeFacts.

Import FS FileSystemTools.

Lemma diverges_nil_r (q : path) : diverges q [] = false.
Proof. destruct q; reflexivity. Qed.

Lemma diverges_app (q p rest : path) :
  diverges q p = true -> diverges q (p ++ rest) = true.
Proof.
  revert p. induction q as [|x q IH]; intros [|y p]; simpl;
    try discriminate.
  destruct (String.eqb x y); [apply IH | reflexivity].
Qed.

Lemma diverges_not_prefix (q p : path) :
  diverges q p = true -> forall rest, p <> q ++ rest.
Proof.
  revert p. induction q as [|x q IH]; intros [|y p]; simpl;
    try discriminate.
  destruct (String.eqb_spec x y) as [-> | Hne]; intros H rest Heq.
  - injection Heq as Heq. exact (IH p H rest Heq).
  - injection Heq as Heq _. congruence.
Qed.

Lemma diverges_removelast (q p : path) :
  diverges q p = true -> forall rest, removelast p <> q ++ rest.
Proof.
  revert p. induction q as [|x q IH]; intros [|y p]; simpl;
    try discriminate.
  destruct (String.eqb_spec x y) as [-> | Hne]; intros H rest.
  - destruct p as [|z p]; [rewrite diverges_nil_r in H; discriminate |].
    intros Heq. injection Heq as Heq. exact (IH (z :: p) H rest Heq).
  - destruct p as [|z p]; [discriminate |].
    intros Heq. injection Heq as Heq _. congruence.
Qed.

Lemma at_path_cons (full : path) (x y : string) (p : path)
    (upd : option node -> result (option node)) (n : node) :
  at_path full (x :: y :: p) upd n
  = match n with
    | File _ => inl (os_error NotADirectoryError full)
    | Dir r es =>
        match assoc x es with
        | None => inl (os_error FileNotFoundError full)
        | Some c =>
            match at_path full (y :: p) upd c with
            | inl e => inl e
            | inr c' => inr (Dir r (set_entry x c' es))
            end
        end
    end.
Proof. reflexivity. Qed.

(** An update at [p] changes nothing at a path that parts ways with
    [p]. *)
Lemma at_path_frame (full : path)
    (upd : option node -> result (option node)) (p : path) :
  forall n n' q,
    at_path full p upd n = inr n' ->
    diverges q p = true ->
    lookup n' q = lookup n q.
Proof.
  induction p as [|x p IH]; intros n n' q H Hdiv.
  - rewrite diverges_nil_r in Hdiv. discriminate.
  - destruct q as [|y q]; [discriminate |]. simpl in Hdiv.
    destruct p as [|x' p].
    + simpl in H. destruct n as [f | r es]; [discriminate |].
      destruct (String.eqb_spec y x) as [-> | Hne];
        [rewrite diverges_nil_r in Hdiv; discriminate |].
      destruct (upd (assoc x es)) as [e | [c |]]; [discriminate | |];
        injection H as <-; simpl.
      * rewrite assoc_set_entry_ne by exact Hne. reflexivity.
      * rewrite assoc_del_entry_ne by exact Hne. reflexivity.
    + rewrite at_path_cons in H. destruct n as [f | r es]; [discriminate |].
      destruct (assoc x es) as [c |] eqn:Hc; [| discriminate].
      destruct (at_path full (x' :: p) upd c) as [e | c'] eqn:Hat;
        [discriminate |].
      injection H as <-.
      change (lookup (Dir r (set_entry x c' es)) (y :: q))
        with (match assoc y (set_entry x c' es) with
              | Some c0 => lookup c0 q
              | None => None
              end).
      change (lookup (Dir r es) (y :: q))
        with (match assoc y es with
              | Some c0 => lookup c0 q
              | None => None
              end).
      destruct (String.eqb_spec y x) as [-> | Hne].
      * rewrite assoc_set_entry, Hc. exact (IH c c' q Hat Hdiv).
      * rewrite assoc_set_entry_ne by exact Hne. reflexivity.
Qed.

(** After a successful update at [p], what sits at [p] is what the update
    returned. *)
Lemma at_path_target (full : path)
    (upd : option node -> result (option node)) (p : path) :
  forall n n',
    at_path full p upd n = inr n' ->
    exists o, upd (lookup n p) = inr o
              /\ (p <> [] -> lookup n' p = o)
              /\ (forall c, o = Some c -> lookup n' p = Some c).
Proof.
  induction p as [|x p IH]; intros n n' H.
  - simpl in H. simpl. destruct (upd (Some n)) as [e | [c |]];
      try discriminate.
    injection H as <-. exists (Some c). repeat split; congruence.
  - destruct p as [|x' p].
    + simpl in H. destruct n as [f | r es]; [discriminate |].
      simpl.
      assert (match assoc x es with Some c => Some c | None => None end
              = assoc x es) as -> by (destruct (assoc x es); reflexivity).
      destruct (upd (assoc x es)) as [e | [c |]]; [discriminate | |];
        injection H as <-.
      * exists (Some c). simpl. rewrite assoc_set_entry. repeat split.
        intros c0 [= <-]. reflexivity.
      * exists None. simpl. rewrite assoc_del_entry. repeat split.
        discriminate.
    + rewrite at_path_cons in H. destruct n as [f | r es]; [discriminate |].
      destruct (assoc x es) as [c |] eqn:Hc; [| discriminate].
      destruct (at_path full (x' :: p) upd c) as [e | c'] eqn:Hat;
        [discriminate |].
      injection H as <-.
      destruct (IH c c' Hat) as (o & Hupd & Hne & Hsome).
      exists o.
      change (lookup (Dir r es) (x :: x' :: p))
        with (match assoc x es with
              | Some c0 => lookup c0 (x' :: p)
              | None => None
              end).
      change (lookup (Dir r (set_entry x c' es)) (x :: x' :: p))
        with (match assoc x (set_entry x c' es) with
              | Some c0 => lookup c0 (x' :: p)
              | None => None
              end).
      rewrite Hc, assoc_set_entry. split; [exact Hupd |].
      split; [intros _; apply Hne; discriminate | exact Hsome].
Qed.

(** A successful update at [p] found every ancestor of [p] to be a
    directory. *)
Lemma at_path_parent (full : path)
    (upd : option node -> result (option node)) (p : path) :
  forall n n',
    at_path full p upd n = inr n' ->
    p <> [] ->
    exists r es, lookup n (removelast p) = Some (Dir r es).
Proof.
  induction p as [|x p IH]; intros n n' H Hp; [congruence |].
  destruct p as [|x' p].
  - simpl in H. destruct n as [f | r es]; [discriminate |].
    exists r, es. reflexivity.
  - rewrite at_path_cons in H. destruct n as [f | r es]; [discriminate |].
    destruct (assoc x es) as [c |] eqn:Hc; [| discriminate].
    destruct (at_path full (x' :: p) upd c) as [e | c'] eqn:Hat;
      [discriminate |].
    destruct (IH c c' Hat) as (r' & es' & Hl); [discriminate |].
    exists r', es'.
    change (removelast (x :: x' :: p)) with (x :: removelast (x' :: p)).
    simpl lookup. rewrite Hc. exact Hl.
Qed.

(** [mkdir -p] changes nothing except at the path and its ancestors. *)
Lemma mkdir_node_frame (full : path) (p : path) :
  forall n n' q,
    mkdir_node full p n = inr n' ->
    (forall rest, p <> q ++ rest) ->
    lookup n' q = lookup n q.
Proof.
  induction p as [|x p IH]; intros n n' q H Hq.
  - destruct n as [f | r es]; simpl in H; [discriminate |].
    injection H as <-. reflexivity.
  - destruct n as [f | r es]; simpl in H; [discriminate |].
    destruct (mkdir_node full p
                (match assoc x es with Some c => c | None => Dir true [] end))
      as [e | c'] eqn:Hmk; [discriminate |].
    injection H as <-.
    destruct q as [|y q]; [exfalso; exact (Hq (x :: p) eq_refl) |].
    simpl.
    destruct (String.eqb_spec y x) as [-> | Hne].
    + rewrite assoc_set_entry.
      assert (forall rest, p <> q ++ rest) as Hq'.
      { intros rest Heq. apply (Hq rest). simpl. congruence. }
      rewrite (IH _ _ q Hmk Hq').
      destruct (assoc x es) as [c |]; [reflexivity |].
      destruct q as [|z q]; [exfalso; exact (Hq' p eq_refl) | reflexivity].
    + rewrite assoc_set_entry_ne by exact Hne. reflexivity.
Qed.

(** [mkdir -p] leaves a directory at the path, keeps every file, and
    doing it again changes nothing more. *)
Lemma mkdir_node_target (full : path) (p : path) :
  forall n n',
    mkdir_node full p n = inr n' ->
    exists r es, lookup n' p = Some (Dir r es).
Proof.
  induction p as [|x p IH]; intros n n' H.
  - destruct n as [f | r es]; simpl in H; [discriminate |].
    injection H as <-. exists r, es. reflexivity.
  - destruct n as [f | r es]; simpl in H; [discriminate |].
    destruct (mkdir_node full p
                (match assoc x es with Some c => c | None => Dir true [] end))
      as [e | c'] eqn:Hmk; [discriminate |].
    injection H as <-. simpl. rewrite assoc_set_entry.
    exact (IH _ _ Hmk).
Qed.

Lemma mkdir_node_keeps (full : path) (p : path) :
  forall n n' q c,
    mkdir_node full p n = inr n' ->
    lookup n q = Some c ->
    match c with
    | File _ => lookup n' q = Some c
    | Dir _ _ => exists r es, lookup n' q = Some (Dir r es)
    end.
Proof.
  induction p as [|x p IH]; intros n n' q c H Hl.
  - destruct n as [f | r es]; simpl in H; [discriminate |].
    injection H as <-. destruct c as [f | r' es']; [exact Hl |].
    exists r', es'. exact Hl.
  - destruct n as [f | r es]; simpl in H; [discriminate |].
    destruct (mkdir_node full p
                (match assoc x es with Some c => c | None => Dir true [] end))
      as [e | c'] eqn:Hmk; [discriminate |].
    injection H as <-.
    destruct q as [|y q].
    + simpl in Hl. injection Hl as <-. eexists. eexists. reflexivity.
    + simpl in Hl |- *.
      destruct (String.eqb_spec y x) as [-> | Hne].
      * rewrite assoc_set_entry.
        destruct (assoc x es) as [c0 |]; [| discriminate].
        exact (IH _ _ q c Hmk Hl).
      * rewrite assoc_set_entry_ne by exact Hne.
        destruct (assoc y es) as [c0 |]; [| discriminate].
        destruct c as [f | r' es']; [exact Hl |].
        exists r', es'. exact Hl.
Qed.

Lemma mkdir_node_again (full : path) (p : path) :
  forall n n',
    mkdir_node full p n = inr n' ->
    forall full', mkdir_node full' p n' = inr n'.
Proof.
  induction p as [|x p IH]; intros n n' H full'.
  - destruct n as [f | r es]; simpl in H; [discriminate |].
    injection H as <-. reflexivity.
  - destruct n as [f | r es]; simpl in H; [discriminate |].
    destruct (mkdir_node full p
                (match assoc x es with Some c => c | None => Dir true [] end))
      as [e | c'] eqn:Hmk; [discriminate |].
    injection H as <-. simpl. rewrite assoc_set_entry.
    rewrite (IH _ _ Hmk full'), set_entry_twice. reflexivity.
Qed.

(** [mkdir -p] of a directory that exists changes nothing. *)
Lemma mkdir_node_existing (full : path) (p : path) :
  forall n r es,
    lookup n p = Some (Dir r es) ->
    mkdir_node full p n = inr n.
Proof.
  induction p as [|x p IH]; intros n r es Hl.
  - simpl in Hl. injection Hl as ->. reflexivity.
  - destruct n as [f | r' es']; simpl in Hl; [discriminate |].
    simpl. destruct (assoc x es') as [c |] eqn:Hc; [| discriminate].
    rewrite (IH c r es Hl), (set_entry_same _ _ _ Hc). reflexivity.
Qed.

End TreeFacts.

Section StoreEffects.

Import FS FileSystemTools.

Variable workspace_root : path.

Lemma bind_reads {A B} (m : IO A) (k : A -> IO B) (fs : node) :
  fst (m fs) = fs ->
  (forall a, fst (k a fs) = fs) ->
  fst (bind m k fs) = fs.
Proof.
  intros Hm Hk. unfold bind. destruct (m fs) as [fs' [e | a]];
    simpl in Hm; subst fs'; [reflexivity | apply Hk].
Qed.

Lemma try_except_fst {A} (body : IO A) (handler : Exception -> A)
    (fs : node) :
  fst (try_except body handler fs) = fst (body fs).
Proof. unfold try_except. destruct (body fs) as [fs' [e | a]]; reflexivity. Qed.

Lemma for_each_reads {A B} (body : A -> B -> IO B) (fs : node) (l : list A) :
  (forall x acc, fst (body x acc fs) = fs) ->
  forall acc, fst (for_each l acc body fs) = fs.
Proof.
  intros Hbody. induction l as [|x l IH]; intros acc; [reflexivity |].
  simpl. apply bind_reads; [apply Hbody | exact IH].
Qed.

Lemma resolve_path_prefix (p : string) (full : path) :
  _resolve_path workspace_root p = inr full ->
  exists rest, full = workspace_root ++ rest.
Proof. exact (resolve_path_inside workspace_root p full). Qed.

Lemma write_file_run (p content : string) (full : path) (fs : node) :
  _resolve_path workspace_root p = inr full ->
  write_file workspace_root p content fs
  = match mkdir_node (removelast full) (removelast full) fs with
    | inl e => (fs, failed (exc_str e))
    | inr fs1 =>
        match snd (write_text full content fs1) with
        | inl e => (fs1, failed (exc_str e))
        | inr _ =>
            (fst (write_text full content fs1),
             mkOperationResult true
               ("Wrote " +:+ pretty (String.length content) +:+ " bytes to "
                +:+ p)
               (Some (PyPath.str_abs full)))
        end
    end.
Proof.
  intros Hres. unfold write_file, try_except, bind, lift, mkdir_parents,
    writing, ret.
  rewrite Hres.
  destruct (mkdir_node (removelast full) (removelast full) fs) as [e | fs1];
    [reflexivity |].
  unfold write_text, open_write, writing.
  destruct (at_path full full _ fs1) as [e | fs2]; reflexivity.
Qed.

(** What an operation that changes the filesystem leaves alone: every
    path that parts ways with the resolved target. *)
Lemma operations_frame (p : string) (full : path) (fs : node) (q : path) :
  _resolve_path workspace_root p = inr full ->
  diverges q full = true ->
  (forall content,
     lookup (fst (write_file workspace_root p content fs)) q = lookup fs q)
  /\ (forall content,
        lookup (fst (append_file workspace_root p content fs)) q
        = lookup fs q)
  /\ lookup (fst (delete_file workspace_root p fs)) q = lookup fs q
  /\ lookup (fst (create_directory workspace_root p fs)) q = lookup fs q.
Proof.
  intros Hres Hdiv.
  split; [| split; [| split]].
  - intros content. rewrite (write_file_run p content full fs Hres).
    destruct (mkdir_node (removelast full) (removelast full) fs)
      as [e | fs1] eqn:Hmk; [reflexivity |].
    pose proof (mkdir_node_frame _ _ _ _ q Hmk (diverges_removelast q full Hdiv))
      as Hfs1.
    unfold write_text, open_write, writing.
    destruct (at_path full full _ fs1) as [e | fs2] eqn:Hat; simpl;
      [exact Hfs1 |].
    rewrite (at_path_frame _ _ _ _ _ q Hat Hdiv). exact Hfs1.
  - intros content.
    unfold append_file, try_except, bind, lift, open_write, writing, ret.
    rewrite Hres.
    destruct (at_path full full _ fs) as [e | fs2] eqn:Hat; simpl;
      [reflexivity |].
    exact (at_path_frame _ _ _ _ _ q Hat Hdiv).
  - unfold delete_file, try_except, bind, lift, exists_, is_dir, reading,
      unlink, writing, ret.
    rewrite Hres.
    destruct (negb (bool_decide (is_Some (lookup fs full))));
      [reflexivity |].
    destruct (lookup fs full) as [[f | r es] |]; try reflexivity;
      (destruct (at_path full full _ fs) as [e | fs2] eqn:Hat; simpl;
       [reflexivity | exact (at_path_frame _ _ _ _ _ q Hat Hdiv)]).
  - unfold create_directory, try_except, bind, lift, mkdir_parents, writing,
      ret.
    rewrite Hres.
    destruct (mkdir_node full full fs) as [e | fs1] eqn:Hmk; simpl;
      [reflexivity |].
    exact (mkdir_node_frame _ _ _ _ q Hmk (diverges_not_prefix q full Hdiv)).
Qed.

End StoreEffects.

(** X12. No operation of the file store changes anything outside the
    workspace: whatever path it is given, a path of the filesystem that
    parts ways with the workspace root holds after [write_file],
    [append_file], [delete_file] and [create_directory] what it held
    before. *)
Theorem store_changes_stay_in_workspace (workspace_root : FS.path)
    (fs : FS.node) (q : FS.path) :
  diverges q workspace_root = true ->
  (forall p content,
     FS.lookup (fst (FileSystemTools.write_file workspace_root p content fs))
               q
     = FS.lookup fs q)
  /\ (forall p content,
        FS.lookup
          (fst (FileSystemTools.append_file workspace_root p content fs)) q
        = FS.lookup fs q)
  /\ (forall p,
        FS.lookup (fst (FileSystemTools.delete_file workspace_root p fs)) q
        = FS.lookup fs q)
  /\ (forall p,
        FS.lookup
          (fst (FileSystemTools.create_directory workspace_root p fs)) q
        = FS.lookup fs q).
Proof.
  intros Hdiv.
  assert (forall p,
            (exists full,
               FileSystemTools._resolve_path workspace_root p = inr full
               /\ diverges q full = true)
            \/ (exists e,
                  FileSystemTools._resolve_path workspace_root p = inl e))
    as Hcases.
  { intros p.
    destruct (FileSystemTools._resolve_path workspace_root p) as [e | full]
      eqn:Hres; [right; exists e; reflexivity |].
    left. exists full. split; [reflexivity |].
    destruct (resolve_path_prefix workspace_root p full Hres) as [rest ->].
    apply diverges_app. exact Hdiv. }
  split; [| split; [| split]]; intros p; try intros content;
    (destruct (Hcases p) as [(full & Hres & Hq) | (e & Hres)];
     [ destruct (operations_frame workspace_root p full fs q Hres Hq)
         as (Hw & Ha & Hd & Hc)
     | destruct (rejected_operations workspace_root p e fs Hres)
         as (_ & Hw & Ha & Hd & Hc) ]).
  - apply Hw.
  - rewrite Hw. reflexivity.
  - apply Ha.
  - rewrite Ha. reflexivity.
  - exact Hd.
  - rewrite Hd. reflexivity.
  - exact Hc.
  - rewrite Hc. reflexivity.
Qed.

Lemma store_changes_stay_in_workspace_witness :
  FS.lookup
    (fst (FileSystemTools.write_file ["srv"; "ws"] "../../srv/ws/../x" "data"
            (FS.Dir true
               [("srv", FS.Dir true [("x", FS.File (FS.mkFile "keep" true true))])])))
    ["srv"; "x"]
  = Some (FS.File (FS.mkFile "keep" true true)).
Proof.
  exact (proj1 (store_changes_stay_in_workspace ["srv"; "ws"]
                  (FS.Dir true
                     [("srv",
                       FS.Dir true
                         [("x", FS.File (FS.mkFile "keep" true true))])])
                  ["srv"; "x"] eq_refl)
               "../../srv/ws/../x" "data").
Defined.

(** X13. An operation that changes the filesystem changes it only at its
    target and the ancestors of the target: a path that parts ways with
    the resolved path of the operation holds afterwards what it held
    before, whether the operation succeeds or fails. *)
Theorem store_changes_only_the_target (workspace_root : FS.path)
    (p : string) (full : FS.path) (fs : FS.node) (q : FS.path) :
  FileSystemTools._resolve_path workspace_root p = inr full ->
  diverges q full = true ->
  (forall content,
     FS.lookup (fst (FileSystemTools.write_file workspace_root p content fs))
               q
     = FS.lookup fs q)
  /\ (forall content,
        FS.lookup
          (fst (FileSystemTools.append_file workspace_root p content fs)) q
        = FS.lookup fs q)
  /\ FS.lookup (fst (FileSystemTools.delete_file workspace_root p fs)) q
     = FS.lookup fs q
  /\ FS.lookup (fst (FileSystemTools.create_directory workspace_root p fs)) q
     = FS.lookup fs q.
Proof. exact (operations_frame workspace_root p full fs q). Qed.

Lemma store_changes_only_the_target_witness :
  FS.lookup
    (fst (FileSystemTools.delete_file ["srv"; "ws"] "notes.txt" sample_fs))
    ["srv"; "ws"; "src"; "main.py"]
  = FS.lookup sample_fs ["srv"; "ws"; "src"; "main.py"].
Proof.
  exact (proj1 (proj2 (proj2
           (store_changes_only_the_target ["srv"; "ws"] "notes.txt"
              ["srv"; "ws"; "notes.txt"] sample_fs
              ["srv"; "ws"; "src"; "main.py"] eq_refl eq_refl)))).
Defined.

(** X14. Reading never writes: [read_file], [list_directory],
    [search_files] and [grep] leave the filesystem exactly as it was, for
    every argument and every outcome. *)
Theorem reading_operations_change_nothing (workspace_root : FS.path)
    (fnmatch : string -> string -> bool) (fs : FS.node) :
  (forall p, fst (FileSystemTools.read_file workspace_root p fs) = fs)
  /\ (forall p, fst (FileSystemTools.list_directory workspace_root p fs) = fs)
  /\ (forall pattern p,
        fst (FileSystemTools.search_files workspace_root fnmatch pattern p fs)
        = fs)
  /\ (forall term p file_pattern,
        fst (FileSystemTools.grep workspace_root fnmatch term p file_pattern
                                  fs)
        = fs).
Proof.
  split; [| split; [| split]].
  - intros p. unfold FileSystemTools.read_file.
    rewrite try_except_fst.
    apply bind_reads; [reflexivity |]. intros full.
    apply bind_reads; [reflexivity |]. intros [|]; [| reflexivity].
    apply bind_reads; [reflexivity |]. intros [|]; [| reflexivity].
    apply bind_reads; reflexivity.
  - intros p. unfold FileSystemTools.list_directory.
    rewrite try_except_fst.
    apply bind_reads; [reflexivity |]. intros full.
    apply bind_reads; [reflexivity |]. intros [|]; [| reflexivity].
    apply bind_reads; [reflexivity |]. intros [|]; [| reflexivity].
    apply bind_reads; [reflexivity |]. intros names.
    apply for_each_reads. intros name items.
    apply bind_reads; [reflexivity |]. intros rel.
    apply bind_reads; [reflexivity |]. intros d.
    apply bind_reads; reflexivity.
  - intros pattern p. unfold FileSystemTools.search_files.
    rewrite try_except_fst.
    apply bind_reads; [reflexivity |]. intros full.
    apply bind_reads; [reflexivity |]. intros walk.
    apply bind_reads; [| reflexivity].
    apply for_each_reads. intros [[root dirs] files] matches.
    apply for_each_reads. intros filename matches'.
    destruct (fnmatch filename pattern); [| reflexivity].
    apply bind_reads; reflexivity.
  - intros term p file_pattern.
    unfold FileSystemTools.grep, FileSystemTools.grep_body.
    rewrite try_except_fst.
    apply bind_reads; [reflexivity |]. intros full.
    apply bind_reads; [reflexivity |]. intros walk.
    apply for_each_reads. intros [[root dirs] files] matches.
    apply for_each_reads. intros filename matches'.
    destruct (negb (fnmatch filename file_pattern)); reflexivity.
Qed.

(** ** The file store: what is found after an operation *)

Section StoreRoundTrips.

Import FS FileSystemTools.

Variable workspace_root : path.

Lemma removelast_not_prefix (p : path) :
  p <> [] -> forall rest, removelast p <> p ++ rest.
Proof.
  induction p as [|x p IH]; [congruence |]. intros _ rest.
  destruct p as [|y p]; [discriminate |].
  change (removelast (x :: y :: p)) with (x :: removelast (y :: p)).
  simpl. intros Heq. injection Heq as Heq.
  apply (IH ltac:(discriminate) rest). exact Heq.
Qed.

Lemma translate_newlines_plain (s : string) :
  no_carriage_return s -> translate_newlines s = s.
Proof.
  unfold no_carriage_return, has_char.
  induction s as [|a s IH]; [reflexivity |].
  cbn [list_ascii_of_string existsb translate_newlines].
  intros H. apply orb_false_elim in H as [Ha H].
  destruct (Ascii.eqb_spec a CR) as [-> | _];
    [rewrite Ascii.eqb_refl in Ha; discriminate |].
  rewrite (IH H). reflexivity.
Qed.

Lemma at_path_succeeds (full : path)
    (upd : option node -> result (option node)) (p : path) :
  forall n c o,
    p <> [] ->
    lookup n p = Some c ->
    upd (Some c) = inr o ->
    exists n', at_path full p upd n = inr n'.
Proof.
  induction p as [|x p IH]; intros n c o Hp Hl Hupd; [congruence |].
  destruct n as [f | r es]; [discriminate |].
  simpl in Hl. destruct (assoc x es) as [c0 |] eqn:Hc; [| discriminate].
  destruct p as [|x' p].
  - simpl in Hl. injection Hl as ->. simpl. rewrite Hc, Hupd.
    destruct o; eexists; reflexivity.
  - rewrite at_path_cons, Hc.
    destruct (IH c0 c o ltac:(discriminate) Hl Hupd) as [c' ->].
    eexists. reflexivity.
Qed.

Lemma read_file_of_file (p : string) (full : path) (fs : node) (f : file) :
  _resolve_path workspace_root p = inr full ->
  lookup fs full = Some (File f) ->
  f_readable f = true ->
  f_utf8 f = true ->
  read_file workspace_root p fs
  = (fs,
     mkOperationResult true
       ("Read " +:+ pretty (String.length (translate_newlines (f_data f)))
        +:+ " bytes from " +:+ p)
       (Some (translate_newlines (f_data f)))).
Proof.
  intros Hres Hl Hr Hu.
  unfold read_file, try_except, bind, lift, exists_, is_file, read_text,
    reading, open_read, ret.
  rewrite Hres. cbn beta iota.
  rewrite bool_decide_eq_true_2 by (rewrite Hl; eexists; reflexivity).
  cbn beta iota delta [negb]. rewrite Hl. cbn beta iota delta [negb].
  rewrite Hl, Hr, Hu. reflexivity.
Qed.

Lemma read_file_of_nothing (p : string) (full : path) (fs : node) :
  _resolve_path workspace_root p = inr full ->
  lookup fs full = None ->
  read_file workspace_root p fs = (fs, failed ("File not found: " +:+ p)).
Proof.
  intros Hres Hl.
  unfold read_file, try_except, bind, lift, exists_, reading, ret.
  rewrite Hres, Hl.
  rewrite bool_decide_eq_false_2 by (intros [c Hc]; discriminate).
  reflexivity.
Qed.

End StoreRoundTrips.

(** X15. What [write_file] wrote is what [read_file] reads: after a
    successful write, reading the same path succeeds and returns the
    written text with its line endings normalised (CR LF and CR become
    LF), so a text without carriage returns comes back unchanged. The
    file that is overwritten, if there is one, must be readable. *)
Theorem write_then_read (workspace_root : FS.path) (p content : string)
    (full : FS.path) (fs fs' : FS.node)
    (r : FileSystemTools.OperationResult) :
  FileSystemTools._resolve_path workspace_root p = inr full ->
  FileSystemTools.write_file workspace_root p content fs = (fs', r) ->
  FileSystemTools.success r = true ->
  (forall f, FS.lookup fs full = Some (FS.File f) -> FS.f_readable f = true) ->
  FileSystemTools.read_file workspace_root p fs'
  = (fs',
     FileSystemTools.mkOperationResult true
       ("Read "
        +:+ pretty (String.length (FS.translate_newlines content))
        +:+ " bytes from " +:+ p)
       (Some (FS.translate_newlines content)))
  /\ (no_carriage_return content -> FS.translate_newlines content = content).
Proof.
  intros Hres Hwrite Hok Hreadable.
  split; [| apply translate_newlines_plain].
  rewrite (write_file_run workspace_root p content full fs Hres) in Hwrite.
  destruct (FS.mkdir_node (removelast full) (removelast full) fs)
    as [e | fs1] eqn:Hmk;
    [injection Hwrite as <- <-; discriminate |].
  unfold FS.write_text, FS.open_write, FS.writing in Hwrite.
  destruct (FS.at_path full full _ fs1) as [e | fs2] eqn:Hat;
    simpl in Hwrite; injection Hwrite as <- <-; [discriminate |].
  destruct (at_path_target _ _ _ _ _ Hat) as (o & Hupd & _ & Htarget).
  assert (full <> []) as Hfull.
  { intros ->. simpl in Hupd.
    destruct fs as [f | rd es]; simpl in Hmk; [discriminate |].
    injection Hmk as <-. discriminate. }
  assert (FS.lookup fs1 full = FS.lookup fs full) as Hsame.
  { apply (mkdir_node_frame _ _ _ _ full Hmk).
    apply removelast_not_prefix. exact Hfull. }
  rewrite Hsame in Hupd.
  destruct (FS.lookup fs full) as [[f | rd es] |] eqn:Hold;
    [| discriminate |]; injection Hupd as <-.
  - apply (read_file_of_file workspace_root p full fs2 _ Hres
             (Htarget _ eq_refl)); [| reflexivity].
    exact (Hreadable f eq_refl).
  - apply (read_file_of_file workspace_root p full fs2 _ Hres
             (Htarget _ eq_refl)); reflexivity.
Qed.

Lemma write_then_read_witness :
  exists fs',
    FileSystemTools.read_file ["srv"; "ws"] "docs/a.txt" fs'
    = (fs',
       FileSystemTools.mkOperationResult true "Read 5 bytes from docs/a.txt"
                                         (Some "hello")).
Proof.
  eexists.
  refine (proj1 (write_then_read ["srv"; "ws"] "docs/a.txt" "hello"
                   ["srv"; "ws"; "docs"; "a.txt"] sample_fs _ _
                   eq_refl _ _ _)).
  - vm_compute. reflexivity.
  - reflexivity.
  - intros f. vm_compute. discriminate.
Defined.

(** X16. [delete_file] removes a file and nothing but a file: a path that
    holds nothing is reported as not found, a directory is refused with a
    pointer to [delete_project], and in both cases the filesystem is left
    as it was; a file is unlinked, after which the path holds nothing and
    reading it reports that the file is not found. *)
Theorem delete_file_outcomes (workspace_root : FS.path) (p : string)
    (full : FS.path) (fs : FS.node) :
  FileSystemTools._resolve_path workspace_root p = inr full ->
  FS.is_dir_node fs = true ->
  match FS.lookup fs full with
  | None =>
      FileSystemTools.delete_file workspace_root p fs
      = (fs, FileSystemTools.failed ("File not found: " +:+ p))
  | Some (FS.Dir _ _) =>
      FileSystemTools.delete_file workspace_root p fs
      = (fs,
         FileSystemTools.failed
           ("Use delete_project for directories: " +:+ p))
  | Some (FS.File _) =>
      exists fs',
        FileSystemTools.delete_file workspace_root p fs
        = (fs', FileSystemTools.mkOperationResult true ("Deleted " +:+ p)
                                                 None)
        /\ FS.lookup fs' full = None
        /\ FileSystemTools.read_file workspace_root p fs'
           = (fs', FileSystemTools.failed ("File not found: " +:+ p))
  end.
Proof.
  intros Hres Hroot.
  unfold FileSystemTools.delete_file, FS.try_except, FS.bind, FS.lift,
    FS.exists_, FS.is_dir, FS.reading, FS.unlink, FS.writing, FS.ret.
  rewrite Hres.
  destruct (FS.lookup fs full) as [[f | rd es] |] eqn:Hl.
  - rewrite bool_decide_eq_true_2 by (eexists; reflexivity). cbn [negb].
    assert (full <> []) as Hfull.
    { intros ->. simpl in Hl. injection Hl as ->. discriminate. }
    destruct (at_path_succeeds full
                (fun old =>
                   match old with
                   | Some (FS.File _) => inr None
                   | Some (FS.Dir _ _) =>
                       inl (FS.os_error IsADirectoryError full)
                   | None => inl (FS.os_error FileNotFoundError full)
                   end)
                full fs (FS.File f) None Hfull Hl eq_refl) as [fs' Hat].
    cbn beta iota. rewrite Hl. cbn beta iota. rewrite Hat.
    exists fs'. split; [reflexivity |].
    destruct (at_path_target _ _ _ _ _ Hat) as (o & Hupd & Hgone & _).
    rewrite Hl in Hupd. injection Hupd as <-.
    specialize (Hgone Hfull).
    split; [exact Hgone |].
    exact (read_file_of_nothing workspace_root p full fs' Hres Hgone).
  - rewrite bool_decide_eq_true_2 by (eexists; reflexivity).
    cbn beta iota delta [negb]. rewrite Hl. reflexivity.
  - rewrite bool_decide_eq_false_2 by (intros [c Hc]; discriminate).
    reflexivity.
Qed.

Lemma delete_file_outcomes_witness :
  exists fs',
    FileSystemTools.delete_file ["srv"; "ws"] "src/main.py" sample_fs
    = (fs', FileSystemTools.mkOperationResult true "Deleted src/main.py" None)
    /\ FS.lookup fs' ["srv"; "ws"; "src"; "main.py"] = None
    /\ FileSystemTools.read_file ["srv"; "ws"] "src/main.py" fs'
       = (fs', FileSystemTools.failed "File not found: src/main.py").
Proof.
  exact (delete_file_outcomes ["srv"; "ws"] "src/main.py"
           ["srv"; "ws"; "src"; "main.py"] sample_fs eq_refl eq_refl).
Defined.

Section DirectoryFacts.

Import FS FileSystemTools.

(** [mkdir -p] fails only on a file that sits at the path or at one of its
    ancestors. *)
Lemma mkdir_node_fails (full : path) (p : path) :
  forall n e,
    mkdir_node full p n = inl e ->
    exists pre rest f, p = pre ++ rest /\ lookup n pre = Some (File f).
Proof.
  induction p as [|x p IH]; intros n e H.
  - destruct n as [f | r es]; simpl in H; [| discriminate].
    exists [], [], f. split; reflexivity.
  - destruct n as [f | r es]; simpl in H.
    + exists [], (x :: p), f. split; reflexivity.
    + destruct (mkdir_node full p
                  (match assoc x es with Some c => c | None => Dir true [] end))
        as [e' | c'] eqn:Hmk; [| discriminate].
      destruct (IH _ _ Hmk) as (pre & rest & f & -> & Hl).
      exists (x :: pre), rest, f. split; [reflexivity |].
      simpl. destruct (assoc x es) as [c |]; [exact Hl |].
      destruct pre; simpl in Hl; discriminate.
Qed.

Lemma writing_at_path_cons (full : path)
    (upd : option node -> result (option node))
    (x y : string) (p : path) (r : bool) (es : list (string * node)) :
  fst (writing (at_path full (x :: y :: p) upd) (Dir r es))
  = match assoc x es with
    | None => Dir r es
    | Some c =>
        Dir r (set_entry x (fst (writing (at_path full (y :: p) upd) c)) es)
    end.
Proof.
  unfold writing. rewrite at_path_cons.
  destruct (assoc x es) as [c |] eqn:Hc; [| reflexivity].
  destruct (at_path full (y :: p) upd c) as [e | c']; simpl;
    [| reflexivity].
  rewrite (set_entry_same _ _ _ Hc). reflexivity.
Qed.

End DirectoryFacts.

(** X17. [create_directory] succeeds unless a file sits at the path or at
    one of its ancestors, in which case nothing changes. When it succeeds
    a directory is at the path, every file of the filesystem is kept with
    its content, every path that held something still does, a directory
    that existed already leaves the filesystem as it was, and creating
    the directory a second time succeeds and changes nothing. *)
Theorem create_directory_is_idempotent (workspace_root : FS.path)
    (p : string) (full : FS.path) (fs fs' : FS.node)
    (r : FileSystemTools.OperationResult) :
  FileSystemTools._resolve_path workspace_root p = inr full ->
  FileSystemTools.create_directory workspace_root p fs = (fs', r) ->
  (FileSystemTools.success r = true ->
   r = FileSystemTools.mkOperationResult true ("Created directory: " +:+ p)
                                          None
   /\ (exists rd es, FS.lookup fs' full = Some (FS.Dir rd es))
   /\ (forall q f,
         FS.lookup fs q = Some (FS.File f) ->
         FS.lookup fs' q = Some (FS.File f))
   /\ (forall q, is_Some (FS.lookup fs q) -> is_Some (FS.lookup fs' q))
   /\ (forall rd es, FS.lookup fs full = Some (FS.Dir rd es) -> fs' = fs)
   /\ FileSystemTools.create_directory workspace_root p fs' = (fs', r))
  /\ (FileSystemTools.success r = false ->
      fs' = fs
      /\ exists pre rest f,
           full = pre ++ rest /\ FS.lookup fs pre = Some (FS.File f)).
Proof.
  intros Hres Hrun.
  unfold FileSystemTools.create_directory, FS.try_except, FS.bind, FS.lift,
    FS.mkdir_parents, FS.writing, FS.ret in *.
  rewrite Hres in *. cbn beta iota in *.
  destruct (FS.mkdir_node full full fs) as [e | fs1] eqn:Hmk;
    injection Hrun as <- <-.
  - split; [discriminate |]. intros _. split; [reflexivity |].
    exact (mkdir_node_fails _ _ _ _ Hmk).
  - split; [| discriminate]. intros _.
    split; [reflexivity |].
    split; [exact (mkdir_node_target _ _ _ _ Hmk) |].
    split; [intros q f Hq; exact (mkdir_node_keeps _ _ _ _ q _ Hmk Hq) |].
    split.
    { intros q [c Hq]. pose proof (mkdir_node_keeps _ _ _ _ q _ Hmk Hq) as H.
      destruct c as [f | rd es]; [eexists; exact H |].
      destruct H as (rd' & es' & H). eexists. exact H. }
    split.
    { intros rd es Hl. rewrite (mkdir_node_existing full full fs rd es Hl) in Hmk.
      congruence. }
    rewrite (mkdir_node_again _ _ _ _ Hmk full). reflexivity.
Qed.

Lemma create_directory_is_idempotent_witness :
  FileSystemTools.create_directory ["srv"; "ws"] "a/b"
    (fst (FileSystemTools.create_directory ["srv"; "ws"] "a/b" sample_fs))
  = (fst (FileSystemTools.create_directory ["srv"; "ws"] "a/b" sample_fs),
     snd (FileSystemTools.create_directory ["srv"; "ws"] "a/b" sample_fs)).
Proof.
  exact (proj2 (proj2 (proj2 (proj2 (proj2 (proj1
           (create_directory_is_idempotent ["srv"; "ws"] "a/b"
              ["srv"; "ws"; "a"; "b"] sample_fs _ _ eq_refl
              (surjective_pairing _))
           eq_refl)))))).
Defined.

Section AppendFacts.

Import FS FileSystemTools.

Lemma open_write_update (append : bool) (p : path) (content : string) :
  open_write append p content
  = writing (at_path p p (write_update append p content)).
Proof. reflexivity. Qed.

Lemma at_path_creates (full : path)
    (upd : option node -> result (option node)) (p : path) :
  forall n r es o,
    p <> [] ->
    lookup n (removelast p) = Some (Dir r es) ->
    upd (lookup n p) = inr o ->
    exists n', at_path full p upd n = inr n'.
Proof.
  induction p as [|x p IH]; intros n r es o Hp Hparent Hupd; [congruence |].
  destruct p as [|y p].
  - simpl in Hparent. injection Hparent as ->. simpl in Hupd |- *.
    assert (match assoc x es with Some c => Some c | None => None end
            = assoc x es) as Heq by (destruct (assoc x es); reflexivity).
    rewrite Heq in Hupd. rewrite Hupd. destruct o; eexists; reflexivity.
  - change (removelast (x :: y :: p)) with (x :: removelast (y :: p))
      in Hparent.
    destruct n as [f | r' es']; [discriminate |].
    simpl in Hparent, Hupd.
    rewrite at_path_cons.
    destruct (assoc x es') as [c |]; [| discriminate].
    destruct (IH c r es o ltac:(discriminate) Hparent Hupd) as [c' ->].
    eexists. reflexivity.
Qed.

Lemma at_path_no_parent (full : path)
    (upd : option node -> result (option node)) (p : path) :
  forall n,
    lookup n (removelast p) = None ->
    exists e, at_path full p upd n = inl e.
Proof.
  induction p as [|x p IH]; intros n Hparent; [discriminate |].
  destruct p as [|y p]; [discriminate |].
  change (removelast (x :: y :: p)) with (x :: removelast (y :: p))
    in Hparent.
  rewrite at_path_cons.
  destruct n as [f | r es]; [eexists; reflexivity |].
  simpl in Hparent.
  destruct (assoc x es) as [c |]; [| eexists; reflexivity].
  destruct (IH c Hparent) as [e ->]. eexists. reflexivity.
Qed.

(** Appending [a] and then [b] leaves the tree that appending [a +:+ b]
    leaves, whether the path can be written or not. *)
Lemma append_twice (full : path) (a b : string) (p : path) :
  forall n,
    fst (writing (at_path full p (write_update true full b))
           (fst (writing (at_path full p (write_update true full a)) n)))
    = fst (writing (at_path full p (write_update true full (a +:+ b))) n).
Proof.
  induction p as [|x p IH]; intros n.
  - destruct n as [f | r es]; [| reflexivity].
    unfold writing. simpl. rewrite string_app_assoc. reflexivity.
  - destruct p as [|y p].
    + destruct n as [f | r es]; [reflexivity |].
      unfold writing. simpl.
      destruct (assoc x es) as [[f | r' es'] |] eqn:Hx; simpl;
        rewrite ?Hx; simpl; try reflexivity.
      * rewrite assoc_set_entry. simpl.
        rewrite set_entry_twice, string_app_assoc. reflexivity.
      * rewrite assoc_set_entry. simpl.
        rewrite set_entry_twice. reflexivity.
    + destruct n as [f | r es]; [reflexivity |].
      rewrite !(writing_at_path_cons full _ x y p r es).
      destruct (assoc x es) as [c |] eqn:Hx.
      * rewrite writing_at_path_cons, assoc_set_entry, set_entry_twice, IH.
        reflexivity.
      * rewrite writing_at_path_cons, Hx. reflexivity.
Qed.

End AppendFacts.

(** X18. [append_file] adds the text at the end of an existing file and
    keeps what the file held; it creates the file when only the file is
    missing, but, unlike [write_file], it creates no directory: with a
    missing parent it fails and changes nothing. Appending one text and
    then another leaves the filesystem that appending both at once
    leaves. *)
Theorem append_file_appends (workspace_root : FS.path) (p : string)
    (full : FS.path) (fs : FS.node) :
  FileSystemTools._resolve_path workspace_root p = inr full ->
  FS.is_dir_node fs = true ->
  (forall f content,
     FS.lookup fs full = Some (FS.File f) ->
     exists fs',
       FileSystemTools.append_file workspace_root p content fs
       = (fs',
          FileSystemTools.mkOperationResult true
            ("Appended " +:+ pretty (String.length content) +:+ " bytes to "
             +:+ p)
            None)
       /\ FS.lookup fs' full
          = Some (FS.File (FS.mkFile (FS.f_data f +:+ content) (FS.f_utf8 f)
                                     (FS.f_readable f))))
  /\ (forall rd es content,
        FS.lookup fs full = None ->
        FS.lookup fs (removelast full) = Some (FS.Dir rd es) ->
        exists fs',
          FileSystemTools.append_file workspace_root p content fs
          = (fs',
             FileSystemTools.mkOperationResult true
               ("Appended " +:+ pretty (String.length content)
                +:+ " bytes to " +:+ p)
               None)
          /\ FS.lookup fs' full
             = Some (FS.File (FS.mkFile content true true)))
  /\ (forall content,
        FS.lookup fs (removelast full) = None ->
        fst (FileSystemTools.append_file workspace_root p content fs) = fs
        /\ FileSystemTools.success
             (snd (FileSystemTools.append_file workspace_root p content fs))
           = false)
  /\ (forall a b,
        fst (FileSystemTools.append_file workspace_root p b
               (fst (FileSystemTools.append_file workspace_root p a fs)))
        = fst (FileSystemTools.append_file workspace_root p (a +:+ b) fs)).
Proof.
  intros Hres Hroot.
  assert (forall content n,
            FileSystemTools.append_file workspace_root p content n
            = match FS.at_path full full (write_update true full content) n
              with
              | inl e => (n, FileSystemTools.failed (exc_str e))
              | inr n' =>
                  (n',
                   FileSystemTools.mkOperationResult true
                     ("Appended " +:+ pretty (String.length content)
                      +:+ " bytes to " +:+ p)
                     None)
              end) as Hrun.
  { intros content n.
    unfold FileSystemTools.append_file, FS.try_except, FS.bind, FS.lift,
      FS.ret.
    rewrite Hres, open_write_update. unfold FS.writing.
    destruct (FS.at_path full full _ n); reflexivity. }
  split; [| split; [| split]].
  - intros f content Hl.
    assert (full <> []) as Hfull.
    { intros ->. simpl in Hl. injection Hl as ->. discriminate. }
    destruct (at_path_succeeds full (write_update true full content) full fs
                (FS.File f) _ Hfull Hl eq_refl) as [fs' Hat].
    exists fs'. rewrite Hrun, Hat. split; [reflexivity |].
    destruct (at_path_target _ _ _ _ _ Hat) as (o & Hupd & _ & Htarget).
    rewrite Hl in Hupd. injection Hupd as <-.
    exact (Htarget _ eq_refl).
  - intros rd es content Hl Hparent.
    assert (full <> []) as Hfull by (intros ->; discriminate).
    destruct (at_path_creates full (write_update true full content) full fs
                rd es
                (Some (FS.File (FS.mkFile content true true)))
                Hfull Hparent) as [fs' Hat];
      [rewrite Hl; reflexivity |].
    exists fs'. rewrite Hrun, Hat. split; [reflexivity |].
    destruct (at_path_target _ _ _ _ _ Hat) as (o & Hupd & _ & Htarget).
    rewrite Hl in Hupd. injection Hupd as <-.
    exact (Htarget _ eq_refl).
  - intros content Hparent. rewrite Hrun.
    destruct (at_path_no_parent full (write_update true full content) full fs
                Hparent) as [e ->].
    split; reflexivity.
  - intros a b. rewrite !Hrun.
    pose proof (append_twice full a b full fs) as H.
    unfold FS.writing in H.
    destruct (FS.at_path full full (write_update true full a) fs)
      as [e1 | fs1]; simpl in H |- *;
      destruct (FS.at_path full full (write_update true full b) _)
        as [e2 | fs2]; simpl in H |- *;
      destruct (FS.at_path full full (write_update true full (a +:+ b)) fs)
        as [e3 | fs3]; simpl in H |- *; exact H.
Qed.

Lemma append_file_appends_witness :
  fst (FileSystemTools.append_file ["srv"; "ws"] "src/main.py" "b"
         (fst (FileSystemTools.append_file ["srv"; "ws"] "src/main.py" "a"
                 sample_fs)))
  = fst (FileSystemTools.append_file ["srv"; "ws"] "src/main.py" "ab"
           sample_fs).
Proof.
  exact (proj2 (proj2 (proj2
           (append_file_appends ["srv"; "ws"] "src/main.py"
              ["srv"; "ws"; "src"; "main.py"] sample_fs eq_refl eq_refl)))
           "a" "b").
Defined.

(** ** The listings *)

Section SortFacts.

Import FileSystemTools.

Lemma ascii_compare_lt (a b : ascii) :
  Ascii.compare a b = Lt <-> (N_of_ascii a < N_of_ascii b)%N.
Proof. unfold Ascii.compare. apply N.compare_lt_iff. Qed.

Lemma string_ltb_trans (a : string) :
  forall b c,
    String.ltb a b = true -> String.ltb b c = true -> String.ltb a c = true.
Proof.
  unfold String.ltb.
  induction a as [|x a IH]; intros [|y b] [|z c]; simpl;
    try discriminate; try reflexivity.
  destruct (Ascii.compare x y) eqn:Hxy; try discriminate.
  - apply Ascii.compare_eq_iff in Hxy. subst y.
    destruct (Ascii.compare x z) eqn:Hxz; try discriminate;
      [apply IH | reflexivity].
  - destruct (Ascii.compare y z) eqn:Hyz; try discriminate.
    + apply Ascii.compare_eq_iff in Hyz. subst z. rewrite Hxy. reflexivity.
    + apply ascii_compare_lt in Hxy, Hyz.
      assert (Ascii.compare x z = Lt) as ->; [| reflexivity].
      apply ascii_compare_lt. exact (N.lt_trans _ _ _ Hxy Hyz).
Qed.

Lemma string_ltb_cases (a b : string) :
  String.ltb a b = false -> a = b \/ String.ltb b a = true.
Proof.
  unfold String.ltb. rewrite (String.compare_antisym b a).
  destruct (String.compare a b) eqn:H; try discriminate; intros _.
  - left. apply String.compare_eq_iff. exact H.
  - right. reflexivity.
Qed.

Lemma string_ltb_irrefl (a : string) : String.ltb a a = false.
Proof.
  unfold String.ltb.
  assert (String.compare a a = Eq) as ->; [| reflexivity].
  induction a as [|x a IH]; [reflexivity |]. simpl.
  unfold Ascii.compare. rewrite N.compare_refl. exact IH.
Qed.

Lemma string_ltb_asym (a b : string) :
  String.ltb a b = true -> String.ltb b a = false.
Proof.
  intros H. destruct (String.ltb b a) eqn:E; [| reflexivity].
  pose proof (string_ltb_trans _ _ _ H E) as Haa.
  rewrite string_ltb_irrefl in Haa. discriminate.
Qed.

Lemma not_after_trans (a b c : string) :
  not_after a b -> not_after b c -> not_after a c.
Proof.
  unfold not_after. intros Hab Hbc.
  destruct (String.ltb c a) eqn:Hca; [| reflexivity].
  destruct (string_ltb_cases _ _ Hab) as [-> | Hlt]; [congruence |].
  pose proof (string_ltb_trans _ _ _ Hca Hlt) as H. congruence.
Qed.

Lemma insert_sorted_perm (x : string) (l : list string) :
  Permutation (insert_sorted x l) (x :: l).
Proof.
  induction l as [|y l IH]; simpl; [reflexivity |].
  destruct (String.ltb x y); [reflexivity |].
  rewrite IH. apply perm_swap.
Qed.

Lemma sorted_perm (l : list string) : Permutation (sorted l) l.
Proof.
  induction l as [|x l IH]; [reflexivity |]. unfold sorted. simpl.
  rewrite insert_sorted_perm. apply perm_skip. exact IH.
Qed.

Lemma insert_sorted_sorted (x : string) (l : list string) :
  StronglySorted not_after l -> StronglySorted not_after (insert_sorted x l).
Proof.
  induction l as [|y l IH]; intros Hs; simpl.
  - constructor; constructor.
  - inversion Hs as [| y' l' Hl Hy]; subst.
    destruct (String.ltb x y) eqn:Hxy.
    + constructor; [exact Hs |].
      assert (not_after x y) as Hle by exact (string_ltb_asym _ _ Hxy).
      constructor; [exact Hle |].
      apply List.Forall_forall. intros z Hz.
      rewrite List.Forall_forall in Hy.
      exact (not_after_trans _ _ _ Hle (Hy z Hz)).
    + constructor; [exact (IH Hl) |].
      apply List.Forall_forall. intros z Hz.
      apply (Permutation_in _ (insert_sorted_perm x l)) in Hz.
      destruct Hz as [<- | Hz]; [exact Hxy |].
      rewrite List.Forall_forall in Hy. exact (Hy z Hz).
Qed.

Lemma sorted_sorted (l : list string) : StronglySorted not_after (sorted l).
Proof.
  induction l as [|x l IH]; [constructor |].
  unfold sorted. simpl. apply insert_sorted_sorted. exact IH.
Qed.

Lemma In_sorted (x : string) (l : list string) : In x (sorted l) <-> In x l.
Proof.
  split; apply Permutation_in; [| symmetry]; apply sorted_perm.
Qed.

End SortFacts.

Section ListingFacts.

Import FS FileSystemTools.

Variable workspace_root : path.

Lemma for_each_appends {A B} (g : A -> B) (body : A -> list B -> IO (list B))
    (fs : node) (l : list A) :
  (forall x acc, In x l -> body x acc fs = (fs, inr (acc ++ [g x]))) ->
  forall acc, for_each l acc body fs = (fs, inr (acc ++ List.map g l)).
Proof.
  induction l as [|x l IH]; intros Hbody acc.
  - simpl. rewrite app_nil_r. reflexivity.
  - cbn [for_each]. unfold bind at 1.
    rewrite (Hbody x acc (or_introl eq_refl)).
    rewrite IH by (intros y acc' Hy; apply Hbody; right; exact Hy).
    simpl. rewrite <- app_assoc. reflexivity.
Qed.

Lemma rel_str_below (rest : path) :
  rel_str workspace_root (workspace_root ++ rest)
  = inr (PyPath.str_rel rest).
Proof.
  unfold rel_str.
  rewrite (proj2 (relative_to_Some (workspace_root ++ rest) workspace_root
                    rest) eq_refl).
  reflexivity.
Qed.

Lemma lookup_entry (fs : node) (full : path) (r : bool)
    (es : list (string * node)) (name : string) :
  lookup fs full = Some (Dir r es) ->
  lookup fs (full ++ [name]) = assoc name es.
Proof.
  intros Hl. rewrite lookup_app, Hl. simpl.
  destruct (assoc name es); reflexivity.
Qed.

Lemma In_keys_assoc {A} (k : string) (l : list (string * A)) :
  In k (List.map fst l) -> exists v, assoc k l = Some v.
Proof.
  intros Hin. destruct (assoc k l) as [v |] eqn:E; [exists v; reflexivity |].
  apply assoc_None in E. contradiction.
Qed.

End ListingFacts.

(** X19. For a readable directory of the workspace, [list_directory]
    returns one entry for each name in the directory, ordered by name;
    the entry carries the path relative to the workspace root, tells a
    directory from a file, and gives the size of a file and 0 for a
    directory. The filesystem is not changed. *)
Theorem list_directory_lists_every_entry (workspace_root : FS.path)
    (p : string) (rest : FS.path) (fs : FS.node)
    (es : list (string * FS.node)) :
  FileSystemTools._resolve_path workspace_root p
  = inr (workspace_root ++ rest) ->
  FS.lookup fs (workspace_root ++ rest) = Some (FS.Dir true es) ->
  exists items,
    FileSystemTools.list_directory workspace_root p fs = (fs, items)
    /\ List.map FileSystemTools.info_name items
       = FileSystemTools.sorted (List.map fst es)
    /\ Permutation (List.map FileSystemTools.info_name items)
                   (List.map fst es)
    /\ StronglySorted not_after (List.map FileSystemTools.info_name items)
    /\ forall item,
         In item items ->
         exists c,
           FS.lookup fs (workspace_root ++ rest
                         ++ [FileSystemTools.info_name item])
           = Some c
           /\ item = entry_info rest (FileSystemTools.info_name item) c.
Proof.
  intros Hres Hl.
  pose (g := fun name =>
               match assoc name es with
               | Some c => entry_info rest name c
               | None => entry_info rest name (FS.Dir true [])
               end).
  assert (forall name, FileSystemTools.info_name (g name) = name) as Hname.
  { intros name. unfold g. destruct (assoc name es); reflexivity. }
  assert (List.map FileSystemTools.info_name
            (List.map g (FileSystemTools.sorted (List.map fst es)))
          = FileSystemTools.sorted (List.map fst es)) as Hnames.
  { rewrite List.map_map. rewrite (List.map_ext _ (fun x => x) Hname).
    apply List.map_id. }
  exists (List.map g (FileSystemTools.sorted (List.map fst es))).
  split; [| split; [exact Hnames | split; [| split]]].
  - unfold FileSystemTools.list_directory, FS.try_except, FS.bind at 1,
      FS.lift.
    rewrite Hres.
    unfold FS.bind at 1, FS.exists_, FS.reading at 1. rewrite Hl.
    rewrite bool_decide_eq_true_2 by (eexists; reflexivity).
    cbn [negb].
    unfold FS.bind at 1, FS.is_dir at 1, FS.reading at 1. rewrite Hl.
    cbn [negb].
    unfold FS.bind at 1, FS.iterdir, FS.reading at 1. rewrite Hl.
    rewrite (for_each_appends g); [reflexivity |].
    intros name acc Hin. apply In_sorted, In_keys_assoc in Hin as [c Hc].
    unfold FS.bind, FS.lift, FS.is_dir, FS.file_size, FS.reading, FS.ret.
    rewrite <- app_assoc, rel_str_below.
    rewrite app_assoc, (lookup_entry fs _ true es name Hl), Hc.
    unfold g. rewrite Hc. destruct c; reflexivity.
  - rewrite Hnames. apply sorted_perm.
  - rewrite Hnames. apply sorted_sorted.
  - intros item Hin. apply in_map_iff in Hin as (name & <- & Hin).
    rewrite Hname.
    apply In_sorted, In_keys_assoc in Hin as [c Hc].
    exists c. split.
    + rewrite app_assoc, (lookup_entry fs _ true es name Hl). exact Hc.
    + unfold g. rewrite Hc. reflexivity.
Qed.

Lemma list_directory_lists_every_entry_witness :
  exists items,
    FileSystemTools.list_directory ["srv"; "ws"] "src" sample_fs
    = (sample_fs, items)
    /\ List.map FileSystemTools.info_name items = ["logo.png"; "main.py"].
Proof.
  destruct (list_directory_lists_every_entry ["srv"; "ws"] "src" ["src"]
              sample_fs
              [("main.py", FS.File (FS.mkFile "print(1)" true true));
               ("logo.png", FS.File (FS.mkFile "hello" false true))]
              eq_refl eq_refl)
    as (items & Hrun & Hnames & _).
  exists items. split; [exact Hrun | exact Hnames].
Defined.

Section SearchFacts.

Import FS FileSystemTools.

Lemma listed_files (es : list (string * node)) (filename : string) :
  List.NoDup (List.map fst es) ->
  In filename
     (List.map fst (List.filter (fun e => negb (is_dir_node (snd e))) es))
  <-> exists f, assoc filename es = Some (File f).
Proof.
  intros Hnd. split.
  - intros Hin. apply in_map_iff in Hin as ([k c] & <- & Hk).
    apply filter_In in Hk as [Hk Hc]. simpl in Hc.
    destruct c as [f | r es']; [| discriminate].
    exists f. exact (assoc_In k (File f) es Hnd Hk).
  - intros [f Hf]. apply assoc_Some_In in Hf.
    apply in_map_iff. exists (filename, File f). split; [reflexivity |].
    apply filter_In. split; [exact Hf | reflexivity].
Qed.

(** The pruned walk yields the listing of a directory exactly when it
    reaches it. *)
Lemma walk_node_sound (n : node) :
  well_formed n ->
  forall top root dirs files,
    In (root, dirs, files) (walk_node top n) ->
    exists rest,
      root = top ++ rest
      /\ walked n rest = true
      /\ forall filename,
           In filename files <->
           exists f, lookup n (rest ++ [filename]) = Some (File f).
Proof.
  induction n as [f | r es IH] using node_induction;
    intros Hwf top root dirs files; cbn [walk_node]; [intros [] |].
  destruct r; [| intros []].
  inversion Hwf as [| r' es' Hnd Hall]; subst.
  intros [[= <- <- <-] | Hin].
  - exists []. split; [symmetry; apply app_nil_r |].
    split; [reflexivity |].
    intros filename. rewrite (listed_files es filename Hnd).
    simpl. destruct (assoc filename es) as [c |].
    + split; intros [f Hf]; exists f; congruence.
    + split; intros [f Hf]; discriminate.
  - apply in_flat_map in Hin as ([k c] & Hk & Hin). simpl in Hin.
    destruct (is_dir_node c && negb (hidden k)) eqn:Hvisible;
      [| destruct Hin].
    apply andb_prop in Hvisible as [_ Hshown].
    rewrite List.Forall_forall in IH, Hall.
    destruct (IH _ Hk (Hall _ Hk) _ _ _ _ Hin) as (rest & -> & Hw & Hfiles).
    exists (k :: rest).
    split; [rewrite <- app_assoc; reflexivity |].
    simpl in *. rewrite (assoc_In k c es Hnd Hk), Hshown.
    split; [exact Hw | exact Hfiles].
Qed.

Lemma walk_node_complete (rest : path) :
  forall n top,
    walked n rest = true ->
    exists dirs files es,
      In (top ++ rest, dirs, files) (walk_node top n)
      /\ lookup n rest = Some (Dir true es)
      /\ files
         = List.map fst
             (List.filter (fun e => negb (is_dir_node (snd e))) es).
Proof.
  induction rest as [|x rest IH]; intros n top Hw.
  - destruct n as [f | [|] es]; try discriminate.
    eexists. eexists. exists es. cbn [walk_node]. rewrite app_nil_r.
    split; [left; reflexivity |]. split; reflexivity.
  - destruct n as [f | [|] es]; try discriminate.
    simpl in Hw. apply andb_prop in Hw as [Hshown Hw].
    destruct (assoc x es) as [c |] eqn:Hc; [| discriminate].
    destruct (IH c (top ++ [x]) Hw) as (dirs & files & es' & Hin & Hl & Hf).
    exists dirs, files, es'.
    split; [| split; [simpl; rewrite Hc; exact Hl | exact Hf]].
    cbn [walk_node]. right. apply in_flat_map.
    exists (x, c). split; [exact (assoc_Some_In _ _ _ Hc) |].
    simpl. rewrite Hshown.
    assert (is_dir_node c = true) as ->
      by (destruct c as [f | r' es'']; [destruct rest | ]; [discriminate .. | reflexivity]).
    simpl. rewrite <- app_assoc in Hin. exact Hin.
Qed.

End SearchFacts.

Section SearchRuns.

Import FS FileSystemTools.

Variable workspace_root : path.
Variable fnmatch : string -> string -> bool.

(** A triple of the pruned walk of a well-formed filesystem, seen from
    the directory the walk starts at. *)
Lemma os_walk_sound (fs : node) (top_path : path) :
  well_formed fs ->
  forall root dirs files,
    In (root, dirs, files) (os_walk_pruned top_path fs) ->
    exists top rest,
      lookup fs top_path = Some top
      /\ root = top_path ++ rest
      /\ walked top rest = true
      /\ forall filename,
           In filename files <->
           exists f, lookup top (rest ++ [filename]) = Some (File f).
Proof.
  intros Hwf root dirs files Hin. unfold os_walk_pruned in Hin.
  destruct (lookup fs top_path) as [top |] eqn:Htop; [| destruct Hin].
  destruct (walk_node_sound top (well_formed_lookup _ _ _ Hwf Htop)
              _ _ _ _ Hin) as (rest & Hroot & Hw & Hfiles).
  exists top, rest. repeat split; try assumption; apply Hfiles.
Qed.

(** [search_files] collects, from every triple of the walk, the files
    whose name matches. *)
Lemma search_files_collects (pattern p : string) (below : path)
    (fs : node) :
  well_formed fs ->
  _resolve_path workspace_root p = inr (workspace_root ++ below) ->
  exists results,
    search_files workspace_root fnmatch pattern p fs = (fs, results)
    /\ StronglySorted not_after results
    /\ forall rel,
         In rel results <->
         exists root dirs files filename,
           In (root, dirs, files)
              (os_walk_pruned (workspace_root ++ below) fs)
           /\ In filename files
           /\ fnmatch filename pattern = true
           /\ rel_str workspace_root (root ++ [filename]) = inr rel.
Proof.
  intros Hwf Hres.
  pose (body := fun '((root, _, files)
                      : path * list string * list string)
                    (matches : list string) =>
                  for_each files matches
                    (fun filename matches =>
                       if fnmatch filename pattern then
                         bind
                           (lift (rel_str workspace_root
                                    (root ++ [filename])))
                           (fun rel_path => ret (matches ++ [rel_path]))
                       else ret matches)).
  set (walk := os_walk_pruned (workspace_root ++ below) fs).
  assert (exists matches, for_each walk [] body fs = (fs, inr matches))
    as [matches Hrun].
  { apply for_each_succeeds. intros [[root dirs] files] acc Hin.
    apply for_each_succeeds. intros filename acc' Hfile.
    destruct (fnmatch filename pattern); [| eexists; reflexivity].
    destruct (os_walk_sound fs _ Hwf _ _ _ Hin)
      as (top & rest & _ & -> & _).
    unfold bind, lift, ret. rewrite <- !app_assoc, rel_str_below.
    eexists. reflexivity. }
  exists (sorted matches).
  split; [| split; [apply sorted_sorted |]].
  - unfold search_files, try_except, bind at 1, lift.
    rewrite Hres. unfold bind at 1, reading at 1.
    unfold bind at 1.
    change (for_each _ [] _ fs) with (for_each walk [] body fs).
    rewrite Hrun. reflexivity.
  - intros rel. rewrite In_sorted.
    eapply (for_each_collect
              (fun (entry : path * list string * list string) m =>
                 exists filename,
                   In filename (snd entry)
                   /\ fnmatch filename pattern = true
                   /\ rel_str workspace_root (fst (fst entry) ++ [filename])
                      = inr m)) in Hrun; cycle 1.
    { intros [[root dirs] files] acc fs' acc' Hbody. unfold body in Hbody.
      eapply (for_each_collect
                (fun filename m =>
                   fnmatch filename pattern = true
                   /\ rel_str workspace_root (root ++ [filename]) = inr m))
        in Hbody; cycle 1.
      { intros filename acc0 fs0 acc1.
        destruct (fnmatch filename pattern).
        - unfold bind, lift, ret.
          destruct (rel_str workspace_root (root ++ [filename]))
            as [e | rel_path]; [discriminate |].
          intros [= <- <-]. split; [reflexivity |].
          exists [rel_path]. split; [reflexivity |].
          intros m. simpl. split.
          + intros [<- | []]. split; reflexivity.
          + intros [_ [= <-]]. left. reflexivity.
        - unfold ret. intros [= <- <-]. split; [reflexivity |].
          exists []. split; [symmetry; apply app_nil_r |].
          intros m. split; [intros [] | intros [H _]; discriminate]. }
      destruct Hbody as (-> & new & -> & Hnew).
      split; [reflexivity |]. exists new. split; [reflexivity |].
      intros m. rewrite Hnew. simpl. split.
      - intros (filename & Hfile & Hmatch & Hstr). exists filename.
        repeat split; assumption.
      - intros (filename & Hfile & Hmatch & Hstr). exists filename.
        repeat split; assumption. }
    destruct Hrun as (_ & new & Hmatches & Hnew). simpl in Hmatches.
    subst new. rewrite Hnew. split.
    + intros ([[root dirs] files] & Hin & filename & Hfile & Hmatch & Hstr).
      exists root, dirs, files, filename. repeat split; assumption.
    + intros (root & dirs & files & filename & Hin & Hfile & Hmatch & Hstr).
      exists (root, dirs, files). split; [exact Hin |].
      exists filename. repeat split; assumption.
Qed.

End SearchRuns.

(** X20. On a well-formed filesystem [search_files] never fails and
    returns, in sorted order, the workspace-relative paths of exactly the
    files whose name matches the pattern and which sit in a directory that
    the walk reaches from the search directory: one that can be listed
    and that is reached through listable directories whose names do not
    start with a dot. Files below a hidden directory are never returned;
    hidden files are. The filesystem is not changed. *)
Theorem search_files_finds_visible_matches (workspace_root : FS.path)
    (fnmatch : string -> string -> bool) (pattern p : string)
    (below : FS.path) (fs : FS.node) :
  well_formed fs ->
  FileSystemTools._resolve_path workspace_root p
  = inr (workspace_root ++ below) ->
  exists results,
    FileSystemTools.search_files workspace_root fnmatch pattern p fs
    = (fs, results)
    /\ StronglySorted not_after results
    /\ forall rel,
         In rel results <->
         exists top rest filename f,
           FS.lookup fs (workspace_root ++ below) = Some top
           /\ walked top rest = true
           /\ FS.lookup top (rest ++ [filename]) = Some (FS.File f)
           /\ fnmatch filename pattern = true
           /\ rel = PyPath.str_rel (below ++ rest ++ [filename]).
Proof.
  intros Hwf Hres.
  destruct (search_files_collects workspace_root fnmatch pattern p below fs
              Hwf Hres) as (results & Hrun & Hsorted & Hiff).
  exists results. split; [exact Hrun |]. split; [exact Hsorted |].
  intros rel. rewrite Hiff. split.
  - intros (root & dirs & files & filename & Hin & Hfile & Hmatch & Hstr).
    destruct (os_walk_sound fs _ Hwf _ _ _ Hin)
      as (top & rest & Htop & -> & Hw & Hfiles).
    apply Hfiles in Hfile as [f Hf].
    exists top, rest, filename, f.
    repeat split; try assumption.
    rewrite <- !app_assoc, rel_str_below in Hstr. congruence.
  - intros (top & rest & filename & f & Htop & Hw & Hf & Hmatch & ->).
    destruct (walk_node_complete rest top (workspace_root ++ below) Hw)
      as (dirs & files & es & Hin & Hl & Hfiles).
    exists ((workspace_root ++ below) ++ rest), dirs, files, filename.
    split; [unfold FS.os_walk_pruned; rewrite Htop; exact Hin |].
    split; [| split; [exact Hmatch |]].
    + subst files.
      pose proof (well_formed_lookup _ _ _
                    (well_formed_lookup _ _ _ Hwf Htop) Hl) as Hwfd.
      inversion Hwfd as [| r' es' Hnd Hall]; subst.
      apply (listed_files es filename Hnd).
      exists f. rewrite <- (lookup_entry top rest true es filename Hl).
      exact Hf.
    + rewrite <- !app_assoc. apply rel_str_below.
Qed.

Lemma search_files_finds_visible_matches_witness :
  exists results,
    FileSystemTools.search_files ["srv"; "ws"] match_all "*" "." sample_fs
    = (sample_fs, results)
    /\ (In "src/main.py" results <->
        exists top rest filename f,
          FS.lookup sample_fs (["srv"; "ws"] ++ []) = Some top
          /\ walked top rest = true
          /\ FS.lookup top (rest ++ [filename]) = Some (FS.File f)
          /\ match_all filename "*" = true
          /\ "src/main.py" = PyPath.str_rel ([] ++ rest ++ [filename])).
Proof.
  destruct (search_files_finds_visible_matches ["srv"; "ws"] match_all "*"
              "." [] sample_fs sample_fs_well_formed eq_refl)
    as (results & Hrun & _ & Hiff).
  exists results. split; [exact Hrun | apply Hiff].
Defined.

(** ** Projects *)

Section ProjectFacts.

Import FS FileSystemTools ProjectTools.

Lemma lookup_plug (p : path) :
  forall n c d, lookup n p = Some c -> lookup (plug n p d) p = Some d.
Proof.
  induction p as [|x p IH]; intros n c d Hl; [reflexivity |].
  destruct n as [f | r es]; [discriminate |]. simpl in Hl |- *.
  destruct (assoc x es) as [c0 |] eqn:Hc; [| discriminate].
  simpl. rewrite assoc_set_entry. exact (IH c0 c d Hl).
Qed.

Lemma plug_plug (p : path) :
  forall n c d d',
    lookup n p = Some c -> plug (plug n p d) p d' = plug n p d'.
Proof.
  induction p as [|x p IH]; intros n c d d' Hl; [reflexivity |].
  destruct n as [f | r es]; [discriminate |]. simpl in Hl |- *.
  destruct (assoc x es) as [c0 |] eqn:Hc; [| discriminate].
  simpl. rewrite assoc_set_entry, set_entry_twice, (IH c0 c d d' Hl).
  reflexivity.
Qed.

Lemma plug_frame (p : path) :
  forall n d q,
    diverges q p = true -> lookup (plug n p d) q = lookup n q.
Proof.
  induction p as [|x p IH]; intros n d q Hdiv.
  - rewrite diverges_nil_r in Hdiv. discriminate.
  - destruct q as [|y q]; [discriminate |]. simpl in Hdiv.
    destruct n as [f | r es]; [reflexivity |]. simpl.
    destruct (assoc x es) as [c0 |] eqn:Hc; [| reflexivity].
    simpl. destruct (String.eqb_spec y x) as [-> | Hne].
    + rewrite assoc_set_entry, Hc. exact (IH c0 d q Hdiv).
    + rewrite assoc_set_entry_ne by exact Hne. reflexivity.
Qed.

(** On the way to [p], [plug] leaves the directories what they are. *)
Lemma plug_above (q : path) :
  forall n d x rest r es,
    lookup n q = Some (Dir r es) ->
    exists es', lookup (plug n (q ++ x :: rest) d) q = Some (Dir r es').
Proof.
  induction q as [|y q IH]; intros n d x rest r es Hl.
  - simpl in Hl. injection Hl as ->. simpl.
    destruct (assoc x es); eexists; reflexivity.
  - destruct n as [f | r0 es0]; [discriminate |]. simpl in Hl |- *.
    destruct (assoc y es0) as [c0 |] eqn:Hc; [| discriminate].
    simpl. rewrite assoc_set_entry. exact (IH c0 d x rest r es Hl).
Qed.

(** An update below a directory is the update of that directory's
    subtree, plugged back. *)
Lemma at_path_focus (full : path)
    (upd : option node -> result (option node)) (q : path) (p : path) :
  forall n d,
    q <> [] ->
    lookup n p = Some d ->
    at_path full (p ++ q) upd n
    = match at_path full q upd d with
      | inl e => inl e
      | inr d' => inr (plug n p d')
      end.
Proof.
  induction p as [|x p IH]; intros n d Hq Hl.
  - simpl in Hl. injection Hl as <-. simpl.
    destruct (at_path full q upd n); reflexivity.
  - destruct n as [f | r es]; [discriminate |]. simpl in Hl.
    destruct (assoc x es) as [c |] eqn:Hc; [| discriminate].
    assert (exists y rest, p ++ q = y :: rest) as (y & rest & Hpq).
    { destruct p as [|y p]; [| eexists; eexists; reflexivity].
      destruct q as [|y q]; [congruence |]. eexists; eexists; reflexivity. }
    change ((x :: p) ++ q) with (x :: (p ++ q)). rewrite Hpq, at_path_cons.
    rewrite Hc, <- Hpq, (IH c d Hq Hl).
    destruct (at_path full q upd d) as [e | d']; [reflexivity |].
    simpl. rewrite Hc. reflexivity.
Qed.

Lemma write_text_below (full : path) (x : string) (rel : path)
    (content : string) (n d : node) :
  lookup n full = Some d ->
  write_text (full ++ x :: rel) content n
  = match at_path (full ++ x :: rel) (x :: rel)
            (write_update false (full ++ x :: rel) content) d with
    | inl e => (n, inl e)
    | inr d' => (plug n full d', inr tt)
    end.
Proof.
  intros Hl. unfold write_text. rewrite open_write_update.
  unfold writing.
  rewrite (at_path_focus _ _ (x :: rel) full n d ltac:(discriminate) Hl).
  destruct (at_path (full ++ x :: rel) (x :: rel) _ d); reflexivity.
Qed.

Lemma mkdir_new_below (full : path) (x : string) (rel : path) (n d : node) :
  lookup n full = Some d ->
  mkdir_new false (full ++ x :: rel) n
  = match at_path (full ++ x :: rel) (x :: rel)
            (fun old =>
               match old with
               | Some _ => inl (os_error FileExistsError (full ++ x :: rel))
               | None => inr (Some (Dir true []))
               end) d with
    | inl e => (n, inl e)
    | inr d' => (plug n full d', inr tt)
    end.
Proof.
  intros Hl. unfold mkdir_new, writing.
  rewrite (at_path_focus _ _ (x :: rel) full n d ltac:(discriminate) Hl).
  destruct (at_path (full ++ x :: rel) (x :: rel) _ d); reflexivity.
Qed.

(** [mkdir -p] of a path that holds nothing leaves an empty, listable
    directory there. *)
Lemma mkdir_node_fresh (full : path) (p : path) :
  forall n n',
    lookup n p = None ->
    mkdir_node full p n = inr n' ->
    lookup n' p = Some (Dir true []).
Proof.
  induction p as [|x p IH]; intros n n' Hl H; [discriminate |].
  destruct n as [f | r es]; simpl in H; [discriminate |].
  simpl in Hl.
  destruct (mkdir_node full p
              (match assoc x es with Some c => c | None => Dir true [] end))
    as [e | c'] eqn:Hmk; [discriminate |].
  injection H as <-. simpl. rewrite assoc_set_entry.
  destruct (assoc x es) as [c |].
  - exact (IH c c' Hl Hmk).
  - destruct p as [|y p].
    + simpl in Hmk. injection Hmk as <-. reflexivity.
    + exact (IH (Dir true []) c' eq_refl Hmk).
Qed.

Lemma mkdir_node_keeps_flag (full : path) (p : path) :
  forall n n' q r es,
    mkdir_node full p n = inr n' ->
    lookup n q = Some (Dir r es) ->
    exists es', lookup n' q = Some (Dir r es').
Proof.
  induction p as [|x p IH]; intros n n' q r es H Hl.
  - destruct n as [f | r0 es0]; simpl in H; [discriminate |].
    injection H as <-. exists es. exact Hl.
  - destruct n as [f | r0 es0]; simpl in H; [discriminate |].
    destruct (mkdir_node full p
                (match assoc x es0 with Some c => c | None => Dir true [] end))
      as [e | c'] eqn:Hmk; [discriminate |].
    injection H as <-.
    destruct q as [|y q].
    + simpl in Hl. injection Hl as <- <-. eexists. reflexivity.
    + simpl in Hl |- *.
      destruct (String.eqb_spec y x) as [-> | Hne].
      * rewrite assoc_set_entry.
        destruct (assoc x es0) as [c0 |]; [| discriminate].
        exact (IH _ _ q r es Hmk Hl).
      * rewrite assoc_set_entry_ne by exact Hne.
        destruct (assoc y es0) as [c0 |]; [| discriminate].
        exists es. exact Hl.
Qed.

Lemma plug_same (p : path) :
  forall n d, lookup n p = Some d -> plug n p d = n.
Proof.
  induction p as [|x p IH]; intros n d Hl.
  - simpl in Hl. injection Hl as <-. reflexivity.
  - destruct n as [f | r es]; [discriminate |]. simpl in Hl |- *.
    destruct (assoc x es) as [c |] eqn:Hc; [| discriminate].
    rewrite (IH c d Hl), (set_entry_same _ _ _ Hc). reflexivity.
Qed.

Variable workspace_root : path.

(** One step of a template: the state is the tree with the project
    directory plugged in, the step rewrites that directory. *)
Ltac template_step Hl :=
  unfold bind at 1;
  rewrite <- ?app_assoc; cbn [app];
  first [ rewrite (write_text_below _ _ _ _ _ _ (lookup_plug _ _ _ _ Hl))
        | rewrite (mkdir_new_below _ _ _ _ _ (lookup_plug _ _ _ _ Hl)) ];
  cbn [at_path write_update assoc set_entry String.eqb Ascii.eqb Bool.eqb
       text_file f_data f_utf8 f_readable];
  rewrite (plug_plug _ _ _ _ _ Hl).

Lemma basic_template_run (full : path) (name : string) (n c : node) :
  lookup n full = Some c ->
  _apply_basic_template full name (plug n full (Dir true []))
  = (plug n full
       (Dir true
          [("README.md",
            text_file ("# " +:+ name +:+ "

Project created by CLAI.
"));
           (".gitignore",
            text_file "# Created by CLAI
*.pyc
__pycache__/
.env
")]),
     inr tt).
Proof.
  intros Hl. unfold _apply_basic_template.
  template_step Hl.
  rewrite (write_text_below _ _ _ _ _ _ (lookup_plug _ _ _ _ Hl)).
  cbn [at_path write_update assoc set_entry String.eqb Ascii.eqb Bool.eqb
       text_file f_data f_utf8 f_readable].
  rewrite (plug_plug _ _ _ _ _ Hl). reflexivity.
Qed.

Lemma python_template_run (full : path) (name : string) (n c : node) :
  lookup n full = Some c ->
  exists es src tests,
    _apply_python_template full name (plug n full (Dir true []))
    = (plug n full (Dir true es), inr tt)
    /\ List.map fst es
       = ["README.md"; ".gitignore"; "src"; "tests"; "requirements.txt"]
    /\ assoc "README.md" es
       = Some (text_file ("# " +:+ name +:+ "

Project created by CLAI.
"))
    /\ assoc "src" es = Some (Dir true src)
    /\ List.map fst src = ["__init__.py"; "main.py"]
    /\ assoc "tests" es = Some (Dir true tests)
    /\ List.map fst tests = ["__init__.py"; "test_main.py"]
    /\ assoc "__init__.py" tests = Some (text_file EmptyString).
Proof.
  intros Hl. unfold _apply_python_template.
  unfold bind at 1. rewrite (basic_template_run full name n c Hl).
  do 7 template_step Hl.
  rewrite <- ?app_assoc; cbn [app].
  rewrite (write_text_below _ _ _ _ _ _ (lookup_plug _ _ _ _ Hl)).
  cbn [at_path write_update assoc set_entry String.eqb Ascii.eqb Bool.eqb
       text_file f_data f_utf8 f_readable].
  rewrite (plug_plug _ _ _ _ _ Hl).
  eexists. eexists. eexists.
  split; [reflexivity |]. repeat split.
Qed.

Lemma node_template_run (full : path) (name : string) (n c : node) :
  lookup n full = Some c ->
  exists es src,
    _apply_node_template full name (plug n full (Dir true []))
    = (plug n full (Dir true es), inr tt)
    /\ List.map fst es = ["README.md"; ".gitignore"; "package.json"; "src"]
    /\ assoc "README.md" es
       = Some (text_file ("# " +:+ name +:+ "

Project created by CLAI.
"))
    /\ assoc "src" es = Some (Dir true src)
    /\ List.map fst src = ["index.js"].
Proof.
  intros Hl. unfold _apply_node_template.
  unfold bind at 1. rewrite (basic_template_run full name n c Hl).
  do 3 template_step Hl.
  rewrite <- ?app_assoc; cbn [app].
  rewrite (write_text_below _ _ _ _ _ _ (lookup_plug _ _ _ _ Hl)).
  cbn [at_path write_update assoc set_entry String.eqb Ascii.eqb Bool.eqb
       text_file f_data f_utf8 f_readable].
  rewrite (plug_plug _ _ _ _ _ Hl).
  eexists. eexists.
  split; [reflexivity |]. repeat split.
Qed.

End ProjectFacts.

Section ProjectRuns.

Import FS FileSystemTools ProjectTools.

Variable workspace_root : path.

Lemma for_each_filters {A} (keep : A -> bool)
    (body : A -> list A -> IO (list A)) (fs : node) (l : list A) :
  (forall x acc,
     In x l ->
     body x acc fs = (fs, inr (if keep x then acc ++ [x] else acc))) ->
  forall acc,
    for_each l acc body fs = (fs, inr (acc ++ List.filter keep l)).
Proof.
  induction l as [|x l IH]; intros Hbody acc.
  - simpl. rewrite app_nil_r. reflexivity.
  - cbn [for_each]. unfold bind at 1.
    rewrite (Hbody x acc (or_introl eq_refl)).
    rewrite IH by (intros y acc' Hy; apply Hbody; right; exact Hy).
    simpl. destruct (keep x); [| reflexivity].
    rewrite <- app_assoc. reflexivity.
Qed.

(** The projects of a workspace that can be listed. *)
Lemma list_projects_run (fs : node) (es : list (string * node)) :
  lookup fs workspace_root = Some (Dir true es) ->
  exists names,
    list_projects workspace_root fs = (fs, inr names)
    /\ StronglySorted not_after names
    /\ forall name,
         In name names <->
         hidden name = false
         /\ exists r es',
              lookup fs (workspace_root ++ [name]) = Some (Dir r es').
Proof.
  intros Hl.
  pose (keep := fun name =>
                  match assoc name es with
                  | Some (Dir _ _) => true
                  | _ => false
                  end && negb (PyStr.startswith "." name)).
  exists (sorted (List.filter keep (List.map fst es))).
  split; [| split; [apply sorted_sorted |]].
  - unfold list_projects, bind at 1, iterdir, reading at 1. rewrite Hl.
    unfold bind at 1.
    rewrite (for_each_filters keep); [reflexivity |].
    intros name acc _. unfold bind, is_dir, reading, ret.
    rewrite (lookup_entry fs workspace_root true es name Hl).
    unfold keep.
    destruct (match assoc name es with
              | Some (Dir _ _) => true
              | _ => false
              end && negb (PyStr.startswith "." name)); reflexivity.
  - intros name. rewrite In_sorted, filter_In.
    rewrite (lookup_entry fs workspace_root true es name Hl).
    unfold keep, hidden. split.
    + intros [_ Hkeep]. apply andb_prop in Hkeep as [Hdir Hshown].
      split; [destruct (PyStr.startswith "." name); [discriminate | reflexivity] |].
      destruct (assoc name es) as [[f | r es'] |]; try discriminate.
      exists r, es'. reflexivity.
    + intros [Hshown (r & es' & Hdir)]. split.
      * apply assoc_Some_In in Hdir. apply in_map_iff.
        exists (name, Dir r es'). split; [reflexivity | exact Hdir].
      * rewrite Hdir, Hshown. reflexivity.
Qed.

(** [create_project] on a path that holds nothing, once the directory is
    made: the templates cannot fail. *)
Lemma create_project_run (project_name template : string) (full : path)
    (fs fs1 : node) :
  _resolve_path workspace_root project_name = inr full ->
  lookup fs full = None ->
  mkdir_node full full fs = inr fs1 ->
  exists es,
    create_project workspace_root project_name template fs
    = (plug fs1 full (Dir true es),
       mkOperationResult true
         ("Created project '" +:+ project_name +:+ "' at "
          +:+ PyPath.str_abs full)
         (Some (PyPath.str_abs full)))
    /\ List.map fst es
       = (if String.eqb template "python" then
            ["README.md"; ".gitignore"; "src"; "tests"; "requirements.txt"]
          else if String.eqb template "node" then
            ["README.md"; ".gitignore"; "package.json"; "src"]
          else if String.eqb template "basic" then
            ["README.md"; ".gitignore"]
          else [])
    /\ (es <> [] ->
        assoc "README.md" es
        = Some (text_file ("# " +:+ project_name +:+ "

Project created by CLAI.
"))).
Proof.
  intros Hres Hnone Hmk.
  pose proof (mkdir_node_fresh _ _ _ _ Hnone Hmk) as Hl.
  unfold create_project, try_except, bind at 1, lift. rewrite Hres.
  unfold bind at 1, exists_, reading at 1. rewrite Hnone.
  rewrite bool_decide_eq_false_2 by (intros [c Hc]; discriminate).
  unfold bind at 1, mkdir_new, writing at 1. rewrite Hnone, Hmk.
  unfold bind at 1.
  destruct (String.eqb template "python").
  { destruct (python_template_run full project_name fs1 _ Hl)
      as (es & src & tests & Hrun & Hnames & Hreadme & _).
    rewrite (plug_same full fs1 _ Hl) in Hrun. rewrite Hrun.
    exists es. unfold ret. rewrite Hnames.
    split; [reflexivity | split; [reflexivity | intros _; exact Hreadme]]. }
  destruct (String.eqb template "node").
  { destruct (node_template_run full project_name fs1 _ Hl)
      as (es & src & Hrun & Hnames & Hreadme & _).
    rewrite (plug_same full fs1 _ Hl) in Hrun. rewrite Hrun.
    exists es. unfold ret. rewrite Hnames.
    split; [reflexivity | split; [reflexivity | intros _; exact Hreadme]]. }
  destruct (String.eqb template "basic").
  { pose proof (basic_template_run full project_name fs1 _ Hl) as Hrun.
    rewrite (plug_same full fs1 _ Hl) in Hrun. rewrite Hrun.
    eexists. unfold ret.
    split; [reflexivity | split; [reflexivity | intros _; reflexivity]]. }
  exists []. rewrite (plug_same full fs1 _ Hl). unfold ret.
  split; [reflexivity | split; [reflexivity | congruence]].
Qed.

(** [create_project] on a path that holds something, or whose directory
    cannot be made: nothing changes. *)
Lemma create_project_stops (project_name template : string) (full : path)
    (fs : node) :
  _resolve_path workspace_root project_name = inr full ->
  (is_Some (lookup fs full) ->
   create_project workspace_root project_name template fs
   = (fs, failed ("Project '" +:+ project_name +:+ "' already exists")))
  /\ (forall e,
        lookup fs full = None ->
        mkdir_node full full fs = inl e ->
        create_project workspace_root project_name template fs
        = (fs, failed (exc_str e))).
Proof.
  intros Hres. split.
  - intros Hex.
    unfold create_project, try_except, bind at 1, lift.
    rewrite Hres. unfold bind at 1, exists_, reading at 1.
    rewrite bool_decide_eq_true_2 by exact Hex. reflexivity.
  - intros e Hnone Hmk.
    unfold create_project, try_except, bind at 1, lift.
    rewrite Hres. unfold bind at 1, exists_, reading at 1.
    rewrite Hnone.
    rewrite bool_decide_eq_false_2 by (intros [c Hc]; discriminate).
    unfold bind at 1, mkdir_new, writing at 1.
    rewrite Hnone, Hmk. reflexivity.
Qed.

End ProjectRuns.

(** X21. [list_projects] returns, sorted, the names of exactly the
    entries of the workspace root that are directories and whose name
    does not start with a dot, and leaves the filesystem as it is. It has
    no handler of its own: when the workspace root is missing, is a file
    or cannot be listed, the error of the scan is raised to the caller. *)
Theorem list_projects_lists_visible_directories
    (workspace_root : FS.path) (fs : FS.node) :
  (forall es,
     FS.lookup fs workspace_root = Some (FS.Dir true es) ->
     exists names,
       ProjectTools.list_projects workspace_root fs = (fs, inr names)
       /\ StronglySorted not_after names
       /\ forall name,
            In name names <->
            FS.hidden name = false
            /\ exists r es',
                 FS.lookup fs (workspace_root ++ [name])
                 = Some (FS.Dir r es'))
  /\ (FS.lookup fs workspace_root = None ->
      ProjectTools.list_projects workspace_root fs
      = (fs, inl (FS.os_error FileNotFoundError workspace_root)))
  /\ (forall f,
        FS.lookup fs workspace_root = Some (FS.File f) ->
        ProjectTools.list_projects workspace_root fs
        = (fs, inl (FS.os_error NotADirectoryError workspace_root)))
  /\ (forall es,
        FS.lookup fs workspace_root = Some (FS.Dir false es) ->
        ProjectTools.list_projects workspace_root fs
        = (fs, inl (FS.os_error PermissionError workspace_root))).
Proof.
  split; [exact (list_projects_run workspace_root fs) |].
  split; [| split]; intros; unfold ProjectTools.list_projects, FS.bind at 1,
    FS.iterdir, FS.reading.
  - rewrite H. reflexivity.
  - rewrite H. reflexivity.
  - rewrite H. reflexivity.
Qed.

(** X22. [create_project] refuses a name whose path holds anything, file
    or directory, and then changes nothing. Otherwise it makes the
    directory with its missing parents, which fails only on a file in the
    way, and fills it: README.md and .gitignore for the template basic,
    with src, tests and requirements.txt in addition for python, with
    package.json and src for node, and nothing for any other template
    name, which is accepted without complaint. The README starts with the
    project name as it was given. Nothing that parts ways with the
    project path is changed. *)
Theorem create_project_outcomes (workspace_root : FS.path)
    (project_name template : string) (full : FS.path) (fs : FS.node) :
  FileSystemTools._resolve_path workspace_root project_name = inr full ->
  (is_Some (FS.lookup fs full) ->
   ProjectTools.create_project workspace_root project_name template fs
   = (fs,
      FileSystemTools.failed
        ("Project '" +:+ project_name +:+ "' already exists")))
  /\ (forall e,
        FS.lookup fs full = None ->
        FS.mkdir_node full full fs = inl e ->
        ProjectTools.create_project workspace_root project_name template fs
        = (fs, FileSystemTools.failed (exc_str e)))
  /\ (forall fs1,
        FS.lookup fs full = None ->
        FS.mkdir_node full full fs = inr fs1 ->
        exists fs' es,
          ProjectTools.create_project workspace_root project_name template fs
          = (fs',
             FileSystemTools.mkOperationResult true
               ("Created project '" +:+ project_name +:+ "' at "
                +:+ PyPath.str_abs full)
               (Some (PyPath.str_abs full)))
          /\ FS.lookup fs' full = Some (FS.Dir true es)
          /\ List.map fst es
             = (if String.eqb template "python" then
                  ["README.md"; ".gitignore"; "src"; "tests";
                   "requirements.txt"]
                else if String.eqb template "node" then
                  ["README.md"; ".gitignore"; "package.json"; "src"]
                else if String.eqb template "basic" then
                  ["README.md"; ".gitignore"]
                else [])
          /\ (es <> [] ->
              FS.lookup fs' (full ++ ["README.md"])
              = Some (text_file ("# " +:+ project_name +:+ "

Project created by CLAI.
")))
          /\ forall q,
               diverges q full = true -> FS.lookup fs' q = FS.lookup fs q).
Proof.
  intros Hres.
  destruct (create_project_stops workspace_root project_name template full
              fs Hres) as (Hrefused & Hfails).
  split; [exact Hrefused | split; [exact Hfails |]].
  intros fs1 Hnone Hmk.
  destruct (create_project_run workspace_root project_name template full
              fs fs1 Hres Hnone Hmk) as (es & Hrun & Hnames & Hreadme).
  pose proof (mkdir_node_fresh _ _ _ _ Hnone Hmk) as Hl.
  exists (plug fs1 full (FS.Dir true es)), es.
  split; [exact Hrun |].
  split; [exact (lookup_plug full fs1 _ _ Hl) |].
  split; [exact Hnames |].
  split.
  - intros Hes. rewrite lookup_app, (lookup_plug full fs1 _ _ Hl).
    simpl. rewrite (Hreadme Hes). reflexivity.
  - intros q Hdiv. rewrite (plug_frame full fs1 _ q Hdiv).
    exact (mkdir_node_frame _ _ _ _ q Hmk (diverges_not_prefix q full Hdiv)).
Qed.

Lemma create_project_outcomes_witness :
  ProjectTools.create_project ["srv"; "ws"] "src" "python" sample_fs
  = (sample_fs, FileSystemTools.failed "Project 'src' already exists").
Proof.
  refine (proj1 (create_project_outcomes ["srv"; "ws"] "src" "python"
                   ["srv"; "ws"; "src"] sample_fs eq_refl) _).
  eexists. reflexivity.
Defined.

(** X23. A project that [create_project] has made directly below a
    workspace root that can be listed is among the projects that
    [list_projects] then returns, unless its name starts with a dot: a
    hidden project is created and never listed. *)
Theorem created_project_is_listed (workspace_root : FS.path)
    (project_name template x : string) (fs fs' : FS.node)
    (es : list (string * FS.node))
    (r : FileSystemTools.OperationResult) :
  FileSystemTools._resolve_path workspace_root project_name
  = inr (workspace_root ++ [x]) ->
  FS.lookup fs workspace_root = Some (FS.Dir true es) ->
  ProjectTools.create_project workspace_root project_name template fs
  = (fs', r) ->
  FileSystemTools.success r = true ->
  exists names,
    ProjectTools.list_projects workspace_root fs' = (fs', inr names)
    /\ (In x names <-> FS.hidden x = false).
Proof.
  intros Hres Hroot Hrun Hok.
  destruct (FS.lookup fs (workspace_root ++ [x])) as [c |] eqn:Hold.
  { destruct (create_project_stops workspace_root project_name template
                _ fs Hres) as (Hrefused & _).
    rewrite Hrefused in Hrun by (rewrite Hold; eexists; reflexivity).
    injection Hrun as <- <-. discriminate. }
  destruct (FS.mkdir_node (workspace_root ++ [x]) (workspace_root ++ [x]) fs)
    as [e | fs1] eqn:Hmk.
  { destruct (create_project_stops workspace_root project_name template
                _ fs Hres) as (_ & Hfails).
    rewrite (Hfails e Hold Hmk) in Hrun.
    injection Hrun as <- <-. discriminate. }
  destruct (create_project_run workspace_root project_name template _
              fs fs1 Hres Hold Hmk) as (es1 & Hrun' & _).
  rewrite Hrun' in Hrun. injection Hrun as <- _.
  pose proof (mkdir_node_fresh _ _ _ _ Hold Hmk) as Hl.
  destruct (mkdir_node_keeps_flag _ _ _ _ workspace_root true es Hmk Hroot)
    as [es2 Hroot1].
  destruct (plug_above workspace_root fs1 (FS.Dir true es1) x [] true es2
              Hroot1) as [es3 Hroot2].
  destruct (list_projects_run workspace_root _ es3 Hroot2)
    as (names & Hlist & _ & Hnames).
  exists names. split; [exact Hlist |].
  rewrite Hnames. split; [intros [H _]; exact H |].
  intros Hshown. split; [exact Hshown |].
  exists true, es1. exact (lookup_plug _ fs1 _ _ Hl).
Qed.

Lemma created_project_is_listed_witness :
  exists names,
    ProjectTools.list_projects ["srv"; "ws"]
      (fst (ProjectTools.create_project ["srv"; "ws"] "my-app" "node"
              sample_fs))
    = (fst (ProjectTools.create_project ["srv"; "ws"] "my-app" "node"
              sample_fs),
       inr names)
    /\ (In "my-app" names <-> FS.hidden "my-app" = false).
Proof.
  refine (created_project_is_listed ["srv"; "ws"] "my-app" "node" "my-app"
            sample_fs _ _ _ eq_refl eq_refl (surjective_pairing _) eq_refl).
Defined.

(** ** The provider adapters *)

Section AdapterFacts.

Lemma filter_all {X} (keep : X -> bool) (l : list X) :
  (forall x, In x l -> keep x = true) -> List.filter keep l = l.
Proof.
  induction l as [|x l IH]; intros H; [reflexivity |]. simpl.
  rewrite (H x (or_introl eq_refl)), IH; [reflexivity |].
  intros y Hy. apply H. right. exact Hy.
Qed.

Lemma conversation_has_no_system (messages : list Message.t) :
  conversation_request messages ->
  forall m, In m messages -> is_system m = false.
Proof.
  intros [k Hk] m Hm. apply (in_map Message.role) in Hm.
  rewrite Hk, in_app_iff in Hm. unfold is_system.
  destruct (Message.role m); try reflexivity.
  destruct Hm as [Hm | [Hm | []]]; [| discriminate].
  exfalso. exact (turns_no_system k Hm).
Qed.

Lemma conversation_ends_with_user (messages : list Message.t) :
  conversation_request messages ->
  exists init m,
    messages = init ++ [m]
    /\ Message.role m = USER
    /\ forall x, In x init -> is_system x = false.
Proof.
  intros Hconv. pose proof (conversation_has_no_system _ Hconv) as Hsys.
  destruct Hconv as [k Hk].
  destruct messages as [|m0 rest] using rev_ind;
    [destruct (turns k); discriminate |].
  exists rest, m0. split; [reflexivity |].
  rewrite List.map_app in Hk. apply app_inj_tail in Hk as [_ Hk].
  split; [exact Hk |].
  intros y Hy. apply Hsys. apply in_app_iff. left. exact Hy.
Qed.

Lemma string_app_nil_r (s : string) : s +:+ "" = s.
Proof.
  induction s as [|a s IH]; [reflexivity |].
  change (String a (s +:+ "") = String a s). rewrite IH. reflexivity.
Qed.

Lemma concat_empty_cons (x : string) (l : list string) :
  String.concat "" (x :: l) = x +:+ String.concat "" l.
Proof.
  destruct l as [|y l]; [symmetry; apply string_app_nil_r | reflexivity].
Qed.

Lemma text_of_from (blocks : list ClaudeAgent.Block) (start : string) :
  fold_left (fun content block =>
               if String.eqb (ClaudeAgent.block_type block) "text"
               then content +:+ ClaudeAgent.block_text block else content)
            blocks start
  = start
    +:+ String.concat ""
          (List.map ClaudeAgent.block_text
             (List.filter
                (fun block => String.eqb (ClaudeAgent.block_type block) "text")
                blocks)).
Proof.
  revert start. induction blocks as [|b blocks IH]; intros start.
  - symmetry. apply string_app_nil_r.
  - cbn [fold_left List.filter]. rewrite IH.
    destruct (String.eqb (ClaudeAgent.block_type b) "text");
      [| reflexivity].
    cbn [List.map]. rewrite concat_empty_cons, string_app_assoc.
    reflexivity.
Qed.

End AdapterFacts.

(** X24. The three adapters transmit the same conversation. For a
    request as [chat] builds it (user and assistant turns, then the new
    user message) Claude sends every message in order under the role
    names user and assistant, GPT sends the same list, preceded by the
    system prompt as a system message when the prompt is not empty, and
    Gemini sends the messages but the last as history, with model for
    assistant, and the last one as the message of the turn. A SYSTEM
    message among the messages is dropped by Claude and GPT, and is sent
    as a model turn by Gemini. *)
Theorem adapters_send_the_same_conversation (self : BaseAgent)
    (messages : list Message.t) :
  conversation_request messages ->
  ClaudeAgent.req_messages (ClaudeAgent.request_params self messages)
  = List.map (fun m => (message_role_value (Message.role m),
                        Message.content m)) messages
  /\ GPTAgent.req_messages (GPTAgent.request_params self messages)
     = (if nonempty (system_prompt self)
        then [("system", system_prompt self)] else [])
       ++ ClaudeAgent.req_messages (ClaudeAgent.request_params self messages)
  /\ GeminiAgent.req_history (GeminiAgent.request_params messages)
     ++ [("user",
          [GeminiAgent.req_last_message
             (GeminiAgent.request_params messages)])]
     = List.map (fun m => (match Message.role m with
                           | ASSISTANT => "model"
                           | r => message_role_value r
                           end,
                           [Message.content m])) messages
  /\ (forall pre text post,
        ClaudeAgent.request_params self
          (pre ++ new_message SYSTEM text :: post)
        = ClaudeAgent.request_params self (pre ++ post)
        /\ GPTAgent.request_params self
             (pre ++ new_message SYSTEM text :: post)
           = GPTAgent.request_params self (pre ++ post)
        /\ (post <> [] ->
            In ("model", [text])
               (GeminiAgent.req_history
                  (GeminiAgent.request_params
                     (pre ++ new_message SYSTEM text :: post))))).
Proof.
  intros Hconv.
  assert (List.filter (fun msg => negb (is_system msg)) messages = messages)
    as Hkeep.
  { apply filter_all. intros m Hm.
    rewrite (conversation_has_no_system messages Hconv m Hm). reflexivity. }
  split; [| split; [| split]].
  - unfold ClaudeAgent.request_params. simpl. rewrite Hkeep. reflexivity.
  - reflexivity.
  - destruct (conversation_ends_with_user messages Hconv)
      as (init & m & -> & Huser & Hinit).
    unfold GeminiAgent.request_params. simpl.
    rewrite removelast_last, last_snoc, List.map_app. simpl.
    rewrite Huser. f_equal.
    apply List.map_ext_in. intros x Hx. specialize (Hinit x Hx).
    unfold is_system in Hinit.
    destruct (Message.role x); [discriminate | reflexivity | reflexivity].
  - intros pre text post.
    assert (List.filter (fun msg => negb (is_system msg))
              (pre ++ new_message SYSTEM text :: post)
            = List.filter (fun msg => negb (is_system msg)) (pre ++ post))
      as Hdrop by (rewrite !List.filter_app; reflexivity).
    split; [| split].
    + unfold ClaudeAgent.request_params. rewrite Hdrop. reflexivity.
    + unfold GPTAgent.request_params. rewrite Hdrop. reflexivity.
    + intros Hpost. unfold GeminiAgent.request_params. simpl.
      destruct (exists_last Hpost) as (post' & z & ->).
      change (pre ++ new_message SYSTEM text :: post' ++ [z])
        with (pre ++ (new_message SYSTEM text :: post') ++ [z]).
      rewrite app_assoc, removelast_last.
      apply in_map_iff. exists (new_message SYSTEM text).
      split; [reflexivity |].
      apply in_app_iff. right. left. reflexivity.
Qed.

Lemma adapters_send_the_same_conversation_witness :
  GPTAgent.req_messages
    (GPTAgent.request_params
       (new_agent OPENAI "gpt-4o" "Be brief." 100%Z 0.5%Q)
       [new_message USER "hi"; new_message ASSISTANT "hello";
        new_message USER "bye"])
  = [("system", "Be brief.")]
    ++ ClaudeAgent.req_messages
         (ClaudeAgent.request_params
            (new_agent OPENAI "gpt-4o" "Be brief." 100%Z 0.5%Q)
            [new_message USER "hi"; new_message ASSISTANT "hello";
             new_message USER "bye"]).
Proof.
  refine (proj1 (proj2
            (adapters_send_the_same_conversation
               (new_agent OPENAI "gpt-4o" "Be brief." 100%Z 0.5%Q)
               [new_message USER "hi"; new_message ASSISTANT "hello";
                new_message USER "bye"] _))).
  exists 1. reflexivity.
Defined.

(** X25. What the adapters make of an answer. An error of the SDK call is
    raised unchanged by all three. Claude's text is the text blocks of
    the answer put together in order, blocks of another type adding
    nothing, and its total of tokens is the sum of input and output
    tokens. GPT fails with an IndexError on an answer without choices,
    reads a missing content as the empty text, and, like Gemini, reports
    no tokens (a total of 0) when the answer carries no usage. Gemini
    always reports the agent's own model name and the finish reason
    stop. *)
Theorem adapter_responses (self : BaseAgent) (messages : list Message.t) :
  (forall create e,
     create (ClaudeAgent.request_params self messages) = inl e ->
     ClaudeAgent._send_request create self messages = inl e)
  /\ (forall create e,
        create (GPTAgent.request_params self messages) = inl e ->
        GPTAgent._send_request create self messages = inl e)
  /\ (forall send e,
        send (GeminiAgent.request_params messages) = inl e ->
        GeminiAgent._send_request send self messages = inl e)
  /\ (forall create response,
        create (ClaudeAgent.request_params self messages) = inr response ->
        exists r,
          ClaudeAgent._send_request create self messages = inr r
          /\ AgentResponse.content r
             = String.concat ""
                 (List.map ClaudeAgent.block_text
                    (List.filter
                       (fun block =>
                          String.eqb (ClaudeAgent.block_type block) "text")
                       (ClaudeAgent.resp_content response)))
          /\ AgentResponse.total_tokens r
             = (ClaudeAgent.input_tokens response
                + ClaudeAgent.output_tokens response)%Z)
  /\ (forall create response,
        create (GPTAgent.request_params self messages) = inr response ->
        match GPTAgent.choices response with
        | [] =>
            GPTAgent._send_request create self messages
            = inl (mkExc (OtherError "IndexError") "list index out of range")
        | choice :: _ =>
            exists r,
              GPTAgent._send_request create self messages = inr r
              /\ AgentResponse.content r
                 = default EmptyString (GPTAgent.message_content choice)
              /\ AgentResponse.total_tokens r
                 = match GPTAgent.resp_usage response with
                   | Some u => GPTAgent.usage_total_tokens u
                   | None => 0%Z
                   end
        end)
  /\ (forall send response,
        send (GeminiAgent.request_params messages) = inr response ->
        exists r,
          GeminiAgent._send_request send self messages = inr r
          /\ AgentResponse.content r = GeminiAgent.resp_text response
          /\ AgentResponse.model r = model self
          /\ AgentResponse.finish_reason r = Some "stop"
          /\ AgentResponse.total_tokens r
             = match GeminiAgent.usage_metadata response with
               | Some u => default 0%Z (GeminiAgent.total_token_count u)
               | None => 0%Z
               end).
Proof.
  split; [| split; [| split; [| split; [| split]]]].
  - intros create e H. unfold ClaudeAgent._send_request. rewrite H.
    reflexivity.
  - intros create e H. unfold GPTAgent._send_request. rewrite H.
    reflexivity.
  - intros send e H. unfold GeminiAgent._send_request. rewrite H.
    reflexivity.
  - intros create response H. unfold ClaudeAgent._send_request. rewrite H.
    eexists. split; [reflexivity |]. split; [| reflexivity].
    simpl. unfold ClaudeAgent.text_of. rewrite text_of_from. reflexivity.
  - intros create response H. unfold GPTAgent._send_request. rewrite H.
    destruct (GPTAgent.choices response) as [|choice rest]; [reflexivity |].
    eexists. split; [reflexivity |]. split.
    + simpl. destruct (GPTAgent.message_content choice); reflexivity.
    + destruct (GPTAgent.resp_usage response); reflexivity.
  - intros send response H. unfold GeminiAgent._send_request. rewrite H.
    eexists. split; [reflexivity |]. repeat split.
    destruct (GeminiAgent.usage_metadata response); reflexivity.
Qed.

(** ** The mentions of the shell *)

Section MentionFacts.

Import Shell.

Lemma contains_longer (p q s : string) :
  PyStr.contains (p +:+ q) s = true -> PyStr.contains p s = true.
Proof.
  rewrite !contains_iff. intros (pre & post & ->).
  exists pre, (q +:+ post). rewrite string_app_assoc. reflexivity.
Qed.

(** One step of the loop over the table of mentions. *)
Lemma mentions_keep_first (table : list (string * Role)) :
  forall text first found,
    exists text' found',
      fold_left
        (fun (state : string * list (string * Role)) entry =>
           let '(user_input, mentions_found) := state in
           let '(mention, role) := entry in
           if PyStr.contains mention (PyStr.lower user_input) then
             (remove_mention mention user_input,
              mentions_found ++ [(mention, role)])
           else state)
        table (text, first :: found)
      = (text', first :: found').
Proof.
  induction table as [|[mention role] table IH]; intros text first found.
  - exists text, found. reflexivity.
  - cbn [fold_left].
    destruct (PyStr.contains mention (PyStr.lower text)).
    + apply (IH _ first (found ++ [(mention, role)])).
    + apply IH.
Qed.

Lemma mentions_found_first (table : list (string * Role)) :
  forall text text' found,
    fold_left
      (fun (state : string * list (string * Role)) entry =>
         let '(user_input, mentions_found) := state in
         let '(mention, role) := entry in
         if PyStr.contains mention (PyStr.lower user_input) then
           (remove_mention mention user_input,
            mentions_found ++ [(mention, role)])
         else state)
      table (text, [])
    = (text', found) ->
    match found with
    | [] =>
        text' = text
        /\ forall m r, In (m, r) table -> mentioned m text = false
    | (mention, role) :: _ =>
        exists pre post,
          table = pre ++ (mention, role) :: post
          /\ mentioned mention text = true
          /\ forall m r, In (m, r) pre -> mentioned m text = false
    end.
Proof.
  induction table as [|[mention role] table IH]; intros text text' found.
  - simpl. intros [= <- <-]. split; [reflexivity |]. intros m r [].
  - cbn [fold_left].
    destruct (PyStr.contains mention (PyStr.lower text)) eqn:Hhit.
    + destruct (mentions_keep_first table (remove_mention mention text)
                  (mention, role) []) as (t & f & Hfold).
      simpl app. rewrite Hfold. intros [= <- <-].
      exists [], table. split; [reflexivity |].
      split; [exact Hhit |]. intros m r [].
    + intros Hfold. specialize (IH _ _ _ Hfold).
      destruct found as [|[mention' role'] found].
      * destruct IH as [-> Hnone]. split; [reflexivity |].
        intros m r [[= <- <-] | Hin]; [exact Hhit | exact (Hnone m r Hin)].
      * destruct IH as (pre & post & -> & Hhit' & Hpre).
        exists ((mention, role) :: pre), post.
        split; [reflexivity |]. split; [exact Hhit' |].
        intros m r [[= <- <-] | Hin]; [exact Hhit | exact (Hpre m r Hin)].
Qed.

Variable _load_file_context : string -> string.

(** [handle_mention] from the text it looks at. *)
Lemma handle_mention_routes (user_input : string) (role : Role)
    (prompt_text : string) (save_to : option string) :
  handle_mention _load_file_context user_input
  = QueryAgent role prompt_text save_to ->
  exists text' found mention,
    fold_left
      (fun (state : string * list (string * Role)) entry =>
         let '(user_input, mentions_found) := state in
         let '(mention, role) := entry in
         if PyStr.contains mention (PyStr.lower user_input) then
           (remove_mention mention user_input,
            mentions_found ++ [(mention, role)])
         else state)
      MENTION_ALIASES (addressed_text user_input, [])
    = (text', (mention, role) :: found).
Proof.
  unfold handle_mention, addressed_text.
  destruct (PyStr.contains ">" user_input);
    [set (t1 := PyStr.strip (nth 0 (PyStr.split ">" user_input) ""))
    | set (t1 := user_input)];
    (destruct (PyStr.contains "<" t1);
     [set (t2 := PyStr.strip (nth 0 (PyStr.split "<" t1) ""))
     | set (t2 := t1)]);
    (destruct (fold_left _ MENTION_ALIASES (t2, [])) as [text' found];
     destruct (String.eqb _ _); [discriminate |];
     destruct (existsb _ TEAM_MENTIONS); [discriminate |];
     destruct found as [|[mention role'] found]; [discriminate |];
     intros [= <- _ _]; exists text', found, mention; reflexivity).
Qed.

End MentionFacts.

(** X26. [handle_mention] takes the role of the first mention of its
    table that occurs in the text, not of the first mention in the text:
    when it sends the prompt to a role, some mention of that role occurs
    in the addressed text and no mention that stands earlier in the table
    does. Hence the second coder is reached through [@gemini] alone: a
    text with [@dev2] or [@coder2] holds [@dev] or [@coder], which come
    first and belong to the first coder. *)
Theorem mention_takes_first_of_table (_load_file_context : string -> string)
    (user_input : string) (role : Role) (prompt_text : string)
    (save_to : option string) :
  Shell.handle_mention _load_file_context user_input
  = Shell.QueryAgent role prompt_text save_to ->
  (exists pre mention post,
     Shell.MENTION_ALIASES = pre ++ (mention, role) :: post
     /\ mentioned mention (addressed_text user_input) = true
     /\ forall m r,
          In (m, r) pre -> mentioned m (addressed_text user_input) = false)
  /\ (role = CODER_2 ->
      mentioned "@gemini" (addressed_text user_input) = true).
Proof.
  intros Hroute.
  destruct (handle_mention_routes _load_file_context user_input role
              prompt_text save_to Hroute) as (text' & found & mention & Hfold).
  apply mentions_found_first in Hfold.
  destruct Hfold as (pre & post & Htable & Hhit & Hpre).
  split; [exists pre, mention, post; repeat split; assumption |].
  intros ->.
  assert (In (mention, CODER_2) Shell.MENTION_ALIASES) as Hin
    by (rewrite Htable; apply in_app_iff; right; left; reflexivity).
  unfold Shell.MENTION_ALIASES in Hin, Htable. simpl in Hin.
  repeat (destruct Hin as [Hin | Hin]; [try discriminate |]);
    try contradiction; injection Hin as <-.
  - apply (contains_longer "@dev" "2") in Hhit.
    assert (In ("@dev", CODER) pre) as Hin.
    { clear -Htable.
      repeat (destruct pre as [|[m0 r0] pre];
              [discriminate Htable
              | simpl in Htable; injection Htable as <- <- Htable;
                first [left; reflexivity | right]]). }
    apply Hpre in Hin. unfold mentioned in Hin. congruence.
  - apply (contains_longer "@coder" "2") in Hhit.
    assert (In ("@coder", CODER) pre) as Hin.
    { clear -Htable.
      repeat (destruct pre as [|[m0 r0] pre];
              [discriminate Htable
              | simpl in Htable; injection Htable as <- <- Htable;
                first [left; reflexivity | right]]). }
    apply Hpre in Hin. unfold mentioned in Hin. congruence.
  - exact Hhit.
Qed.

Lemma mention_takes_first_of_table_witness :
  mentioned "@gemini" (addressed_text "@Gemini refactor this > out.py")
  = true.
Proof.
  refine (proj2 (mention_takes_first_of_table (fun _ => EmptyString)
                   "@Gemini refactor this > out.py" CODER_2
                   "refactor this" (Some "out.py") _) eq_refl).
  vm_compute. reflexivity.
Defined.

Section TeamFacts.

Variable B : Backend.
Variable settings : Settings.
Variable configs : list (string * RoleConfig.t).

Lemma query_loop_effects (prompt_text : string) (roles : list Role) :
  forall self self' w w' outcomes,
    Shell.query_loop B settings configs self prompt_text roles w
    = (self', w', outcomes) ->
    List.map fst outcomes = roles
    /\ Orchestrator._workflows self' = Orchestrator._workflows self
    /\ (forall other, ~ In other roles ->
          Orchestrator._agents self' !! other
          = Orchestrator._agents self !! other)
    /\ exists new,
         calls w' = calls w ++ new /\ requests_are_single_prompts new.
Proof.
  induction roles as [|role roles IH]; intros self self' w w' outcomes.
  - simpl. intros [= <- <- <-]. repeat split.
    exists []. split; [symmetry; apply app_nil_r | constructor].
  - cbn [Shell.query_loop].
    destruct (Orchestrator.ask B settings configs self role prompt_text false
                               w) as [[self1 w1] outcome] eqn:Hask.
    destruct (Shell.query_loop B settings configs self1 prompt_text roles w1)
      as [[self2 w2] rest] eqn:Hloop.
    intros [= <- <- <-].
    destruct (ask_effects B settings configs _ _ _ _ _ _ _ _ Hask)
      as (Hwf1 & _ & Hothers1 & _ & Hcalls1 & _).
    destruct (Hcalls1 eq_refl) as (new1 & Hnew1 & Hsingle1).
    destruct (IH _ _ _ _ _ Hloop)
      as (Hroles & Hwf2 & Hothers2 & new2 & Hnew2 & Hsingle2).
    split; [simpl; rewrite Hroles; reflexivity |].
    split; [congruence |].
    split.
    + intros other Hnot. rewrite Hothers2, Hothers1; [reflexivity | |].
      * intros ->. apply Hnot. left. reflexivity.
      * intros Hin. apply Hnot. right. exact Hin.
    + exists (new1 ++ new2). split.
      * rewrite Hnew2, Hnew1, app_assoc. reflexivity.
      * apply single_prompts_app; assumption.
Qed.

End TeamFacts.

(** X27. A team query of the shell asks the senior developer, the coder,
    the tester and the analyst, in this order, and asks each of them
    whatever happened to the ones before: a member that fails has its
    error as outcome and the next one is asked. The second coder and the
    reviewer are never asked and their agents are left as they were;
    every request carries the prompt alone, without history. *)
Theorem team_query_asks_four_members (B : Backend) (settings : Settings)
    (configs : list (string * RoleConfig.t)) (self self' : Orchestrator.t)
    (prompt_text : string) (w w' : World)
    (outcomes : list (Role * result AgentResponse.t)) :
  Shell._query_team B settings configs self prompt_text w
  = (self', w', outcomes) ->
  List.map fst outcomes = [SENIOR_DEV; CODER; QA; BA]
  /\ Orchestrator._agents self' !! CODER_2
     = Orchestrator._agents self !! CODER_2
  /\ Orchestrator._agents self' !! REVIEWER
     = Orchestrator._agents self !! REVIEWER
  /\ Orchestrator._workflows self' = Orchestrator._workflows self
  /\ exists new,
       calls w' = calls w ++ new /\ requests_are_single_prompts new.
Proof.
  intros Hrun. unfold Shell._query_team in Hrun.
  destruct (query_loop_effects B settings configs prompt_text _ _ _ _ _ _
              Hrun) as (Hroles & Hwf & Hothers & Hcalls).
  split; [exact Hroles |].
  split; [apply Hothers; simpl; intuition discriminate |].
  split; [apply Hothers; simpl; intuition discriminate |].
  split; [exact Hwf | exact Hcalls].
Qed.

Lemma team_query_asks_four_members_witness :
  List.map fst
    (snd (Shell._query_team (sample_backend 1) default_settings _ROLE_CONFIGS
            (Orchestrator.new false) "status?" empty_world))
  = [SENIOR_DEV; CODER; QA; BA].
Proof.
  exact (proj1 (team_query_asks_four_members (sample_backend 1)
                  default_settings _ROLE_CONFIGS (Orchestrator.new false) _
                  "status?" empty_world _ _ (triple_eta _))).
Defined.

(** ** Writing a file *)

Section WriteFacts.

Import FS FileSystemTools.

(** [mkdir -p] cannot pass a file. *)
Lemma mkdir_node_blocked (full : path) (pre : path) :
  forall rest n f,
    lookup n pre = Some (File f) ->
    exists e, mkdir_node full (pre ++ rest) n = inl e.
Proof.
  induction pre as [|x pre IH]; intros rest n f Hl.
  - simpl in Hl. injection Hl as ->. destruct rest; eexists; reflexivity.
  - destruct n as [f0 | r es]; [discriminate |]. simpl in Hl |- *.
    destruct (assoc x es) as [c |]; [| discriminate].
    destruct (IH rest c f Hl) as [e ->]. eexists. reflexivity.
Qed.

Lemma removelast_snoc_again (p : path) :
  p <> [] -> exists x, p = removelast p ++ [x].
Proof.
  intros Hp. destruct (exists_last Hp) as (init & x & ->).
  exists x. rewrite removelast_last. reflexivity.
Qed.

Variable workspace_root : path.

(** What [write_file] leaves, from the directory that holds the file. *)
Lemma write_file_tree (p content : string) (parent : path) (x : string)
    (fs : node) :
  _resolve_path workspace_root p = inr (parent ++ [x]) ->
  fst (write_file workspace_root p content fs)
  = match mkdir_node parent parent fs with
    | inl _ => fs
    | inr fs1 =>
        match lookup fs1 parent with
        | Some (Dir r es) =>
            match write_update false (parent ++ [x]) content (assoc x es) with
            | inr (Some c) => plug fs1 parent (Dir r (set_entry x c es))
            | _ => fs1
            end
        | _ => fs1
        end
    end.
Proof.
  intros Hres. rewrite (write_file_run workspace_root p content _ fs Hres).
  rewrite removelast_last.
  destruct (mkdir_node parent parent fs) as [e | fs1] eqn:Hmk;
    [reflexivity |].
  destruct (mkdir_node_target _ _ _ _ Hmk) as (r & es & Hl). rewrite Hl.
  unfold write_text. rewrite open_write_update. unfold writing.
  rewrite (at_path_focus _ _ [x] parent fs1 _ ltac:(discriminate) Hl).
  cbn [at_path].
  destruct (write_update false (parent ++ [x]) content (assoc x es))
    as [e | [c |]] eqn:Hupd; try reflexivity.
  unfold write_update in Hupd.
  destruct (assoc x es) as [[f | r' es'] |]; discriminate.
Qed.

End WriteFacts.

(** X28. [write_file] succeeds exactly when no file sits at an ancestor
    of the path and the path does not hold a directory (the filesystem
    of the model knows no other obstacle): missing directories are
    created. And the last write wins: writing one text and then another
    to the same path leaves the filesystem that writing the second alone
    leaves. *)
Theorem write_file_last_write_wins (workspace_root : FS.path) (p : string)
    (full : FS.path) (fs : FS.node) :
  FileSystemTools._resolve_path workspace_root p = inr full ->
  (forall content,
     FileSystemTools.success
       (snd (FileSystemTools.write_file workspace_root p content fs))
     = true
     <-> (forall pre rest f,
            removelast full = pre ++ rest ->
            FS.lookup fs pre <> Some (FS.File f))
         /\ (forall r es, FS.lookup fs full <> Some (FS.Dir r es)))
  /\ (forall a b,
        fst (FileSystemTools.write_file workspace_root p b
               (fst (FileSystemTools.write_file workspace_root p a fs)))
        = fst (FileSystemTools.write_file workspace_root p b fs)).
Proof.
  intros Hres. split.
  - intros content.
    rewrite (write_file_run workspace_root p content full fs Hres).
    split.
    + intros Hok.
      destruct (FS.mkdir_node (removelast full) (removelast full) fs)
        as [e | fs1] eqn:Hmk; [discriminate |].
      split.
      * intros pre rest f Hsplit Hfile.
        destruct (mkdir_node_blocked (removelast full) pre rest fs f Hfile)
          as [e He].
        rewrite <- Hsplit in He. congruence.
      * intros r es Hdir.
        unfold FS.write_text, FS.open_write, FS.writing in Hok.
        destruct (FS.at_path full full _ fs1) as [e | fs2] eqn:Hat;
          [discriminate |].
        destruct (at_path_target _ _ _ _ _ Hat) as (o & Hupd & _).
        destruct (mkdir_node_keeps_flag _ _ _ _ full r es Hmk Hdir)
          as [es' Hdir1].
        rewrite Hdir1 in Hupd. discriminate.
    + intros [Hfiles Hdir].
      destruct (FS.mkdir_node (removelast full) (removelast full) fs)
        as [e | fs1] eqn:Hmk.
      { destruct (mkdir_node_fails _ _ _ _ Hmk) as (pre & rest & f & Hs & Hl).
        exfalso. exact (Hfiles pre rest f Hs Hl). }
      assert (full <> []) as Hfull.
      { intros ->. destruct fs as [f | r es].
        - exact (Hfiles [] [] f eq_refl eq_refl).
        - exact (Hdir r es eq_refl). }
      assert (FS.lookup fs1 full = FS.lookup fs full) as Hsame.
      { apply (mkdir_node_frame _ _ _ _ full Hmk).
        apply removelast_not_prefix. exact Hfull. }
      destruct (mkdir_node_target _ _ _ _ Hmk) as (r & es & Hparent).
      unfold FS.write_text. rewrite open_write_update. unfold FS.writing.
      assert (exists o,
                write_update false full content (FS.lookup fs1 full) = inr o)
        as [o Ho].
      { rewrite Hsame. unfold write_update.
        destruct (FS.lookup fs full) as [[f | r' es'] |];
          [eexists; reflexivity | | eexists; reflexivity].
        exfalso. exact (Hdir r' es' eq_refl). }
      destruct (at_path_creates full (write_update false full content) full
                  fs1 r es o Hfull Hparent Ho) as [fs2 ->].
      reflexivity.
  - intros a b.
    destruct full as [|y full'] using rev_ind.
    + (* the path is the root of the filesystem: nothing is written *)
      rewrite !(write_file_run workspace_root p _ [] _ Hres). simpl.
      destruct fs as [f | r es]; reflexivity.
    + clear IHfull'.
      rewrite !(write_file_tree workspace_root p _ full' y _ Hres).
      destruct (FS.mkdir_node full' full' fs) as [e | fs1] eqn:Hmk.
      * rewrite Hmk. reflexivity.
      * destruct (mkdir_node_target _ _ _ _ Hmk) as (r & es & Hl).
        rewrite Hl.
        assert (forall d,
                  FS.mkdir_node full' full' (plug fs1 full' (FS.Dir r d))
                  = inr (plug fs1 full' (FS.Dir r d))) as Hagain.
        { intros d. apply (mkdir_node_existing full' full' _ r d).
          exact (lookup_plug full' fs1 _ _ Hl). }
        destruct (assoc y es) as [[f | r' es'] |] eqn:Hy; simpl.
        -- rewrite Hagain, (lookup_plug full' fs1 _ _ Hl).
           rewrite assoc_set_entry. simpl.
           rewrite set_entry_twice, (plug_plug full' fs1 _ _ _ Hl).
           reflexivity.
        -- rewrite (mkdir_node_again _ _ _ _ Hmk), Hl, Hy. reflexivity.
        -- rewrite Hagain, (lookup_plug full' fs1 _ _ Hl).
           rewrite assoc_set_entry. simpl.
           rewrite set_entry_twice, (plug_plug full' fs1 _ _ _ Hl).
           reflexivity.
Qed.

Lemma write_file_last_write_wins_witness :
  fst (FileSystemTools.write_file ["srv"; "ws"] "docs/a.txt" "second"
         (fst (FileSystemTools.write_file ["srv"; "ws"] "docs/a.txt" "first"
                 sample_fs)))
  = fst (FileSystemTools.write_file ["srv"; "ws"] "docs/a.txt" "second"
           sample_fs).
Proof.
  exact (proj2 (write_file_last_write_wins ["srv"; "ws"] "docs/a.txt"
                  ["srv"; "ws"; "docs"; "a.txt"] sample_fs eq_refl)
               "first" "second").
Defined.


